(** * Connection-resilience core of the Proxmox VE Homey app

  A shallow embedding of the host registry with its circuit breakers (class
  [HostManager], required by the device as [lib/HostManager]), of the HTTP
  client's classification of replies ([ProxmoxClient.request]) and of the
  request path of the cluster device built on them (class
  [ProxmoxClusterDevice]: [_executeApiCallWithFallback],
  [_getCachedResponse], [_setCachedResponse], the pings of
  [_performHealthCheck] and its choice of the hosts to ping,
  [_getBackupHostsFromSettings], [_createManagedTimeout],
  [_clearAllTimeouts]).

  Conventions of the embedding:
  - JavaScript numbers that the code uses as integers (epoch milliseconds,
    latencies, counters, HTTP status codes) are [Z];
  - [Date.now()] is read once per synchronous operation and passed in as
    [now];
  - [null] / [undefined] scalars are [option]; a JavaScript truthiness test
    on a string is [truthy] (the empty string is falsy);
  - [hosts] is a JavaScript [Map] whose iteration order is observable, so it
    is an insertion-ordered association list; [circuitBreakers],
    [requestCache] and [pendingRequests] are only accessed by key and are
    finite maps;
  - logging is left out. *)

From stdpp Require Import gmap strings list fin_maps sorting.
From Stdlib Require Import ZArith Lia.

Local Open Scope Z_scope.

(** ** Insertion-ordered maps (JavaScript [Map] with observable order) *)

Section OrderedMap.
Context {V : Type}.

Fixpoint omap_get (k : string) (m : list (string * V)) : option V :=
  match m with
  | [] => None
  | (k', v) :: m' => if decide (k' = k) then Some v else omap_get k m'
  end.

(** [Map.prototype.set]: an existing key keeps its position, a new key is
    appended. *)
Fixpoint omap_set (k : string) (v : V) (m : list (string * V)) : list (string * V) :=
  match m with
  | [] => [(k, v)]
  | (k', v') :: m' =>
      if decide (k' = k) then (k, v) :: m' else (k', v') :: omap_set k v m'
  end.

Fixpoint omap_delete (k : string) (m : list (string * V)) : list (string * V) :=
  match m with
  | [] => []
  | (k', v') :: m' =>
      if decide (k' = k) then omap_delete k m' else (k', v') :: omap_delete k m'
  end.
End OrderedMap.

(** JavaScript truthiness of a string value. *)
Definition truthy (s : string) : bool := negb (String.eqb s EmptyString).

(** ** The host registry: class [HostManager] *)

Module Host.
Inductive Status := healthy | unhealthy | unknown.

Record t := mk {
  lastSeen : Z;
  responseTime : Z;
  failureCount : Z;
  status : Status;
  lastFailure : option Z;
}.

(** The record used when [hosts.get(host)] is undefined. *)
Definition fresh : t :=
  {| lastSeen := 0; responseTime := 0; failureCount := 0;
     status := unknown; lastFailure := None |}.
End Host.

Module Breaker.
Inductive State := closed | open | half_open.

#[global] Instance State_eq_dec : EqDecision State.
Proof. solve_decision. Defined.

Record t := mk {
  failures : Z;
  lastFailure : Z;
  state : State;
}.

(** The record [_recordFailure] creates for a host without a breaker. *)
Definition fresh : t := {| failures := 0; lastFailure := 0; state := closed |}.
End Breaker.

Module HostManager.

Record t := mk {
  hosts : list (string * Host.t);
  circuitBreakers : gmap string Breaker.t;
  primaryHost : option string;
  preferredHost : option string;
}.

(** [this.timeouts] *)
Definition breakerOpen : Z := 60000.
Definition maxHostAge : Z := 300000.
Definition recentHost : Z := 120000.

(** The state built by the constructor. *)
Definition new : t :=
  {| hosts := []; circuitBreakers := ∅; primaryHost := None; preferredHost := None |}.

Definition with_breakers (cb : gmap string Breaker.t) (hm : t) : t :=
  {| hosts := hosts hm; circuitBreakers := cb;
     primaryHost := primaryHost hm; preferredHost := preferredHost hm |}.

Definition with_hosts (hs : list (string * Host.t)) (hm : t) : t :=
  {| hosts := hs; circuitBreakers := circuitBreakers hm;
     primaryHost := primaryHost hm; preferredHost := preferredHost hm |}.

Definition with_preferred (p : option string) (hm : t) : t :=
  {| hosts := hosts hm; circuitBreakers := circuitBreakers hm;
     primaryHost := primaryHost hm; preferredHost := p |}.

Definition _recordFailure (now : Z) (host : string) (hm : t) : t :=
  let b := default Breaker.fresh (circuitBreakers hm !! host) in
  let n := Breaker.failures b + 1 in
  let st :=
    if bool_decide (3 ≤ n) && bool_decide (Breaker.state b ≠ Breaker.open)
    then Breaker.open else Breaker.state b in
  with_breakers
    (<[host := {| Breaker.failures := n; Breaker.lastFailure := now;
                  Breaker.state := st |}]> (circuitBreakers hm)) hm.

Definition _resetCircuitBreaker (host : string) (hm : t) : t :=
  match circuitBreakers hm !! host with
  | Some b =>
      with_breakers
        (<[host := {| Breaker.failures := 0;
                      Breaker.lastFailure := Breaker.lastFailure b;
                      Breaker.state := Breaker.closed |}]> (circuitBreakers hm)) hm
  | None => hm
  end.

(** Reading a breaker's state stores the lazily computed [half-open]. *)
Definition _getCircuitBreakerState (now : Z) (host : string) (hm : t)
  : Breaker.State * t :=
  match circuitBreakers hm !! host with
  | None => (Breaker.closed, hm)
  | Some b =>
      if bool_decide (Breaker.state b = Breaker.open)
         && bool_decide (now - Breaker.lastFailure b > breakerOpen)
      then (Breaker.half_open,
            with_breakers
              (<[host := {| Breaker.failures := Breaker.failures b;
                            Breaker.lastFailure := Breaker.lastFailure b;
                            Breaker.state := Breaker.half_open |}]>
                 (circuitBreakers hm)) hm)
      else (Breaker.state b, hm)
  end.

(** Score: Base (1000) - ResponseTime - (Failures * 100) + primary bonus. *)
Definition score (primary : option string) (host : string) (info : Host.t) : Z :=
  1000 - Host.responseTime info - Host.failureCount info * 100
  + (if bool_decide (primary = Some host) then 50 else 0).

(** [score > bestScore], where [None] stands for [-Infinity]. *)
Definition beats (s : Z) (best : option (string * Z)) : bool :=
  match best with
  | None => true
  | Some (_, bs) => bool_decide (s > bs)
  end.

(** One iteration of the loop of [_updatePreferredHost]. *)
Definition scoreStep (now : Z) (acc : option (string * Z) * t)
    (entry : string * Host.t) : option (string * Z) * t :=
  let '(best, hm) := acc in
  let '(host, info) := entry in
  let '(st, hm1) := _getCircuitBreakerState now host hm in
  if bool_decide (st = Breaker.open) then (best, hm1)
  else if bool_decide (now - Host.lastSeen info > maxHostAge) then (best, hm1)
  else
    let s := score (primaryHost hm1) host info in
    if beats s best then (Some (host, s), hm1) else (best, hm1).

Definition _updatePreferredHost (now : Z) (hm : t) : t :=
  let '(best, hm1) := fold_left (scoreStep now) (hosts hm) (None, hm) in
  match best with
  | Some (bestHost, _) =>
      if truthy bestHost then with_preferred (Some bestHost) hm1 else hm1
  | None => hm1
  end.

Definition updateHostStatus (now : Z) (host : string) (success : bool)
    (responseTime : Z) (hm : t) : t :=
  let current := default Host.fresh (omap_get host (hosts hm)) in
  if success then
    let current' :=
      {| Host.lastSeen := now; Host.responseTime := responseTime;
         Host.failureCount := 0; Host.status := Host.healthy;
         Host.lastFailure := Host.lastFailure current |} in
    let hm1 := _resetCircuitBreaker host hm in
    let hm2 := with_hosts (omap_set host current' (hosts hm1)) hm1 in
    _updatePreferredHost now hm2
  else
    let current' :=
      {| Host.lastSeen := Host.lastSeen current;
         Host.responseTime := Host.responseTime current;
         Host.failureCount := Host.failureCount current + 1;
         Host.status := Host.unhealthy;
         Host.lastFailure := Some now |} in
    let hm1 := _recordFailure now host hm in
    with_hosts (omap_set host current' (hosts hm1)) hm1.

Definition initialize (now : Z) (primary : string) (initialHosts : list string)
    (hm : t) : t :=
  let hm0 :=
    {| hosts := hosts hm; circuitBreakers := circuitBreakers hm;
       primaryHost := Some primary; preferredHost := Some primary |} in
  fold_left
    (fun acc host =>
       if truthy host && negb (String.eqb host primary)
       then updateHostStatus now host true 0 acc else acc)
    initialHosts (updateHostStatus now primary true 0 hm0).

Definition setPrimaryHost (host : string) (hm : t) : t :=
  let hm1 :=
    {| hosts := hosts hm; circuitBreakers := circuitBreakers hm;
       primaryHost := Some host; preferredHost := preferredHost hm |} in
  with_preferred (Some host) (_resetCircuitBreaker host hm1).

(** Entries of the [candidates] array of [getOrderedHostList]. *)
Record Candidate := mkCandidate { host : string; cscore : Z }.

(** [candidates.sort((a, b) => b.score - a.score)]: [Array.prototype.sort]
    is stable, so the result is the stable arrangement by descending score;
    it is computed here by insertion from the right. *)
Fixpoint insertCandidate (c : Candidate) (l : list Candidate) : list Candidate :=
  match l with
  | [] => [c]
  | d :: l' =>
      if bool_decide (cscore d ≤ cscore c) then c :: d :: l'
      else d :: insertCandidate c l'
  end.

Definition sortCandidates (l : list Candidate) : list Candidate :=
  foldr insertCandidate [] l.

(** Step 1 of [getOrderedHostList]: the preferred host. *)
Definition preferredCandidate (now : Z) (hm : t) : list Candidate * t :=
  match preferredHost hm with
  | Some p =>
      if truthy p then
        let info := omap_get p (hosts hm) in
        let '(st, hm1) := _getCircuitBreakerState now p hm in
        match info with
        | Some i =>
            if bool_decide (st ≠ Breaker.open)
               && bool_decide (now - Host.lastSeen i < recentHost)
            then ([mkCandidate p 999999], hm1) else ([], hm1)
        | None => ([], hm1)
        end
      else ([], hm)
  | None => ([], hm)
  end.

(** One iteration of the loop over the other hosts (step 2). *)
Definition otherStep (now : Z) (acc : list Candidate * t)
    (entry : string * Host.t) : list Candidate * t :=
  let '(cands, hm) := acc in
  let '(h, info) := entry in
  if bool_decide (preferredHost hm = Some h) then (cands, hm)
  else
    let '(st, hm1) := _getCircuitBreakerState now h hm in
    if bool_decide (st = Breaker.open) then (cands, hm1)
    else if bool_decide (now - Host.lastSeen info > maxHostAge) then (cands, hm1)
    else (cands ++ [mkCandidate h (- Host.responseTime info)], hm1).

(** The [candidates] array just before it is sorted. *)
Definition candidates (now : Z) (hm : t) : list Candidate * t :=
  fold_left (otherStep now) (hosts hm) (preferredCandidate now hm).

Definition getOrderedHostList (now : Z) (hm : t) : list string * t :=
  let '(cands, hm1) := candidates now hm in
  let sorted := sortCandidates cands in
  match sorted, primaryHost hm1 with
  | [], Some p => if truthy p then ([p], hm1) else ([], hm1)
  | _, _ => (host <$> sorted, hm1)
  end.

(** One iteration of the loop of [cleanup]. *)
Definition cleanupStep (now : Z) (hm : t) (entry : string * Host.t) : t :=
  let '(h, info) := entry in
  if bool_decide (now - Host.lastSeen info > maxHostAge)
  then {| hosts := omap_delete h (hosts hm);
          circuitBreakers := delete h (circuitBreakers hm);
          primaryHost := primaryHost hm; preferredHost := preferredHost hm |}
  else hm.

Definition cleanup (now : Z) (hm : t) : t :=
  fold_left (cleanupStep now) (hosts hm) hm.

(** The operations through which callers reach the registry. *)
Inductive Op :=
| Initialize (now : Z) (primary : string) (initialHosts : list string)
| SetPrimaryHost (host : string)
| UpdateHostStatus (now : Z) (host : string) (success : bool) (responseTime : Z)
| GetCircuitBreakerState (now : Z) (host : string)
| GetOrderedHostList (now : Z)
| Cleanup (now : Z).

Definition apply (hm : t) (op : Op) : t :=
  match op with
  | Initialize now primary initialHosts => initialize now primary initialHosts hm
  | SetPrimaryHost host => setPrimaryHost host hm
  | UpdateHostStatus now host success rt => updateHostStatus now host success rt hm
  | GetCircuitBreakerState now host => snd (_getCircuitBreakerState now host hm)
  | GetOrderedHostList now => snd (getOrderedHostList now hm)
  | Cleanup now => cleanup now hm
  end.

Definition run (ops : list Op) (hm : t) : t := fold_left apply ops hm.

End HostManager.

(** ** Values on the request path *)

(** A parsed JSON document, as [JSON.parse] returns it. *)
#[warnings="-register-all"]
Inductive Json :=
| JNull
| JBool (b : bool)
| JNum (n : Z)
| JStr (s : string)
| JArr (items : list Json)
| JObj (fields : list (string * Json)).

(** JavaScript truthiness of a response value ([if (cached) ...]). *)
Definition json_truthy (j : Json) : bool :=
  match j with
  | JNull => false
  | JBool b => b
  | JNum n => negb (n =? 0)
  | JStr s => truthy s
  | JArr _ | JObj _ => true
  end.

(** The [Error] objects that travel on the request path, told apart by where
    they are built: the first three by [ProxmoxClient.request], the last two
    by [_executeApiCallWithFallback]. *)
Inductive Error :=
| ApiError (status : Z) (responseBody : string)
| FetchError (code : string)
| RequestTimeout
| NoAvailableHosts
| ConnectionFailed.

(** [error.statusCode]; only the error built for a rejected response has it. *)
Definition statusCode (e : Error) : option Z :=
  match e with
  | ApiError status _ => Some status
  | _ => None
  end.

(** How a promise settles. *)
Inductive Outcome :=
| Resolved (value : Json)
| Rejected (error : Error).

(** ** The HTTP client: [ProxmoxClient.request] *)

Module ProxmoxClient.

(** What the network does with one HTTPS request: a response arrives (with
    [parsed] what [JSON.parse(text)] yields when it does not throw), [fetch]
    rejects, or the timeout promise wins the race. *)
Inductive Wire :=
| HttpResponse (status : Z) (text : string) (parsed : option Json)
| FetchFailed (code : string)
| TimeoutElapsed.

(** [response.ok] *)
Definition ok (status : Z) : bool :=
  bool_decide (200 ≤ status) && bool_decide (status ≤ 299).

Definition request (w : Wire) : Outcome :=
  match w with
  | HttpResponse status text parsed =>
      if ok status then
        Resolved (match parsed with
                  | Some j => j
                  | None => if truthy text then JStr text else JNull
                  end)
      else Rejected (ApiError status text)
  | FetchFailed code => Rejected (FetchError code)
  | TimeoutElapsed => Rejected RequestTimeout
  end.

End ProxmoxClient.

(** ** The cluster device: cache, coalescing and fallback

    Class [ProxmoxClusterDevice], in the variant that delegates to
    [HostManager] and [ProxmoxClient]. *)

Module ProxmoxClusterDevice.

(** The [options] object of a call; an absent property is [None]. *)
Record Options := mkOptions {
  method : option string;
  body : option string;
  skipCache : option bool;
  refreshCache : option bool;
  timeout : option Z;
}.

(** A call [_executeApiCallWithFallback(urlPath, options)].  The cache key is
    the string [`${urlPath}:${JSON.stringify(options)}`]: two calls have the
    same key exactly when path and options agree, so the pair itself serves as
    the key of [requestCache] and [pendingRequests]. *)
Record Request := mkRequest {
  urlPath : string;
  options : Options;
}.

#[global] Instance Options_eq_dec : EqDecision Options.
Proof. solve_decision. Defined.

#[global] Instance Request_eq_dec : EqDecision Request.
Proof. solve_decision. Defined.

#[global] Instance Options_countable : Countable Options.
Proof.
  refine (inj_countable'
    (fun o => (method o, body o, skipCache o, refreshCache o, timeout o))
    (fun '(m, b, s, r, t) => mkOptions m b s r t) _).
  intros []. reflexivity.
Defined.

#[global] Instance Request_countable : Countable Request.
Proof.
  refine (inj_countable'
    (fun r => (urlPath r, options r))
    (fun '(p, o) => mkRequest p o) _).
  intros []. reflexivity.
Defined.

Definition noOptions : Options :=
  {| method := None; body := None; skipCache := None; refreshCache := None;
     timeout := None |}.

(** Truthiness of an optional boolean property. *)
Definition flag (f : option bool) : bool := default false f.

(** [(options.method || 'GET') === 'GET'] *)
Definition isGet (o : Options) : bool :=
  match method o with
  | Some m => if truthy m then String.eqb m "GET" else true
  | None => true
  end.

(** [isGet && !options.skipCache && !options.refreshCache]: the call reads the
    cache and the in-flight map. *)
Definition readsCache (o : Options) : bool :=
  isGet o && negb (flag (skipCache o)) && negb (flag (refreshCache o)).

(** [isGet && !options.skipCache]: the call registers its promise in the
    in-flight map and stores its result. *)
Definition storesResult (o : Options) : bool :=
  isGet o && negb (flag (skipCache o)).

Record CacheEntry := mkEntry { data : Json; ts : Z }.

(** [this.cacheTimeout = 5 * 60 * 1000] *)
Definition cacheTimeout : Z := 5 * 60 * 1000.

(** What the platform shows of the connection: two capabilities and the
    availability of the device. *)
Record Bridge := mkBridge {
  hasAlarmCapability : bool;
  alarm_connection_fallback : bool;
  hasHostCapability : bool;
  status_connected_host : option string;
  available : bool;
  unavailableCause : option Error;
}.

(** A request promise created by the executor: either waiting for the reply
    of [host] (with the hosts still to try and [lastError]), or settled. *)
Inductive Phase :=
| Requesting (host : string) (rest : list string) (lastError : option Error)
| Settled (o : Outcome).

Record Task := mkTask { request : Request; phase : Phase }.

Record t := mk {
  hostManager : HostManager.t;
  requestCache : gmap Request CacheEntry;
  pendingRequests : gmap Request nat;
  bridge : Bridge;
  (** the request promises whose caller has not finished, by identity *)
  tasks : gmap nat Task;
  nextPromise : nat;
}.

Definition _getCachedResponse (now : Z) (key : Request) (dev : t) : Json :=
  match requestCache dev !! key with
  | Some entry => if bool_decide (now - ts entry < cacheTimeout) then data entry else JNull
  | None => JNull
  end.

Definition _setCachedResponse (now : Z) (key : Request) (d : Json)
    (cache : gmap Request CacheEntry) : gmap Request CacheEntry :=
  <[key := {| data := d; ts := now |}]> cache.

(** [_updateCapability(id, value)] on the two connection capabilities. *)
Definition _updateConnectionCapabilities (currentHost : string)
    (primary : option string) (b : Bridge) : Bridge :=
  let isUsingFallback := negb (bool_decide (Some currentHost = primary)) in
  {| hasAlarmCapability := hasAlarmCapability b;
     alarm_connection_fallback :=
       if hasAlarmCapability b then isUsingFallback else alarm_connection_fallback b;
     hasHostCapability := hasHostCapability b;
     status_connected_host :=
       if hasHostCapability b then Some currentHost else status_connected_host b;
     available := available b;
     unavailableCause := unavailableCause b |}.

(** [setUnavailable(`Connection failed. Last: ${lastError?.message}`)] *)
Definition setUnavailable (lastError : option Error) (b : Bridge) : Bridge :=
  {| hasAlarmCapability := hasAlarmCapability b;
     alarm_connection_fallback := alarm_connection_fallback b;
     hasHostCapability := hasHostCapability b;
     status_connected_host := status_connected_host b;
     available := false;
     unavailableCause := lastError |}.

(** [error.statusCode && error.statusCode >= 400 && error.statusCode < 500] *)
Definition isClientError (e : Error) : bool :=
  match statusCode e with
  | Some s => bool_decide (400 ≤ s) && bool_decide (s < 500)
  | None => false
  end.

(** What one iteration of the loop over the hosts decides. *)
Inductive Verdict :=
| Done (o : Outcome)
| Next (lastError : Error).

(** The body of [for (const host of hosts)], run when the reply [w] to the
    request sent to [host] is known. *)
Definition attempt (now : Z) (host : string) (w : ProxmoxClient.Wire)
    (hm : HostManager.t) (b : Bridge) : Verdict * HostManager.t * Bridge :=
  match ProxmoxClient.request w with
  | Resolved result =>
      let hm' := HostManager.updateHostStatus now host true 0 hm in
      (Done (Resolved result), hm',
       _updateConnectionCapabilities host (HostManager.primaryHost hm') b)
  | Rejected error =>
      let hm' := HostManager.updateHostStatus now host false 0 hm in
      if isClientError error then (Done (Rejected error), hm', b)
      else (Next error, hm', b)
  end.

(** The code after the loop: every host failed. *)
Definition exhausted (lastError : option Error) (b : Bridge) : Outcome * Bridge :=
  (Rejected (default ConnectionFailed lastError),
   if alarm_connection_fallback b then b else setUnavailable lastError b).

(** The reply of a host and the time at which the client hands it over. *)
Record Exchange := mkExchange { wire : ProxmoxClient.Wire; finishedAt : Z }.

(** The loop over the hosts when nothing else runs in between; the last
    component lists the hosts a request was sent to. *)
Fixpoint tryHosts (net : string -> Exchange) (hosts : list string)
    (lastError : option Error) (hm : HostManager.t) (b : Bridge)
    : Outcome * HostManager.t * Bridge * list string :=
  match hosts with
  | [] => let '(o, b') := exhausted lastError b in (o, hm, b', [])
  | host :: rest =>
      match attempt (finishedAt (net host)) host (wire (net host)) hm b with
      | (Done o, hm', b') => (o, hm', b', [host])
      | (Next e, hm', b') =>
          let '(o, hm'', b'', tried) := tryHosts net rest (Some e) hm' b' in
          (o, hm'', b'', host :: tried)
      end
  end.

(** The [try]/[finally] around [await requestPromise]. *)
Definition finish (now : Z) (r : Request) (o : Outcome) (dev : t) : t :=
  if storesResult (options r) then
    {| hostManager := hostManager dev;
       requestCache :=
         match o with
         | Resolved res => _setCachedResponse now r res (requestCache dev)
         | Rejected _ => requestCache dev
         end;
       pendingRequests := delete r (pendingRequests dev);
       bridge := bridge dev; tasks := tasks dev; nextPromise := nextPromise dev |}
  else dev.

(** How a call returns before any host is contacted, if it does. *)
Inductive Shortcut :=
| FromCache (j : Json)
| Attached (p : nat).

Definition shortcut (now : Z) (r : Request) (dev : t) : option Shortcut :=
  if readsCache (options r) then
    let cached := _getCachedResponse now r dev in
    if json_truthy cached then Some (FromCache cached)
    else match pendingRequests dev !! r with
         | Some p => Some (Attached p)
         | None => None
         end
  else None.

(** *** A call that runs to completion with nothing in between

    The request promise of such a call is created and settled within the
    call; it still uses up one promise identity. *)

Inductive Result :=
| Served (j : Json)
| Joined (p : nat)
| Finished (o : Outcome) (tried : list string).

Definition _executeApiCallWithFallback (net : string -> Exchange)
    (now storedAt : Z) (r : Request) (dev : t) : Result * t :=
  match shortcut now r dev with
  | Some (FromCache j) => (Served j, dev)
  | Some (Attached p) => (Joined p, dev)
  | None =>
      let '(hosts, hm1) := HostManager.getOrderedHostList now (hostManager dev) in
      let '(o, hm2, b2, tried) :=
        match hosts with
        | [] => (Rejected NoAvailableHosts, hm1, bridge dev, [])
        | _ => tryHosts net hosts None hm1 (bridge dev)
        end in
      (Finished o tried,
       finish storedAt r o
         {| hostManager := hm2; requestCache := requestCache dev;
            pendingRequests := pendingRequests dev; bridge := b2;
            tasks := tasks dev; nextPromise := S (nextPromise dev) |})
  end.

(** *** The same code as events of the event loop

    A call runs synchronously up to its first network request; the reply to
    that request, and the continuation after [await requestPromise], are later
    events, and other events may run in between. *)

Inductive Started :=
| Immediately (s : Shortcut)
| Promise (p : nat).

Definition call (now : Z) (r : Request) (dev : t) : Started * t :=
  match shortcut now r dev with
  | Some s => (Immediately s, dev)
  | None =>
      let '(hosts, hm1) := HostManager.getOrderedHostList now (hostManager dev) in
      let p := nextPromise dev in
      let ph :=
        match hosts with
        | [] => Settled (Rejected NoAvailableHosts)
        | host :: rest => Requesting host rest None
        end in
      (Promise p,
       {| hostManager := hm1; requestCache := requestCache dev;
          pendingRequests :=
            if storesResult (options r) then <[r := p]> (pendingRequests dev)
            else pendingRequests dev;
          bridge := bridge dev;
          tasks := <[p := {| request := r; phase := ph |}]> (tasks dev);
          nextPromise := S p |})
  end.

Definition reply (now : Z) (p : nat) (w : ProxmoxClient.Wire) (dev : t) : t :=
  match tasks dev !! p with
  | Some {| request := r; phase := Requesting host rest _ |} =>
      let '(v, hm', b') := attempt now host w (hostManager dev) (bridge dev) in
      let '(ph, b'') :=
        match v, rest with
        | Done o, _ => (Settled o, b')
        | Next e, host' :: rest' => (Requesting host' rest' (Some e), b')
        | Next e, [] => let '(o, b'') := exhausted (Some e) b' in (Settled o, b'')
        end in
      {| hostManager := hm'; requestCache := requestCache dev;
         pendingRequests := pendingRequests dev; bridge := b'';
         tasks := <[p := {| request := r; phase := ph |}]> (tasks dev);
         nextPromise := nextPromise dev |}
  | _ => dev
  end.

Definition resume (now : Z) (p : nat) (dev : t) : t :=
  match tasks dev !! p with
  | Some {| request := r; phase := Settled o |} =>
      finish now r o
        {| hostManager := hostManager dev; requestCache := requestCache dev;
           pendingRequests := pendingRequests dev; bridge := bridge dev;
           tasks := delete p (tasks dev); nextPromise := nextPromise dev |}
  | _ => dev
  end.

(** One ping of [_performHealthCheck]: the client is used directly and the
    measured latency is recorded. *)
Definition ping (start now : Z) (host : string) (w : ProxmoxClient.Wire) (dev : t) : t :=
  {| hostManager :=
       match ProxmoxClient.request w with
       | Resolved _ => HostManager.updateHostStatus now host true (now - start) (hostManager dev)
       | Rejected _ => HostManager.updateHostStatus now host false 0 (hostManager dev)
       end;
     requestCache := requestCache dev; pendingRequests := pendingRequests dev;
     bridge := bridge dev; tasks := tasks dev; nextPromise := nextPromise dev |}.

Definition onRegistry (f : HostManager.t -> HostManager.t) (dev : t) : t :=
  {| hostManager := f (hostManager dev);
     requestCache := requestCache dev; pendingRequests := pendingRequests dev;
     bridge := bridge dev; tasks := tasks dev; nextPromise := nextPromise dev |}.

(** [onSettings] when the hostname changed. *)
Definition onHostnameChanged (host : string) (dev : t) : t :=
  let b := bridge dev in
  {| hostManager := HostManager.setPrimaryHost host (hostManager dev);
     requestCache := requestCache dev; pendingRequests := pendingRequests dev;
     bridge :=
       {| hasAlarmCapability := hasAlarmCapability b;
          alarm_connection_fallback :=
            if hasAlarmCapability b then false else alarm_connection_fallback b;
          hasHostCapability := hasHostCapability b;
          status_connected_host :=
            if hasHostCapability b then Some host else status_connected_host b;
          available := available b;
          unavailableCause := unavailableCause b |};
     tasks := tasks dev; nextPromise := nextPromise dev |}.

Inductive Event :=
| Call (now : Z) (r : Request)
| Reply (now : Z) (p : nat) (w : ProxmoxClient.Wire)
| Resume (now : Z) (p : nat)
| Ping (start now : Z) (host : string) (w : ProxmoxClient.Wire)
| Sweep (now : Z)
| HostnameChanged (host : string).

Definition step (dev : t) (ev : Event) : t :=
  match ev with
  | Call now r => snd (call now r dev)
  | Reply now p w => reply now p w dev
  | Resume now p => resume now p dev
  | Ping start now host w => ping start now host w dev
  | Sweep now => onRegistry (HostManager.cleanup now) dev
  | HostnameChanged host => onHostnameChanged host dev
  end.

Definition steps (evs : list Event) (dev : t) : t := fold_left step evs dev.

(** The device as [onInit] leaves it before the first request. *)
Definition init (now : Z) (primary : string) (backups : list string) (b : Bridge) : t :=
  {| hostManager := HostManager.initialize now primary backups HostManager.new;
     requestCache := ∅; pendingRequests := ∅; bridge := b;
     tasks := ∅; nextPromise := 0%nat |}.

End ProxmoxClusterDevice.

(** ** The health check: which hosts it pings

    [_performHealthCheck], from [const nodesToPing = new Set(...)] to the loop
    over that set.  The values are whatever the registry and the cluster
    status hold, [null] included, so they are kept abstract; a [Set] tells
    them apart by SameValueZero, which is equality on them.  [draw] stands
    for the random number: [Math.floor(Math.random() * otherNodes.length)] is
    some index of [otherNodes]. *)

Module HealthCheck.
Section NodesToPing.
Context {A : Type} `{EqDecision A}.
Variable truthyA : A → bool.

(** [Set.prototype.add], on the elements in insertion order. *)
Definition setAdd (x : A) (s : list A) : list A :=
  if bool_decide (x ∈ s) then s else s ++ [x].

(** [onlineNodes.filter(ip => !nodesToPing.has(ip))] *)
Definition otherNodes (nodes : list A) (onlineNodes : list A) : list A :=
  List.filter (fun ip => negb (bool_decide (ip ∈ nodes))) onlineNodes.

Definition nodesToPing (primaryHost preferredHost : A) (onlineNodes : list A)
    (draw : nat) : list A :=
  let s0 := [primaryHost] in
  let s1 := if truthyA preferredHost then setAdd preferredHost s0 else s0 in
  let others := otherNodes s1 onlineNodes in
  match others !! (draw mod length others)%nat with
  | Some ip => setAdd ip s1
  | None => s1
  end.
End NodesToPing.
End HealthCheck.

(** ** The backup hosts kept in the settings

    [_getBackupHostsFromSettings] reads the comma-separated setting that
    [_performHealthCheck] writes with [join(',')].  A string is the list of
    its code units; [comma] is the code unit of [','] and [isWhiteSpace] tells
    the code units [String.prototype.trim] removes (white space and line
    terminators). *)

Module BackupHostsSetting.
Section Parsing.
Context {Char : Type} `{EqDecision Char}.
Variable comma : Char.
Variable isWhiteSpace : Char → bool.

(** [raw.split(',')] *)
Fixpoint split (raw : list Char) : list (list Char) :=
  match raw with
  | [] => [[]]
  | c :: raw' =>
      if bool_decide (c = comma) then [] :: split raw'
      else match split raw' with
           | piece :: pieces => (c :: piece) :: pieces
           | [] => [[c]]
           end
  end.

Fixpoint trimStart (s : list Char) : list Char :=
  match s with
  | c :: s' => if isWhiteSpace c then trimStart s' else s
  | [] => []
  end.

(** [s.trim()] *)
Definition trim (s : list Char) : list Char :=
  reverse (trimStart (reverse (trimStart s))).

(** [raw] is the setting, [None] when it is not set; [primaryHost] is the
    registry's primary host at the time of the call. *)
Definition _getBackupHostsFromSettings (raw : option (list Char))
    (primaryHost : option (list Char)) : list (list Char) :=
  match raw with
  | None | Some [] => []
  | Some raw =>
      List.filter
        (fun s => negb (bool_decide (s = []))
                  && negb (bool_decide (Some s = primaryHost)))
        (trim <$> split raw)
  end.

(** [hosts.join(',')] *)
Fixpoint join (hosts : list (list Char)) : list Char :=
  match hosts with
  | [] => []
  | [h] => h
  | h :: hosts' => h ++ comma :: join hosts'
  end.
End Parsing.
End BackupHostsSetting.
(** ** Managed timeouts

    [_createManagedTimeout], the callback it wraps around [fn], and
    [_clearAllTimeouts].  [scheduled] is the platform's side: the timeouts
    made by [this.homey.setTimeout] that have neither fired nor been
    cleared.  The device makes timeouts in [_createManagedTimeout] only, and
    the platform gives each a fresh identity. *)

Module ManagedTimeouts.

Record t := mk {
  scheduled : gset nat;
  activeTimeouts : gset nat;
  nextId : nat;
}.

(** [this.activeTimeouts = new Set()] in [onInit]. *)
Definition new : t := {| scheduled := ∅; activeTimeouts := ∅; nextId := 0%nat |}.

Definition _createManagedTimeout (s : t) : nat * t :=
  let id := nextId s in
  (id, {| scheduled := {[id]} ∪ scheduled s;
          activeTimeouts := {[id]} ∪ activeTimeouts s;
          nextId := S id |}).

(** The timeout [id] fires: the platform drops it and runs the callback,
    which deletes [id] from [activeTimeouts] before it awaits [fn]. *)
Definition fire (id : nat) (s : t) : t :=
  if bool_decide (id ∈ scheduled s)
  then {| scheduled := scheduled s ∖ {[id]};
          activeTimeouts := activeTimeouts s ∖ {[id]};
          nextId := nextId s |}
  else s.

(** [clearTimeout] on every tracked identity, then [activeTimeouts.clear()]. *)
Definition _clearAllTimeouts (s : t) : t :=
  {| scheduled := scheduled s ∖ activeTimeouts s;
     activeTimeouts := ∅;
     nextId := nextId s |}.

Inductive Event :=
| Create
| Fire (id : nat)
| ClearAll.

Definition step (s : t) (ev : Event) : t :=
  match ev with
  | Create => snd (_createManagedTimeout s)
  | Fire id => fire id s
  | ClearAll => _clearAllTimeouts s
  end.

Definition run (evs : list Event) (s : t) : t := fold_left step evs s.

End ManagedTimeouts.

(** * Vocabulary of the properties *)

(** ** Of the registry *)

Module RegistrySpec.
Import HostManager.

(** The breaker a recorded failure leaves for the host. *)
Definition afterFailure (now : Z) (b : Breaker.t) : Breaker.t :=
  {| Breaker.failures := Breaker.failures b + 1;
     Breaker.lastFailure := now;
     Breaker.state :=
       if bool_decide (3 ≤ Breaker.failures b + 1)
          && bool_decide (Breaker.state b ≠ Breaker.open)
       then Breaker.open else Breaker.state b |}.

(** The host record a recorded failure leaves for the host. *)
Definition failedOnce (now : Z) (info : Host.t) : Host.t :=
  {| Host.lastSeen := Host.lastSeen info;
     Host.responseTime := Host.responseTime info;
     Host.failureCount := Host.failureCount info + 1;
     Host.status := Host.unhealthy;
     Host.lastFailure := Some now |}.

(** A breaker that has not counted anything yet: none, or closed at zero. *)
Definition freshBreaker (host : string) (hm : t) : Prop :=
  Breaker.failures (default Breaker.fresh (circuitBreakers hm !! host)) = 0
  ∧ Breaker.state (default Breaker.fresh (circuitBreakers hm !! host)) = Breaker.closed.

(** The invariant of the breaker map. *)
Definition openMeansTripped (hm : t) : Prop :=
  ∀ h b, circuitBreakers hm !! h = Some b →
         Breaker.state b = Breaker.open → 3 ≤ Breaker.failures b.

(** The state a query at time [now] answers for a host. *)
Definition stateAt (now : Z) (hm : t) (h : string) : Breaker.State :=
  fst (_getCircuitBreakerState now h hm).

(** Two registries that rank alike: same hosts and markers, and every state
    query at [now] answers the same. *)
Definition sameView (now : Z) (hm s : t) : Prop :=
  hosts s = hosts hm ∧ primaryHost s = primaryHost hm
  ∧ preferredHost s = preferredHost hm
  ∧ ∀ h, stateAt now s h = stateAt now hm h.

(** A host the ranking loops keep: not open when read, and seen within
    [maxHostAge]. *)
Definition eligibleb (now : Z) (hm : t) (e : string * Host.t) : bool :=
  negb (bool_decide (stateAt now hm e.1 = Breaker.open))
  && negb (bool_decide (now - Host.lastSeen e.2 > maxHostAge)).

Definition eligible (now : Z) (hm : t) (e : string * Host.t) : Prop :=
  stateAt now hm e.1 ≠ Breaker.open ∧ now - Host.lastSeen e.2 ≤ maxHostAge.

(** The pure content of one iteration of [_updatePreferredHost]. *)
Definition chooseStep (now : Z) (hm : t) (best : option (string * Z))
    (e : string * Host.t) : option (string * Z) :=
  if eligibleb now hm e then
    let s := score (primaryHost hm) e.1 e.2 in
    if beats s best then Some (e.1, s) else best
  else best.

(** The answer of a query only depends on the host's breaker record. *)
Definition readState (now : Z) (ob : option Breaker.t) : Breaker.State :=
  match ob with
  | Some b =>
      if bool_decide (Breaker.state b = Breaker.open)
         && bool_decide (now - Breaker.lastFailure b > breakerOpen)
      then Breaker.half_open else Breaker.state b
  | None => Breaker.closed
  end.

(** The best entry found so far is the first one with the highest score. *)
Definition firstBest (now : Z) (hm : t) (l : list (string * Host.t))
    (best : option (string * Z)) : Prop :=
  match best with
  | None => ∀ e, e ∈ l → ¬ eligible now hm e
  | Some (h, s) =>
      ∃ before info after,
        l = before ++ (h, info) :: after
        ∧ eligible now hm (h, info)
        ∧ s = score (primaryHost hm) h info
        ∧ (∀ e, e ∈ before → eligible now hm e → score (primaryHost hm) e.1 e.2 < s)
        ∧ (∀ e, e ∈ after → eligible now hm e → score (primaryHost hm) e.1 e.2 ≤ s)
  end.

(** The registry that [updateHostStatus(host, true, responseTime)] hands to
    [_updatePreferredHost]: the host's record refreshed, its breaker reset. *)
Definition refreshed (now : Z) (host : string) (responseTime : Z) (hm : t) : t :=
  with_hosts
    (omap_set host
       {| Host.lastSeen := now; Host.responseTime := responseTime;
          Host.failureCount := 0; Host.status := Host.healthy;
          Host.lastFailure :=
            Host.lastFailure (default Host.fresh (omap_get host (hosts hm))) |}
       (hosts (_resetCircuitBreaker host hm)))
    (_resetCircuitBreaker host hm).

(** Two hosts seen at time 1000: the primary answers in 500 ms, the backup in
    10 ms, neither has failed. *)
Definition twoHosts : t :=
  {| hosts :=
       [("10.0.0.1", Host.mk 1000 500 0 Host.healthy None);
        ("10.0.0.2", Host.mk 1000 10 0 Host.healthy None)];
     circuitBreakers := ∅;
     primaryHost := Some "10.0.0.1";
     preferredHost := Some "10.0.0.1" |}.

(** Step 1 in words: the preferred host, if it is set, known, not open when
    read and seen within [recentHost]. *)
Definition preferredFirst (now : Z) (hm : t) : list string :=
  match preferredHost hm with
  | Some p =>
      match omap_get p (hosts hm) with
      | Some i =>
          if truthy p
             && negb (bool_decide (stateAt now hm p = Breaker.open))
             && bool_decide (now - Host.lastSeen i < recentHost)
          then [p] else []
      | None => []
      end
  | None => []
  end.

(** Step 2 in words: a host other than the preferred one, not open when read
    and seen within [maxHostAge]. *)
Definition otherb (now : Z) (hm : t) (e : string * Host.t) : bool :=
  negb (bool_decide (preferredHost hm = Some e.1)) && eligibleb now hm e.

Definition toCandidate (e : string * Host.t) : Candidate :=
  mkCandidate e.1 (- Host.responseTime e.2).

(** Ranking by ascending response time, stable. *)
Fixpoint insertByLatency (e : string * Host.t) (l : list (string * Host.t))
    : list (string * Host.t) :=
  match l with
  | [] => [e]
  | d :: l' =>
      if bool_decide (Host.responseTime e.2 ≤ Host.responseTime d.2)
      then e :: d :: l' else d :: insertByLatency e l'
  end.

Definition byLatency (l : list (string * Host.t)) : list (string * Host.t) :=
  foldr insertByLatency [] l.

Definition ascending (a b : string * Host.t) : Prop :=
  Host.responseTime a.2 ≤ Host.responseTime b.2.

(** A breaker record on which a query has nothing left to do. *)
Definition settled (now : Z) (hm : t) (h : string) : Prop :=
  ∀ b, circuitBreakers hm !! h = Some b → Breaker.state b = stateAt now hm h.

(** Primary 10.0.0.1 (healthy, 500 ms), backup 10.0.0.2 (healthy, 10 ms) and
    backup 10.0.0.3 whose breaker was opened by three failures, as left by the
    registry's own operations at time 1000. *)
Definition threeHosts : t :=
  run [Initialize 1000 "10.0.0.1" ["10.0.0.2"; "10.0.0.3"];
       UpdateHostStatus 1000 "10.0.0.3" false 0;
       UpdateHostStatus 1000 "10.0.0.3" false 0;
       UpdateHostStatus 1000 "10.0.0.3" false 0;
       UpdateHostStatus 1000 "10.0.0.1" true 500;
       UpdateHostStatus 1000 "10.0.0.2" true 10] new.

(** A single known host, the primary, whose breaker three failures opened. *)
Definition primaryDown : t :=
  run [Initialize 1000 "10.0.0.1" [];
       UpdateHostStatus 1000 "10.0.0.1" false 0;
       UpdateHostStatus 1000 "10.0.0.1" false 0;
       UpdateHostStatus 1000 "10.0.0.1" false 0] new.

(** The hosts of the list in the order the claim describes: the preferred
    host if it qualifies, then the other eligible hosts by ascending response
    time. *)
Definition ranked (now : Z) (hm : t) : list string :=
  preferredFirst now hm
  ++ (byLatency (List.filter (otherb now hm) (hosts hm))).*1.

(** The registry of [tests/test_libs.js] after its three stages: initialised,
    timed (backup 10 ms, primary 500 ms), and with the backup failed three
    times. *)
Definition testInitialized : t :=
  initialize 1000 "primary.local" ["backup.local"; "primary.local"] new.

Definition testTimed : t :=
  updateHostStatus 1000 "primary.local" true 500
    (updateHostStatus 1000 "backup.local" true 10 testInitialized).

Definition testTripped : t :=
  updateHostStatus 1000 "backup.local" false 0
    (updateHostStatus 1000 "backup.local" false 0
       (updateHostStatus 1000 "backup.local" false 0 testTimed)).

End RegistrySpec.

(** ** Of the device *)

Module DeviceSpec.
Import RegistrySpec HostManager ProxmoxClusterDevice.

(** A reply after which the loop goes on to the next host. *)
Definition retryable (w : ProxmoxClient.Wire) : bool :=
  match ProxmoxClient.request w with
  | Resolved _ => false
  | Rejected e => negb (isClientError e)
  end.

(** The registry after a failure was recorded for each host in turn. *)
Definition recordFailures (net : string → Exchange) (tried : list string)
    (hm : HostManager.t) : HostManager.t :=
  fold_left (fun s h => updateHostStatus (finishedAt (net h)) h false 0 s) tried hm.

(** [lastError] after the hosts of [tried] all failed. *)
Definition lastErrorAfter (net : string → Exchange) (tried : list string)
    (lastError : option Error) : option Error :=
  fold_left
    (fun le h =>
       match ProxmoxClient.request (wire (net h)) with
       | Rejected e => Some e
       | Resolved _ => le
       end) tried lastError.

(** The consecutive-failure count the registry holds for a host (zero for a
    host it has no record of). *)
Definition failureCountOf (hm : HostManager.t) (h : string) : Z :=
  Host.failureCount (default Host.fresh (omap_get h (hosts hm))).

(** Errors the executor builds itself, as opposed to those of the client. *)
Definition builtByExecutor (e : Error) : bool :=
  match e with
  | NoAvailableHosts | ConnectionFailed => true
  | ApiError _ _ | FetchError _ | RequestTimeout => false
  end.

Definition plainBridge : Bridge :=
  {| hasAlarmCapability := true; alarm_connection_fallback := false;
     hasHostCapability := true; status_connected_host := None;
     available := true; unavailableCause := None |}.

(** A device initialised at time 1000 with a primary and two backup hosts. *)
Definition cluster : ProxmoxClusterDevice.t :=
  init 1000 "10.0.0.1" ["10.0.0.2"; "10.0.0.3"] plainBridge.

(** [_executeApiCallWithFallback('/api2/json/cluster/resources')] *)
Definition resourcesCall : Request :=
  {| urlPath := "/api2/json/cluster/resources"; options := noOptions |}.

(** [_executeApiCallWithFallback('/api2/json/cluster/status', { refreshCache: true })] *)
Definition statusCall : Request :=
  {| urlPath := "/api2/json/cluster/status";
     options := {| method := None; body := None; skipCache := None;
                   refreshCache := Some true; timeout := None |} |}.

Definition emptyData : Json := JArr [].

(** The primary answers 503, the backups answer 200. *)
Definition primaryOverloaded (h : string) : Exchange :=
  if String.eqb h "10.0.0.1"
  then {| wire := ProxmoxClient.HttpResponse 503 "Service Unavailable" None;
          finishedAt := 2000 |}
  else {| wire := ProxmoxClient.HttpResponse 200 "[]" (Some emptyData);
          finishedAt := 2100 |}.

(** No host can be reached, each for a reason of its own. *)
Definition allUnreachable (h : string) : Exchange :=
  if String.eqb h "10.0.0.1"
  then {| wire := ProxmoxClient.FetchFailed "ECONNREFUSED"; finishedAt := 2000 |}
  else if String.eqb h "10.0.0.2"
  then {| wire := ProxmoxClient.TimeoutElapsed; finishedAt := 17000 |}
  else {| wire := ProxmoxClient.FetchFailed "EHOSTUNREACH"; finishedAt := 18000 |}.

(** The primary rejects the token with 401; the backups would answer 200. *)
Definition primaryRejects (h : string) : Exchange :=
  if String.eqb h "10.0.0.1"
  then {| wire := ProxmoxClient.HttpResponse 401 "authentication failure" None;
          finishedAt := 2000 |}
  else {| wire := ProxmoxClient.HttpResponse 200 "[]" (Some emptyData);
          finishedAt := 2100 |}.

(** Every response time of [new] is zero or was already there in [old]. *)
Definition noNewLatency (old new : HostManager.t) : Prop :=
  ∀ h info', omap_get h (hosts new) = Some info' →
    Host.responseTime info' = 0
    ∨ ∃ info, omap_get h (hosts old) = Some info
              ∧ Host.responseTime info = Host.responseTime info'.

Definition isPing (ev : Event) : bool :=
  match ev with
  | Ping _ _ _ _ => true
  | _ => false
  end.

(** The device of [cluster] holding a response stored at time 1000. *)
Definition cachedCluster : ProxmoxClusterDevice.t :=
  {| hostManager := hostManager cluster;
     requestCache :=
       {[ resourcesCall := {| data := JObj [("data", JArr [])]; ts := 1000 |} ]};
     pendingRequests := ∅; bridge := bridge cluster;
     tasks := ∅; nextPromise := 0%nat |}.

(** The in-flight map and the request promises agree on every key whose calls
    read that map, and promise identities are never reused. *)
Definition coalesced (dev : t) : Prop :=
  (∀ p task, tasks dev !! p = Some task →
     readsCache (options (request task)) = true →
     pendingRequests dev !! request task = Some p)
  ∧ (∀ r p, readsCache (options r) = true →
       pendingRequests dev !! r = Some p →
       ∃ task, tasks dev !! p = Some task ∧ request task = r)
  ∧ (∀ p, is_Some (tasks dev !! p) → (p < nextPromise dev)%nat).

(** The device of [cluster] after the poll timer issued its status
    call, and after the health check then issued the identical call. *)
Definition afterPollCall : ProxmoxClusterDevice.t :=
  snd (call 2000 statusCall cluster).

Definition afterHealthCall : ProxmoxClusterDevice.t :=
  snd (call 2001 statusCall afterPollCall).

(** The same device after a call that reads the cache was issued. *)
Definition afterResourcesCall : ProxmoxClusterDevice.t :=
  steps [Call 2000 resourcesCall] cluster.

(** The replies of the hosts a call contacted, delivered one after the other
    to its request promise. *)
Definition replies (net : string → Exchange) (p : nat) (tried : list string)
    (dev : t) : t :=
  fold_left (fun d h => reply (finishedAt (net h)) p (wire (net h)) d) tried dev.

End DeviceSpec.

(** ** Of the registry's life cycle *)

Module LifecycleSpec.
Import RegistrySpec HostManager.

(** The breaker [_resetCircuitBreaker] leaves in place of [b]. *)
Definition resetBreaker (b : Breaker.t) : Breaker.t :=
  {| Breaker.failures := 0; Breaker.lastFailure := Breaker.lastFailure b;
     Breaker.state := Breaker.closed |}.

(** The breaker a query leaves in place of an open breaker whose timeout has
    passed. *)
Definition halfOpened (b : Breaker.t) : Breaker.t :=
  {| Breaker.failures := Breaker.failures b;
     Breaker.lastFailure := Breaker.lastFailure b;
     Breaker.state := Breaker.half_open |}.

(** The host record a recorded success leaves, [old] being the record found. *)
Definition succeeded (now responseTime : Z) (old : option Host.t) : Host.t :=
  {| Host.lastSeen := now; Host.responseTime := responseTime;
     Host.failureCount := 0; Host.status := Host.healthy;
     Host.lastFailure := Host.lastFailure (default Host.fresh old) |}.

(** A breaker that is not closed has counted at least three failures. *)
Definition trippedUnlessClosed (b : Breaker.t) : Prop :=
  Breaker.state b ≠ Breaker.closed → 3 ≤ Breaker.failures b.

Definition everyBreaker (P : Breaker.t → Prop) (hm : t) : Prop :=
  ∀ h b, circuitBreakers hm !! h = Some b → P b.

(** No breaker without a host record. *)
Definition breakersBelongToHosts (hm : t) : Prop :=
  ∀ h, is_Some (circuitBreakers hm !! h) → h ∈ (hosts hm).*1.

(** The test of the loop of [cleanup]. *)
Definition stale (now : Z) (e : string * Host.t) : bool :=
  bool_decide (now - Host.lastSeen e.2 > maxHostAge).

(** The keys a run of [cleanup] over the entries [l] deletes. *)
Definition sweptKeys (now : Z) (l : list (string * Host.t)) : list string :=
  (List.filter (stale now) l).*1.

(** The candidates of the ordered list, before they are sorted. *)
Definition offered (now : Z) (hm : t) : list string :=
  preferredFirst now hm ++ (List.filter (otherb now hm) (hosts hm)).*1.

(** The hosts whose breaker a run of [getOrderedHostList] reads: the
    preferred host if it is set and not empty, and every other host that has
    a record. *)
Definition queried (hm : t) (h : string) : Prop :=
  (preferredHost hm = Some h ∧ truthy h = true)
  ∨ (h ∈ (hosts hm).*1 ∧ preferredHost hm ≠ Some h).

(** An operation that runs at a time from [since] to [till] and records no
    failure for [host]. *)
Definition sparesHost (host : string) (since till : Z) (op : Op) : Prop :=
  match op with
  | Initialize now _ _ | GetCircuitBreakerState now _ | GetOrderedHostList now
  | Cleanup now => since ≤ now ≤ till
  | UpdateHostStatus now h success _ =>
      since ≤ now ≤ till ∧ (success = false → h ≠ host)
  | SetPrimaryHost _ => True
  end.

(** The host has a record, was seen at [since] or later, and its breaker is
    closed if it has one (in a host map without duplicate keys). *)
Definition inGoodStanding (host : string) (since : Z) (hm : t) : Prop :=
  NoDup (hosts hm).*1
  ∧ (∃ i, omap_get host (hosts hm) = Some i ∧ since ≤ Host.lastSeen i)
  ∧ ∀ b, circuitBreakers hm !! host = Some b → Breaker.state b = Breaker.closed.

(** An operation that only reads the registry. *)
Definition isRead (op : Op) : Prop :=
  match op with
  | GetCircuitBreakerState _ _ | GetOrderedHostList _ => True
  | _ => False
  end.

(** The result of [getOrderedHostList] when there is no candidate. *)
Definition lastResort (hm : t) : list string :=
  match primaryHost hm with
  | Some p => if truthy p then [p] else []
  | None => []
  end.

(** The hosts [initialize] registers, in the order in which it does: the
    primary, then each backup host that is not empty, not the primary and not
    registered yet. *)
Definition registerBackup (primary : string) (known : list string) (h : string)
    : list string :=
  if truthy h && negb (String.eqb h primary) && negb (bool_decide (h ∈ known))
  then known ++ [h] else known.

Definition registered (primary : string) (initialHosts : list string) : list string :=
  fold_left (registerBackup primary) initialHosts [primary].

(** The record [initialize] gives every host it registers. *)
Definition justSeen (now : Z) : Host.t :=
  {| Host.lastSeen := now; Host.responseTime := 0; Host.failureCount := 0;
     Host.status := Host.healthy; Host.lastFailure := None |}.

(** The registry [initialize] builds from the constructor's state. *)
Definition coldStart (now : Z) (primary : string) (known : list string) : t :=
  {| hosts := (fun h => (h, justSeen now)) <$> known;
     circuitBreakers := ∅;
     primaryHost := Some primary; preferredHost := Some primary |}.

(** A primary whose breaker three failures opened at time 1000 and a query
    read as half-open at time 70000. *)
Definition probingOps : list Op :=
  [Initialize 1000 "10.0.0.1" [];
   UpdateHostStatus 1000 "10.0.0.1" false 0;
   UpdateHostStatus 1000 "10.0.0.1" false 0;
   UpdateHostStatus 1000 "10.0.0.1" false 0;
   GetCircuitBreakerState 70000 "10.0.0.1"].

(** Primary 10.0.0.1 seen again at time 200000, backup 10.0.0.2 last seen at
    time 1000 with one failure recorded since. *)
Definition agedBackup : t :=
  run [Initialize 1000 "10.0.0.1" ["10.0.0.2"];
       UpdateHostStatus 150000 "10.0.0.2" false 0;
       UpdateHostStatus 200000 "10.0.0.1" true 5] new.

(** What may happen to the other hosts between times 5000 and 6000: a
    backup fails, the list is read, the registry is swept, the primary
    answers. *)
Definition busyInterval : list Op :=
  [UpdateHostStatus 5100 "10.0.0.2" false 0;
   GetOrderedHostList 5200;
   Cleanup 5300;
   UpdateHostStatus 5400 "10.0.0.1" true 20].

(** The backup hosts as a settings page may hand them over: one name twice,
    an empty name, and the primary among them. *)
Definition untidyBackups : list string :=
  ["10.0.0.2"; EmptyString; "10.0.0.1"; "10.0.0.2"; "10.0.0.3"].

End LifecycleSpec.

(** ** Of the request path *)

Module RequestPathSpec.
Import RegistrySpec DeviceSpec HostManager ProxmoxClusterDevice.

Definition isResolved (o : Outcome) : bool :=
  match o with
  | Resolved _ => true
  | Rejected _ => false
  end.

(** What the loop over the hosts shows on the platform once [last] gave the
    reply that ended it: the capabilities after a success, nothing after a
    client error, and unavailability after the last host failed unless the
    fallback alarm is on. *)
Definition notified (last : string) (primary : option string) (o : Outcome)
    (b : Bridge) : Bridge :=
  match o with
  | Resolved _ => _updateConnectionCapabilities last primary b
  | Rejected e =>
      if isClientError e then b
      else if alarm_connection_fallback b then b
      else setUnavailable (Some e) b
  end.

(** The cache after a call that ended with [res]. *)
Definition cacheAfter (storedAt : Z) (r : Request) (res : Result)
    (cache : gmap Request CacheEntry) : gmap Request CacheEntry :=
  match res with
  | Finished (Resolved v) _ =>
      if storesResult (options r)
      then <[r := {| data := v; ts := storedAt |}]> cache else cache
  | _ => cache
  end.

(** Every entry of the in-flight map names a request promise that has not
    been consumed, made for that very key by a call that stores its result. *)
Definition inFlight (dev : ProxmoxClusterDevice.t) : Prop :=
  ∀ r p, pendingRequests dev !! r = Some p →
    storesResult (options r) = true
    ∧ ∃ task, tasks dev !! p = Some task ∧ request task = r.

(** The same, with the promise identities that are in use all handed out. *)
Definition tracked (dev : ProxmoxClusterDevice.t) : Prop :=
  inFlight dev ∧ ∀ p, is_Some (tasks dev !! p) → (p < nextPromise dev)%nat.

(** A call whose primary answers at once, from its start to the end of its
    continuation. *)
Definition answeredCall (r : Request) : list Event :=
  [Call 2000 r;
   Reply 2100 0 (ProxmoxClient.HttpResponse 200 "[]" (Some emptyData));
   Resume 2100 0].

(** [_executeApiCallWithFallback(endpoint, { method: 'POST', body })], the
    call of [executeVmAction]. *)
Definition stopCall : Request :=
  {| urlPath := "/api2/json/nodes/pve1/qemu/101/status/stop";
     options := {| method := Some "POST"; body := Some "overrule-shutdown=1";
                   skipCache := None; refreshCache := None; timeout := None |} |}.

(** Every host answers 200. *)
Definition allFine (h : string) : Exchange :=
  {| wire := ProxmoxClient.HttpResponse 200 "[]" (Some emptyData);
     finishedAt := 2100 |}.

(** A device whose hostname setting is empty: [_initializeHostManager] leaves
    the registry as the constructor built it. *)
Definition unconfigured : ProxmoxClusterDevice.t :=
  {| hostManager := HostManager.new; requestCache := ∅; pendingRequests := ∅;
     bridge := plainBridge; tasks := ∅; nextPromise := 0%nat |}.

End RequestPathSpec.

(** ** Of the health check and the settings *)

Module HealthSpec.
Import HealthCheck BackupHostsSetting.

(** A host name as the setting can hold and give back: not empty, without a
    comma, and without white space at either end. *)
Definition wellFormed {Char : Type} `{EqDecision Char} (comma : Char)
    (isWhiteSpace : Char → bool) (h : list Char) : Prop :=
  h ≠ [] ∧ (comma ∉ h)
  ∧ (∀ c, head h = Some c → isWhiteSpace c = false)
  ∧ (∀ c, last h = Some c → isWhiteSpace c = false).

(** Code units as numbers: 44 is the comma, 32 the space, 9 to 13 the
    control characters that count as white space. *)
Definition asciiWhiteSpace (c : N) : bool :=
  bool_decide (c = 32%N) || (bool_decide (9 ≤ c)%N && bool_decide (c ≤ 13)%N).

(** The code units of 10.0.0.1, 10.0.0.2 and 10.0.0.3. *)
Definition hostP : list N := [49; 48; 46; 48; 46; 48; 46; 49]%N.
Definition hostA : list N := [49; 48; 46; 48; 46; 48; 46; 50]%N.
Definition hostB : list N := [49; 48; 46; 48; 46; 48; 46; 51]%N.

(** A setting typed by hand: a space before and after the first host, an
    empty piece, then the second host. *)
Definition typedSetting : list N :=
  [32%N] ++ hostA ++ [32; 44; 32; 44]%N ++ hostB.

End HealthSpec.

(** * Properties *)

(** ** Insertion-ordered maps *)

Section OrderedMapFacts.
Context {V : Type}.
Implicit Types (m : list (string * V)) (k : string) (v : V).

Lemma omap_get_set_eq m k v : omap_get k (omap_set k v m) = Some v.
Proof.
  induction m as [|[k' v'] m IH]; simpl.
  - by rewrite decide_True.
  - destruct (decide (k' = k)) as [->|Hne]; simpl.
    + by rewrite decide_True.
    + by rewrite decide_False.
Qed.

Lemma omap_get_set_ne m k k' v : k ≠ k' → omap_get k' (omap_set k v m) = omap_get k' m.
Proof.
  intros Hne. induction m as [|[k0 v0] m IH]; simpl.
  - by rewrite decide_False.
  - destruct (decide (k0 = k)) as [->|Hk]; simpl.
    + by rewrite !decide_False.
    + destruct (decide (k0 = k')); [done | apply IH].
Qed.

Lemma omap_set_keys_present m k v :
  k ∈ m.*1 → (omap_set k v m).*1 = m.*1.
Proof.
  induction m as [|[k' v'] m IH]; simpl.
  - by intros ?%elem_of_nil.
  - intros Hin. destruct (decide (k' = k)) as [->|Hne]; simpl; [done|].
    f_equal. apply IH. apply elem_of_cons in Hin as [?|?]; [congruence|done].
Qed.

Lemma omap_set_keys_absent m k v :
  k ∉ m.*1 → (omap_set k v m).*1 = m.*1 ++ [k].
Proof.
  induction m as [|[k' v'] m IH]; simpl; [done|].
  intros Hnin. apply not_elem_of_cons in Hnin as [Hne Hnin].
  rewrite decide_False by done. simpl. f_equal. by apply IH.
Qed.

Lemma omap_set_NoDup m k v : NoDup m.*1 → NoDup (omap_set k v m).*1.
Proof.
  intros Hnd. destruct (decide (k ∈ m.*1)) as [Hin|Hnin].
  - by rewrite omap_set_keys_present.
  - rewrite omap_set_keys_absent by done.
    apply NoDup_app. split_and!; [done| |apply NoDup_singleton].
    intros x Hx ->%list_elem_of_singleton. done.
Qed.
End OrderedMapFacts.

Lemma fold_left_preserves {A B} (P : A → Prop) (f : A → B → A) (l : list B) (a : A) :
  P a → (∀ a b, P a → P (f a b)) → P (fold_left f l a).
Proof.
  intros Ha Hstep. revert a Ha. induction l as [|b l IH]; simpl; auto.
Qed.

(** ** The assertions of [tests/test_libs.js] hold of the embedding *)

Module TestLibs.
Import RegistrySpec HostManager.

Example initialize_sets_both_markers :
  primaryHost testInitialized = Some "primary.local"
  ∧ preferredHost testInitialized = Some "primary.local".
Proof. split; vm_compute; reflexivity. Qed.

Example faster_backup_is_preferred : preferredHost testTimed = Some "backup.local".
Proof. vm_compute. reflexivity. Qed.

Example three_failures_open_backup :
  fst (_getCircuitBreakerState 1000 "backup.local" testTripped) = Breaker.open.
Proof. vm_compute. reflexivity. Qed.

Example broken_backup_is_excluded :
  fst (getOrderedHostList 1000 testTripped) = ["primary.local"].
Proof. vm_compute. reflexivity. Qed.

End TestLibs.

(** ** The circuit breaker *)

Module BreakerFacts.
Import RegistrySpec DeviceSpec HostManager.

Lemma updateHostStatus_failure now host rt hm :
  updateHostStatus now host false rt hm =
  {| hosts := omap_set host (failedOnce now (default Host.fresh (omap_get host (hosts hm))))
                (hosts hm);
     circuitBreakers :=
       <[host := afterFailure now (default Breaker.fresh (circuitBreakers hm !! host))]>
         (circuitBreakers hm);
     primaryHost := primaryHost hm;
     preferredHost := preferredHost hm |}.
Proof. reflexivity. Qed.

Lemma breaker_after_failure now host rt hm :
  circuitBreakers (updateHostStatus now host false rt hm) !! host
  = Some (afterFailure now (default Breaker.fresh (circuitBreakers hm !! host))).
Proof. rewrite updateHostStatus_failure. simpl. apply lookup_insert_eq. Qed.

Lemma host_after_failure now host rt hm :
  omap_get host (hosts (updateHostStatus now host false rt hm))
  = Some (failedOnce now (default Host.fresh (omap_get host (hosts hm)))).
Proof. rewrite updateHostStatus_failure. simpl. apply omap_get_set_eq. Qed.

(** *** Preservation of the invariant, operation by operation *)

Lemma recordFailure_inv now host hm :
  openMeansTripped hm → openMeansTripped (_recordFailure now host hm).
Proof.
  intros Hinv h b. unfold _recordFailure. simpl.
  destruct (decide (host = h)) as [->|Hne].
  - rewrite lookup_insert_eq. intros [= <-]. simpl.
    destruct (circuitBreakers hm !! h) as [b0|] eqn:Hb0; simpl.
    + repeat case_bool_decide; simpl; intros Hst; try lia.
      * specialize (Hinv h b0 Hb0 Hst). lia.
      * specialize (Hinv h b0 Hb0 Hst). lia.
    + repeat case_bool_decide; simpl; intros Hst; try lia; discriminate.
  - rewrite lookup_insert_ne by done. apply Hinv.
Qed.

Lemma resetCircuitBreaker_inv host hm :
  openMeansTripped hm → openMeansTripped (_resetCircuitBreaker host hm).
Proof.
  intros Hinv h b. unfold _resetCircuitBreaker.
  destruct (circuitBreakers hm !! host) as [b0|] eqn:Hb0; [|apply Hinv]. simpl.
  destruct (decide (host = h)) as [->|Hne].
  - rewrite lookup_insert_eq. intros [= <-]. simpl. discriminate.
  - rewrite lookup_insert_ne by done. apply Hinv.
Qed.

Lemma getCircuitBreakerState_inv now host hm :
  openMeansTripped hm → openMeansTripped (snd (_getCircuitBreakerState now host hm)).
Proof.
  intros Hinv h b. unfold _getCircuitBreakerState.
  destruct (circuitBreakers hm !! host) as [b0|] eqn:Hb0; [|apply Hinv].
  destruct (bool_decide (Breaker.state b0 = Breaker.open)
            && bool_decide (now - Breaker.lastFailure b0 > breakerOpen)); [|apply Hinv].
  simpl. destruct (decide (host = h)) as [->|Hne].
  - rewrite lookup_insert_eq. intros [= <-]. simpl. discriminate.
  - rewrite lookup_insert_ne by done. apply Hinv.
Qed.

Lemma with_hosts_inv hs hm : openMeansTripped hm → openMeansTripped (with_hosts hs hm).
Proof. done. Qed.

Lemma with_preferred_inv p hm : openMeansTripped hm → openMeansTripped (with_preferred p hm).
Proof. done. Qed.

Lemma updatePreferredHost_inv now hm :
  openMeansTripped hm → openMeansTripped (_updatePreferredHost now hm).
Proof.
  intros Hinv. unfold _updatePreferredHost.
  assert (Hfold : openMeansTripped (snd (fold_left (scoreStep now) (hosts hm) (None, hm)))).
  { apply (fold_left_preserves (fun acc => openMeansTripped (snd acc))); [done|].
    intros [best s] [h info] Hs. simpl in Hs. unfold scoreStep.
    pose proof (getCircuitBreakerState_inv now h s Hs) as Hq.
    destruct (_getCircuitBreakerState now h s) as [st s1]. simpl in Hq.
    repeat case_bool_decide; try done. by destruct (beats _ _). }
  destruct (fold_left (scoreStep now) (hosts hm) (None, hm)) as [[[bh bs]|] hm1];
    simpl in Hfold; [|done].
  by destruct (truthy bh).
Qed.

Lemma updateHostStatus_inv now host success rt hm :
  openMeansTripped hm → openMeansTripped (updateHostStatus now host success rt hm).
Proof.
  intros Hinv. unfold updateHostStatus. destruct success.
  - apply updatePreferredHost_inv, with_hosts_inv, resetCircuitBreaker_inv, Hinv.
  - apply with_hosts_inv, recordFailure_inv, Hinv.
Qed.

Lemma initialize_inv now primary initialHosts hm :
  openMeansTripped hm → openMeansTripped (initialize now primary initialHosts hm).
Proof.
  intros Hinv. unfold initialize.
  apply (fold_left_preserves openMeansTripped).
  - by apply updateHostStatus_inv.
  - intros s h Hs. destruct (truthy h && negb (h =? primary)%string); [|done].
    by apply updateHostStatus_inv.
Qed.

Lemma setPrimaryHost_inv host hm :
  openMeansTripped hm → openMeansTripped (setPrimaryHost host hm).
Proof.
  intros Hinv. unfold setPrimaryHost.
  apply with_preferred_inv, resetCircuitBreaker_inv. done.
Qed.

Lemma candidates_inv now hm :
  openMeansTripped hm → openMeansTripped (snd (candidates now hm)).
Proof.
  intros Hinv. unfold candidates.
  apply (fold_left_preserves (fun acc => openMeansTripped (snd acc))).
  - unfold preferredCandidate. destruct (preferredHost hm) as [p|]; [|done].
    destruct (truthy p); [|done].
    pose proof (getCircuitBreakerState_inv now p hm Hinv) as Hq.
    destruct (_getCircuitBreakerState now p hm) as [st s1]. simpl in Hq.
    destruct (omap_get p (hosts hm)); [|done].
    by destruct (_ && _).
  - intros [cands s] [h info] Hs. simpl in Hs. unfold otherStep.
    case_bool_decide; [done|].
    pose proof (getCircuitBreakerState_inv now h s Hs) as Hq.
    destruct (_getCircuitBreakerState now h s) as [st s1]. simpl in Hq.
    repeat case_bool_decide; done.
Qed.

Lemma getOrderedHostList_inv now hm :
  openMeansTripped hm → openMeansTripped (snd (getOrderedHostList now hm)).
Proof.
  intros Hinv. unfold getOrderedHostList.
  pose proof (candidates_inv now hm Hinv) as Hc.
  destruct (candidates now hm) as [cands hm1]. simpl in Hc.
  destruct (sortCandidates cands); [|done].
  destruct (primaryHost hm1) as [p|]; [|done]. by destruct (truthy p).
Qed.

Lemma cleanup_inv now hm : openMeansTripped hm → openMeansTripped (cleanup now hm).
Proof.
  intros Hinv. unfold cleanup. apply (fold_left_preserves openMeansTripped); [done|].
  intros s [h info] Hs. unfold cleanupStep. case_bool_decide; [|done].
  intros h' b. simpl. intros Hlk. apply (Hs h' b).
  by apply lookup_delete_Some in Hlk as [_ ?].
Qed.

Lemma apply_inv hm op : openMeansTripped hm → openMeansTripped (apply hm op).
Proof.
  intros Hinv. destruct op; simpl.
  - by apply initialize_inv.
  - by apply setPrimaryHost_inv.
  - by apply updateHostStatus_inv.
  - by apply getCircuitBreakerState_inv.
  - by apply getOrderedHostList_inv.
  - by apply cleanup_inv.
Qed.

Lemma run_inv ops hm : openMeansTripped hm → openMeansTripped (run ops hm).
Proof. intros Hinv. apply (fold_left_preserves openMeansTripped); [done|]. apply apply_inv. Qed.

Lemma new_inv : openMeansTripped new.
Proof. intros h b. simpl. by rewrite lookup_empty. Qed.

End BreakerFacts.

Module CircuitBreaker.
Import RegistrySpec DeviceSpec HostManager BreakerFacts.

(** C4. Starting from a breaker that has not counted anything (absent, or
    closed with zero failures), the first two recorded failures leave the
    breaker closed, the third one opens it, and a fourth one leaves it open:
    the fourth failure changes nothing in the registry but the breaker's
    failure count and failure time and the host record's own failure count and
    failure time. *)
Theorem third_failure_opens_breaker (host : string) (hm : t) (t1 t2 t3 t4 : Z) :
  freshBreaker host hm →
  let hm1 := updateHostStatus t1 host false 0 hm in
  let hm2 := updateHostStatus t2 host false 0 hm1 in
  let hm3 := updateHostStatus t3 host false 0 hm2 in
  let hm4 := updateHostStatus t4 host false 0 hm3 in
  circuitBreakers hm1 !! host = Some (Breaker.mk 1 t1 Breaker.closed)
  ∧ circuitBreakers hm2 !! host = Some (Breaker.mk 2 t2 Breaker.closed)
  ∧ circuitBreakers hm3 !! host = Some (Breaker.mk 3 t3 Breaker.open)
  ∧ circuitBreakers hm4 !! host = Some (Breaker.mk 4 t4 Breaker.open)
  ∧ ∃ info3,
      omap_get host (hosts hm3) = Some info3
      ∧ hm4 = {| hosts :=
                   omap_set host
                     {| Host.lastSeen := Host.lastSeen info3;
                        Host.responseTime := Host.responseTime info3;
                        Host.failureCount := Host.failureCount info3 + 1;
                        Host.status := Host.status info3;
                        Host.lastFailure := Some t4 |} (hosts hm3);
                 circuitBreakers :=
                   <[host := Breaker.mk 4 t4 Breaker.open]> (circuitBreakers hm3);
                 primaryHost := primaryHost hm3;
                 preferredHost := preferredHost hm3 |}.
Proof.
  intros [Hzero Hclosed] hm1 hm2 hm3 hm4.
  assert (H1 : circuitBreakers hm1 !! host = Some (Breaker.mk 1 t1 Breaker.closed)).
  { subst hm1. rewrite breaker_after_failure. unfold afterFailure.
    rewrite Hzero, Hclosed. reflexivity. }
  assert (H2 : circuitBreakers hm2 !! host = Some (Breaker.mk 2 t2 Breaker.closed)).
  { subst hm2. rewrite breaker_after_failure, H1. reflexivity. }
  assert (H3 : circuitBreakers hm3 !! host = Some (Breaker.mk 3 t3 Breaker.open)).
  { subst hm3. rewrite breaker_after_failure, H2. reflexivity. }
  assert (H4 : circuitBreakers hm4 !! host = Some (Breaker.mk 4 t4 Breaker.open)).
  { subst hm4. rewrite breaker_after_failure, H3. reflexivity. }
  split_and!; try done.
  eexists. split.
  - subst hm3. apply host_after_failure.
  - subst hm4. rewrite updateHostStatus_failure. rewrite H3.
    subst hm3. rewrite host_after_failure. reflexivity.
Qed.

(** C5. In every registry reached from the constructor's state by any
    sequence of operations (initialize, setPrimaryHost, updateHostStatus with
    either outcome, state queries, getOrderedHostList, cleanup), a breaker
    whose stored state is open has counted at least three failures. *)
Theorem open_breaker_counted_three (ops : list Op) (h : string) (b : Breaker.t) :
  circuitBreakers (run ops new) !! h = Some b →
  Breaker.state b = Breaker.open →
  3 ≤ Breaker.failures b.
Proof. apply (run_inv ops new new_inv). Qed.

(** C6. For a host whose stored breaker state is open, a state query answers
    half-open exactly when more than 60000 ms have passed since the last
    failure, and it then stores half-open for that host; a query made no
    later than that answers open and changes nothing. *)
Theorem open_breaker_read (now : Z) (host : string) (hm : t) (b : Breaker.t) :
  circuitBreakers hm !! host = Some b →
  Breaker.state b = Breaker.open →
  (fst (_getCircuitBreakerState now host hm) = Breaker.half_open
     ↔ now - Breaker.lastFailure b > 60000)
  ∧ (now - Breaker.lastFailure b > 60000 →
       snd (_getCircuitBreakerState now host hm)
       = with_breakers
           (<[host := Breaker.mk (Breaker.failures b) (Breaker.lastFailure b)
                        Breaker.half_open]> (circuitBreakers hm)) hm)
  ∧ (now - Breaker.lastFailure b ≤ 60000 →
       _getCircuitBreakerState now host hm = (Breaker.open, hm)).
Proof.
  intros Hb Hopen. unfold _getCircuitBreakerState, breakerOpen. rewrite Hb.
  rewrite (bool_decide_eq_true_2 _ Hopen). simpl.
  case_bool_decide as Hlate; simpl.
  - split_and!; [done | done | lia].
  - rewrite Hopen. split_and!; [split; [done | lia] | lia | done].
Qed.

End CircuitBreaker.

(** ** Reading the registry: what the two ranking loops compute *)

Module RegistryFacts.
Import RegistrySpec DeviceSpec HostManager.

Lemma eligibleb_spec now hm e : eligibleb now hm e = true ↔ eligible now hm e.
Proof.
  unfold eligibleb, eligible. rewrite andb_true_iff, !negb_true_iff.
  rewrite !bool_decide_eq_false. split; intros [? ?]; split; (done || lia).
Qed.

Lemma sameView_refl now hm : sameView now hm hm.
Proof. done. Qed.

Lemma sameView_trans now a b c : sameView now a b → sameView now b c → sameView now a c.
Proof.
  intros (H1 & H2 & H3 & H4) (G1 & G2 & G3 & G4).
  split_and!; try congruence; intros h; by rewrite G4.
Qed.

Lemma stateAt_lookup now hm h : stateAt now hm h = readState now (circuitBreakers hm !! h).
Proof.
  unfold stateAt, _getCircuitBreakerState, readState.
  destruct (circuitBreakers hm !! h) as [b|]; [|done]. by destruct (_ && _).
Qed.

Lemma stateAt_query now h' hm h :
  stateAt now (snd (_getCircuitBreakerState now h' hm)) h = stateAt now hm h.
Proof.
  rewrite !stateAt_lookup. unfold _getCircuitBreakerState.
  destruct (circuitBreakers hm !! h') as [b'|] eqn:Hb'; [|done].
  destruct (bool_decide (Breaker.state b' = Breaker.open)
            && bool_decide (now - Breaker.lastFailure b' > breakerOpen)) eqn:Hc; [|done].
  simpl. destruct (decide (h' = h)) as [->|Hne].
  - rewrite lookup_insert_eq, Hb'. simpl. by rewrite Hc.
  - by rewrite lookup_insert_ne.
Qed.

Lemma query_sameView now h hm : sameView now hm (snd (_getCircuitBreakerState now h hm)).
Proof.
  split_and!; [| | |apply stateAt_query];
    unfold _getCircuitBreakerState;
    destruct (circuitBreakers hm !! h) as [b|]; try done;
    by destruct (_ && _).
Qed.

Lemma eligibleb_sameView now hm s e : sameView now hm s → eligibleb now s e = eligibleb now hm e.
Proof. intros (_ & _ & _ & Hst). unfold eligibleb. by rewrite Hst. Qed.

Lemma chooseStep_sameView now hm s best e :
  sameView now hm s → chooseStep now s best e = chooseStep now hm best e.
Proof.
  intros Hv. unfold chooseStep. rewrite (eligibleb_sameView now hm s e Hv).
  destruct Hv as (_ & -> & _). done.
Qed.

Lemma scoreStep_spec now best s e :
  scoreStep now (best, s) e
  = (chooseStep now s best e, snd (_getCircuitBreakerState now e.1 s)).
Proof.
  destruct e as [h info]. unfold scoreStep, chooseStep, eligibleb, stateAt. simpl.
  pose proof (query_sameView now h s) as (_ & Hp & _).
  destruct (_getCircuitBreakerState now h s) as [st s1]. simpl in *.
  rewrite Hp. repeat case_bool_decide; simpl; try done; try lia.
  by destruct (beats _ _).
Qed.

Lemma scoreFold_spec now hm l best s :
  sameView now hm s →
  ∃ s', fold_left (scoreStep now) l (best, s)
        = (fold_left (chooseStep now hm) l best, s')
        ∧ sameView now hm s'.
Proof.
  revert best s. induction l as [|e l IH]; intros best s Hv; cbn [fold_left].
  - by exists s.
  - rewrite scoreStep_spec, (chooseStep_sameView now hm s best e Hv).
    apply IH. eapply sameView_trans; [exact Hv | apply query_sameView].
Qed.

Lemma chooseFold_firstBest now hm l :
  firstBest now hm l (fold_left (chooseStep now hm) l None).
Proof.
  induction l as [|x l IH] using rev_ind; simpl.
  - intros e He. by apply elem_of_nil in He.
  - rewrite fold_left_app. simpl.
    destruct (fold_left (chooseStep now hm) l None) as [[h s]|] eqn:Hfold; simpl in IH.
    + destruct IH as (before & info & after & -> & Hel & -> & Hlt & Hle).
      unfold chooseStep. destruct (eligibleb now hm x) eqn:Hx; simpl.
      * apply eligibleb_spec in Hx. case_bool_decide as Hgt; simpl.
        -- exists (before ++ (h, info) :: after), x.2, [].
           destruct x as [hx ix]. simpl in *. split_and!; try done.
           ++ intros e He Hee. apply elem_of_app in He as [He|He].
              ** specialize (Hlt e He Hee). lia.
              ** apply elem_of_cons in He as [->|He]; [simpl; lia|].
                 specialize (Hle e He Hee). lia.
           ++ intros e He. by apply elem_of_nil in He.
        -- exists before, info, (after ++ [x]). split_and!; try done.
           ++ by rewrite <- app_assoc.
           ++ intros e He Hee. apply elem_of_app in He as [He|He]; [by apply Hle|].
              apply list_elem_of_singleton in He as ->. lia.
      * exists before, info, (after ++ [x]). split_and!; try done.
        -- by rewrite <- app_assoc.
        -- intros e He Hee. apply elem_of_app in He as [He|He]; [by apply Hle|].
           apply list_elem_of_singleton in He as ->.
           apply eligibleb_spec in Hee. congruence.
    + unfold chooseStep. destruct (eligibleb now hm x) eqn:Hx; simpl.
      * apply eligibleb_spec in Hx. exists l, x.2, [].
        destruct x as [hx ix]. simpl in *. split_and!; try done.
        -- intros e He Hee. by destruct (IH e He).
        -- intros e He. by apply elem_of_nil in He.
      * intros e He. apply elem_of_app in He as [He|He]; [by apply IH|].
        apply list_elem_of_singleton in He as ->.
        rewrite <- eligibleb_spec. congruence.
Qed.

Lemma updatePreferredHost_spec now hm :
  ∃ s', sameView now hm s'
    ∧ _updatePreferredHost now hm
      = match fold_left (chooseStep now hm) (hosts hm) None with
        | Some (bestHost, _) =>
            if truthy bestHost then with_preferred (Some bestHost) s' else s'
        | None => s'
        end.
Proof.
  unfold _updatePreferredHost.
  destruct (scoreFold_spec now hm (hosts hm) None hm (sameView_refl now hm))
    as (s' & -> & Hv).
  exists s'. split; [done|]. by destruct (fold_left _ _ _) as [[? ?]|].
Qed.

End RegistryFacts.

(** ** The ordered host list *)

Module OrderingFacts.
Import RegistrySpec DeviceSpec HostManager RegistryFacts.

(** *** Sorting *)

Lemma insertByLatency_perm e l : insertByLatency e l ≡ₚ e :: l.
Proof.
  induction l as [|d l IH]; simpl; [done|].
  case_bool_decide; [done|]. rewrite IH. apply Permutation_swap.
Qed.

Lemma byLatency_perm l : byLatency l ≡ₚ l.
Proof.
  induction l as [|e l IH]; simpl; [done|].
  rewrite insertByLatency_perm. by constructor.
Qed.

Lemma insertByLatency_sorted e l :
  StronglySorted ascending l → StronglySorted ascending (insertByLatency e l).
Proof.
  induction l as [|d l IH]; simpl; intros Hs.
  - repeat constructor.
  - apply StronglySorted_cons in Hs as [Hd Hs]. case_bool_decide as Hle.
    + constructor; [by constructor|]. constructor; [done|].
      eapply Forall_impl; [exact Hd|]. unfold ascending. intros x Hx. lia.
    + constructor; [by apply IH|].
      rewrite insertByLatency_perm. constructor; [|done]. unfold ascending. lia.
Qed.

Lemma byLatency_sorted l : StronglySorted ascending (byLatency l).
Proof.
  induction l as [|e l IH]; simpl; [constructor|]. by apply insertByLatency_sorted.
Qed.

Lemma insertCandidate_entries e l :
  insertCandidate (toCandidate e) (toCandidate <$> l)
  = toCandidate <$> insertByLatency e l.
Proof.
  induction l as [|d l IH]; csimpl; [done|].
  repeat case_bool_decide; try lia; csimpl; [done|]. by rewrite IH.
Qed.

Lemma sortCandidates_entries l :
  sortCandidates (toCandidate <$> l) = toCandidate <$> byLatency l.
Proof.
  induction l as [|e l IH]; csimpl; [done|].
  unfold sortCandidates in *. csimpl. by rewrite IH, insertCandidate_entries.
Qed.

Lemma insertCandidate_top c l :
  (∀ d, d ∈ l → cscore d ≤ cscore c) → insertCandidate c l = c :: l.
Proof.
  destruct l as [|d l]; simpl; [done|]. intros Hle.
  rewrite bool_decide_eq_true_2; [done|]. apply Hle, elem_of_cons. by left.
Qed.

Lemma host_toCandidate l : host <$> (toCandidate <$> l) = l.*1.
Proof. induction l as [|e l IH]; csimpl; [done|]. by rewrite IH. Qed.

(** *** The candidates collected by the two steps *)

Lemma query_settles now h hm : settled now (snd (_getCircuitBreakerState now h hm)) h.
Proof.
  intros b. rewrite stateAt_query, stateAt_lookup. unfold _getCircuitBreakerState.
  destruct (circuitBreakers hm !! h) as [b0|] eqn:Hb0; simpl.
  - destruct (bool_decide (Breaker.state b0 = Breaker.open)
              && bool_decide (now - Breaker.lastFailure b0 > breakerOpen)) eqn:Hc; simpl.
    + rewrite lookup_insert_eq. by intros [= <-].
    + rewrite Hb0. by intros [= <-].
  - by rewrite Hb0.
Qed.

Lemma query_keeps_settled now h' hm h :
  settled now hm h → settled now (snd (_getCircuitBreakerState now h' hm)) h.
Proof.
  intros Hs. destruct (decide (h' = h)) as [->|Hne]; [apply query_settles|].
  intros b. rewrite stateAt_query. unfold _getCircuitBreakerState.
  destruct (circuitBreakers hm !! h') as [b0|]; [|apply Hs].
  destruct (_ && _); [|apply Hs]. simpl. rewrite lookup_insert_ne by done. apply Hs.
Qed.

Lemma settled_not_open now hm h b :
  settled now hm h → stateAt now hm h ≠ Breaker.open →
  circuitBreakers hm !! h = Some b → Breaker.state b ≠ Breaker.open.
Proof. intros Hs Hst Hb. by rewrite (Hs b Hb). Qed.

Lemma preferredCandidate_spec now hm :
  fst (preferredCandidate now hm)
  = (fun p => mkCandidate p 999999) <$> preferredFirst now hm
  ∧ sameView now hm (snd (preferredCandidate now hm))
  ∧ ∀ h, h ∈ preferredFirst now hm → settled now (snd (preferredCandidate now hm)) h.
Proof.
  unfold preferredCandidate, preferredFirst.
  destruct (preferredHost hm) as [p|]; [|by split_and!; [| |intros h ?%elem_of_nil]].
  destruct (truthy p); simpl.
  - pose proof (query_sameView now p hm) as Hv.
    pose proof (query_settles now p hm) as Hs.
    unfold stateAt.
    destruct (_getCircuitBreakerState now p hm) as [st s1]. simpl in *.
    destruct (omap_get p (hosts hm)) as [i|]; simpl;
      [|by split_and!; [| |intros h ?%elem_of_nil]].
    repeat case_bool_decide; simpl; try done;
      (split_and!; [done|done|]);
      first [by intros h ->%list_elem_of_singleton | by intros h ?%elem_of_nil].
  - destruct (omap_get p (hosts hm)); by split_and!; [| |intros h ?%elem_of_nil].
Qed.

Lemma otherStep_spec now cands s e :
  otherStep now (cands, s) e
  = (cands ++ (if otherb now s e then [toCandidate e] else []),
     if bool_decide (preferredHost s = Some e.1) then s
     else snd (_getCircuitBreakerState now e.1 s)).
Proof.
  destruct e as [h info]. unfold otherStep, otherb, eligibleb, stateAt. simpl.
  case_bool_decide; simpl; [by rewrite app_nil_r|].
  destruct (_getCircuitBreakerState now h s) as [st s1]. simpl.
  repeat case_bool_decide; simpl; try done; try lia; by rewrite app_nil_r.
Qed.

Lemma otherb_sameView now hm s e : sameView now hm s → otherb now s e = otherb now hm e.
Proof.
  intros Hv. unfold otherb. rewrite (eligibleb_sameView now hm s e Hv).
  by destruct Hv as (_ & _ & -> & _).
Qed.

Lemma otherFold_spec now hm l cands s :
  sameView now hm s →
  (∀ c, c ∈ cands → settled now s (host c)) →
  ∃ s', fold_left (otherStep now) l (cands, s)
        = (cands ++ (toCandidate <$> List.filter (otherb now hm) l), s')
        ∧ sameView now hm s'
        ∧ ∀ c, c ∈ cands ++ (toCandidate <$> List.filter (otherb now hm) l) →
               settled now s' (host c).
Proof.
  revert cands s. induction l as [|e l IH]; intros cands s Hv Hs; cbn [fold_left List.filter].
  - exists s. rewrite app_nil_r. done.
  - rewrite otherStep_spec, (otherb_sameView now hm s e Hv).
    set (s1 := if bool_decide (preferredHost s = Some e.1) then s
               else snd (_getCircuitBreakerState now e.1 s)).
    assert (Hv1 : sameView now hm s1).
    { subst s1. case_bool_decide; [done|].
      eapply sameView_trans; [exact Hv|apply query_sameView]. }
    assert (Hkeep : ∀ h, settled now s h → settled now s1 h).
    { subst s1. intros h Hh. case_bool_decide; [done|]. by apply query_keeps_settled. }
    destruct (otherb now hm e) eqn:Hother.
    + destruct (IH (cands ++ [toCandidate e]) s1 Hv1) as (s' & Heq & Hv' & Hs').
      { intros c Hc. apply elem_of_app in Hc as [Hc|Hc]; [by apply Hkeep, Hs|].
        apply list_elem_of_singleton in Hc as ->. simpl. subst s1.
        unfold otherb in Hother. apply andb_true_iff in Hother as [Hp _].
        apply negb_true_iff, bool_decide_eq_false in Hp.
        destruct Hv as (_ & _ & Hpref & _). rewrite Hpref.
        rewrite bool_decide_eq_false_2 by done. apply query_settles. }
      exists s'. csimpl. rewrite <- app_assoc in Heq, Hs'. done.
    + rewrite app_nil_r.
      destruct (IH cands s1 Hv1) as (s' & Heq & Hv' & Hs'); [by intros c Hc; apply Hkeep, Hs|].
      by exists s'.
Qed.

Lemma candidates_spec now hm :
  ∃ s', candidates now hm
        = (((fun p => mkCandidate p 999999) <$> preferredFirst now hm)
             ++ (toCandidate <$> List.filter (otherb now hm) (hosts hm)), s')
        ∧ sameView now hm s'
        ∧ ∀ h, h ∈ preferredFirst now hm ++ (List.filter (otherb now hm) (hosts hm)).*1 →
               settled now s' h.
Proof.
  unfold candidates.
  destruct (preferredCandidate_spec now hm) as (Hp & Hv & Hs).
  destruct (preferredCandidate now hm) as [pc s0]. simpl in *. subst pc.
  destruct (otherFold_spec now hm (hosts hm)
              ((fun p => mkCandidate p 999999) <$> preferredFirst now hm) s0 Hv)
    as (s' & Heq & Hv' & Hs').
  { intros c (p & -> & Hp)%list_elem_of_fmap. simpl. by apply Hs. }
  exists s'. split_and!; [done|done|].
  intros h Hh. apply elem_of_app in Hh as [Hh|Hh].
  - apply (Hs' (mkCandidate h 999999)), elem_of_app. left.
    apply list_elem_of_fmap. by exists h.
  - apply list_elem_of_fmap in Hh as (e & -> & He).
    apply (Hs' (toCandidate e)), elem_of_app. right.
    apply list_elem_of_fmap. by exists e.
Qed.

End OrderingFacts.

(** ** The preferred host *)

Module Preference.
Import RegistrySpec DeviceSpec HostManager RegistryFacts OrderingFacts.

(** Eligibility read off the stored records: a breaker that is stored as open
    counts as not open only once its timeout has passed. *)
Lemma eligible_stored now hm e :
  eligible now hm e
  ↔ (∀ b, circuitBreakers hm !! e.1 = Some b → Breaker.state b = Breaker.open →
          now - Breaker.lastFailure b > 60000)
    ∧ now - Host.lastSeen e.2 ≤ 300000.
Proof.
  unfold eligible, maxHostAge. rewrite stateAt_lookup. unfold readState, breakerOpen.
  destruct (circuitBreakers hm !! e.1) as [b0|].
  - split.
    + intros [Hst Hage]. split; [|done]. intros b [= <-] Hopen.
      rewrite Hopen in Hst. rewrite bool_decide_eq_true_2 in Hst by done.
      case_bool_decide; [done|]. by destruct Hst.
    + intros [Hst Hage]. split; [|done].
      destruct (decide (Breaker.state b0 = Breaker.open)) as [Hopen|Hopen].
      * rewrite bool_decide_eq_true_2 by done.
        rewrite bool_decide_eq_true_2 by (by apply (Hst b0)). done.
      * by rewrite bool_decide_eq_false_2 by done.
  - split; intros [_ Hage]; split; done.
Qed.

(** The recomputation leaves the breaker of every host it looked at in the
    state it read. *)
Lemma scoreFold_settles now l :
  ∀ best s,
    (∀ h, settled now s h → settled now (snd (fold_left (scoreStep now) l (best, s))) h)
    ∧ (∀ e, e ∈ l → settled now (snd (fold_left (scoreStep now) l (best, s))) e.1).
Proof.
  induction l as [|e l IH]; intros best s; cbn [fold_left].
  - split; [done | by intros e ?%elem_of_nil].
  - rewrite scoreStep_spec.
    destruct (IH (chooseStep now s best e) (snd (_getCircuitBreakerState now e.1 s)))
      as [Hk Hn].
    split.
    + intros h Hh. by apply Hk, query_keeps_settled.
    + intros e' [->|He']%elem_of_cons; [apply Hk, query_settles | by apply Hn].
Qed.

Lemma updatePreferredHost_stored now hm e b :
  e ∈ hosts hm →
  circuitBreakers (_updatePreferredHost now hm) !! e.1 = Some b →
  Breaker.state b = stateAt now hm e.1.
Proof.
  intros He. unfold _updatePreferredHost.
  destruct (scoreFold_spec now hm (hosts hm) None hm (sameView_refl now hm))
    as (s' & Heq & Hv).
  destruct (scoreFold_settles now (hosts hm) None hm) as [_ Hs].
  specialize (Hs e He). rewrite Heq in Hs |- *. cbn [snd] in Hs.
  intros Hb.
  assert (Hb' : circuitBreakers s' !! e.1 = Some b).
  { destruct (fold_left (chooseStep now hm) (hosts hm) None) as [[bh ?]|]; [|done].
    by destruct (truthy bh). }
  rewrite (Hs b Hb'). by destruct Hv as (_ & _ & _ & ->).
Qed.

(** C3, as the code has it.  Every recorded success ends by recomputing the
    preferred host.  The recomputation scores each host whose breaker is not
    open when read (not stored as open, or stored as open with more than
    60000 ms gone since its last failure) and that was seen at most
    [maxHostAge] = 300000 ms ago, as 1000 - responseTime - failureCount * 100,
    plus 50 for the primary host.  If no host qualifies the preferred host
    stays as it was; otherwise the preferred host becomes the first host, in
    the iteration order of the map, that has the highest score, and the
    breaker stored for it afterwards is not open.  With a primary at 500 ms
    and a backup at 10 ms, both without failures, the scores are 550 and 990
    and the backup is preferred.  (Host addresses are non-empty strings.) *)
Theorem preferred_host_is_first_best (now : Z) (hm : t) :
  (∀ e, e ∈ hosts hm → truthy e.1 = true) →
  (∀ host rt reg, updateHostStatus now host true rt reg
                  = _updatePreferredHost now (refreshed now host rt reg))
  ∧ (∀ primary h info,
       score primary h info
       = 1000 - Host.responseTime info - Host.failureCount info * 100
         + (if bool_decide (primary = Some h) then 50 else 0))
  ∧ (∀ e, eligible now hm e
          ↔ (∀ b, circuitBreakers hm !! e.1 = Some b →
                  Breaker.state b = Breaker.open →
                  now - Breaker.lastFailure b > 60000)
            ∧ now - Host.lastSeen e.2 ≤ 300000)
  ∧ ((∀ e, e ∈ hosts hm → ¬ eligible now hm e) →
       preferredHost (_updatePreferredHost now hm) = preferredHost hm)
  ∧ ((∃ e, e ∈ hosts hm ∧ eligible now hm e) →
       ∃ before h info after,
         hosts hm = before ++ (h, info) :: after
         ∧ eligible now hm (h, info)
         ∧ preferredHost (_updatePreferredHost now hm) = Some h
         ∧ (∀ b, circuitBreakers (_updatePreferredHost now hm) !! h = Some b →
                 Breaker.state b ≠ Breaker.open)
         ∧ (∀ e, e ∈ before → eligible now hm e →
              score (primaryHost hm) e.1 e.2 < score (primaryHost hm) h info)
         ∧ (∀ e, e ∈ after → eligible now hm e →
              score (primaryHost hm) e.1 e.2 ≤ score (primaryHost hm) h info))
  ∧ (score (primaryHost twoHosts) "10.0.0.1" (Host.mk 1000 500 0 Host.healthy None) = 550
     ∧ score (primaryHost twoHosts) "10.0.0.2" (Host.mk 1000 10 0 Host.healthy None) = 990
     ∧ preferredHost (_updatePreferredHost 1000 twoHosts) = Some "10.0.0.2").
Proof.
  intros Hkeys. split_and!.
  - reflexivity.
  - reflexivity.
  - intros e. apply eligible_stored.
  - intros Hnone.
    destruct (updatePreferredHost_spec now hm) as (s' & Hv & ->).
    pose proof (chooseFold_firstBest now hm (hosts hm)) as Hbest.
    destruct (fold_left (chooseStep now hm) (hosts hm) None) as [[h s]|].
    + destruct Hbest as (before & info & after & Hdec & Hel & _).
      exfalso. apply (Hnone (h, info)); [|done].
      rewrite Hdec. apply elem_of_app. right. apply elem_of_cons. by left.
    + by destruct Hv as (_ & _ & -> & _).
  - intros (e & He & Hel).
    pose proof (updatePreferredHost_stored now hm) as Hstored.
    destruct (updatePreferredHost_spec now hm) as (s' & Hv & Heq).
    pose proof (chooseFold_firstBest now hm (hosts hm)) as Hbest.
    destruct (fold_left (chooseStep now hm) (hosts hm) None) as [[h s]|].
    + destruct Hbest as (before & info & after & Hdec & Hh & -> & Hlt & Hle).
      exists before, h, info, after.
      assert (Hin : (h, info) ∈ hosts hm).
      { rewrite Hdec. apply elem_of_app. right. apply elem_of_cons. by left. }
      split_and!; try done.
      * rewrite Heq. pose proof (Hkeys (h, info) Hin) as Ht. cbn in Ht. by rewrite Ht.
      * intros b Hb. rewrite (Hstored (h, info) b Hin Hb). apply Hh.
    + by destruct (Hbest e He).
  - reflexivity.
  - reflexivity.
  - vm_compute. reflexivity.
Qed.

(** C3 as stated fails.  The claim scores the hosts that were seen recently,
    which the specification fixes as the recent-host window of 120000 ms; the
    recomputation only leaves out hosts seen more than 300000 ms ago.  When a
    success is recorded for the primary (500 ms) at time 201000, the backup
    (10 ms) was last seen at time 1000, 200000 ms before and so outside the
    recent-host window, and it is scored all the same and becomes the
    preferred host in place of the primary. *)
Lemma host_not_seen_recently_is_preferred :
  preferredHost twoHosts = Some "10.0.0.1"
  ∧ Host.lastSeen
      <$> omap_get "10.0.0.2"
            (hosts (updateHostStatus 201000 "10.0.0.1" true 500 twoHosts))
    = Some 1000
  ∧ bool_decide (201000 - 1000 < recentHost) = false
  ∧ bool_decide (201000 - 1000 > maxHostAge) = false
  ∧ preferredHost (updateHostStatus 201000 "10.0.0.1" true 500 twoHosts)
    = Some "10.0.0.2".
Proof. split_and!; vm_compute; reflexivity. Qed.

End Preference.

Module Ordering.
Import RegistrySpec DeviceSpec HostManager RegistryFacts OrderingFacts.

Lemma ranked_result now hm :
  (∀ e, e ∈ hosts hm → 0 ≤ Host.responseTime e.2) →
  ∃ s', sameView now hm s'
    ∧ (∀ h, h ∈ ranked now hm → settled now s' h)
    ∧ getOrderedHostList now hm
      = (match ranked now hm with
         | [] => match primaryHost hm with
                 | Some p => if truthy p then [p] else []
                 | None => []
                 end
         | _ => ranked now hm
         end, s').
Proof.
  intros Hrt. unfold getOrderedHostList, ranked.
  destruct (candidates_spec now hm) as (s' & -> & Hv & Hs).
  set (F := List.filter (otherb now hm) (hosts hm)) in *.
  exists s'. split; [done|]. split.
  { intros h Hh. apply Hs. apply elem_of_app in Hh as [Hh|Hh]; apply elem_of_app;
      [by left|right].
    apply list_elem_of_fmap in Hh as (e & -> & He).
    apply list_elem_of_fmap. exists e. split; [done|].
    by rewrite <- (byLatency_perm F). }
  assert (Hsort : sortCandidates
            (((fun p => mkCandidate p 999999) <$> preferredFirst now hm)
               ++ (toCandidate <$> F))
          = ((fun p => mkCandidate p 999999) <$> preferredFirst now hm)
              ++ (toCandidate <$> byLatency F)).
  { assert (Hpf : preferredFirst now hm = [] ∨ ∃ p, preferredFirst now hm = [p]).
    { unfold preferredFirst. destruct (preferredHost hm) as [p|]; [|by left].
      destruct (omap_get p (hosts hm)); [|by left].
      destruct (_ && _); [right; by exists p | by left]. }
    destruct Hpf as [->|[p ->]]; csimpl.
    - apply sortCandidates_entries.
    - unfold sortCandidates. csimpl.
      fold (sortCandidates (toCandidate <$> F)). rewrite sortCandidates_entries.
      apply insertCandidate_top.
      intros d (e & -> & He)%list_elem_of_fmap. simpl.
      rewrite byLatency_perm in He.
      assert (e ∈ hosts hm) as Hin.
      { apply list_elem_of_In. apply list_elem_of_In, filter_In in He. tauto. }
      specialize (Hrt e Hin). lia. }
  rewrite Hsort. destruct Hv as (_ & Hprim & _). rewrite Hprim.
  destruct (preferredFirst now hm) as [|p pf]; csimpl.
  - destruct (byLatency F) as [|e es]; csimpl.
    + destruct (primaryHost hm) as [p|]; [|done]. by destruct (truthy p).
    + by rewrite host_toCandidate.
  - rewrite fmap_app, host_toCandidate. f_equal. f_equal. f_equal.
    clear. induction pf as [|q pf IH]; csimpl; [done|]. by rewrite IH.
Qed.

Lemma preferredFirst_shape now hm :
  preferredFirst now hm = [] ∨ ∃ p, preferredFirst now hm = [p].
Proof.
  unfold preferredFirst. destruct (preferredHost hm) as [p|]; [|by left].
  destruct (omap_get p (hosts hm)); [|by left].
  destruct (_ && _); [right; by exists p | by left].
Qed.

Lemma preferredFirst_spec now hm p :
  preferredFirst now hm = [p]
  ↔ preferredHost hm = Some p ∧ truthy p = true
    ∧ ∃ i, omap_get p (hosts hm) = Some i
           ∧ stateAt now hm p ≠ Breaker.open
           ∧ now - Host.lastSeen i < 120000.
Proof.
  unfold preferredFirst, recentHost. split.
  - destruct (preferredHost hm) as [q|]; [|done].
    destruct (omap_get q (hosts hm)) as [i|] eqn:Hi; [|done].
    destruct (truthy q) eqn:Hq; [|done]. simpl.
    repeat case_bool_decide; simpl; try done.
    intros [= ->]. split_and!; try done. by exists i.
  - intros (-> & Hq & i & -> & Hst & Hseen). rewrite Hq. simpl.
    rewrite bool_decide_eq_false_2 by done.
    by rewrite bool_decide_eq_true_2 by done.
Qed.

Lemma others_spec now hm e :
  e ∈ byLatency (List.filter (otherb now hm) (hosts hm))
  ↔ e ∈ hosts hm ∧ preferredHost hm ≠ Some e.1
    ∧ stateAt now hm e.1 ≠ Breaker.open
    ∧ now - Host.lastSeen e.2 ≤ 300000.
Proof.
  rewrite byLatency_perm, list_elem_of_In, filter_In, <- list_elem_of_In.
  unfold otherb. rewrite andb_true_iff, negb_true_iff, bool_decide_eq_false.
  rewrite eligibleb_spec. unfold eligible, maxHostAge. tauto.
Qed.

(** C2, as the code has it.  For a registry whose response times are not
    negative, the list is made of the preferred host, placed first exactly
    when it is set, non-empty, known, not open when its breaker is read and
    seen less than 120000 ms ago, followed by every other host that is not
    open when read and was seen at most 300000 ms ago, in ascending order of
    response time.  No host of that list has an open breaker, neither as the
    query reads it nor as stored afterwards.  When that list is empty the
    result is the primary host alone if one is set, and the empty list if
    none is set.  For primary 10.0.0.1 (500 ms), preferred backup 10.0.0.2
    (10 ms) and 10.0.0.3 with an open breaker the result is 10.0.0.2, then
    10.0.0.1. *)
Theorem ordered_host_list (now : Z) (hm : t) :
  (∀ e, e ∈ hosts hm → 0 ≤ Host.responseTime e.2) →
  fst (getOrderedHostList now hm)
  = match ranked now hm with
    | [] => match primaryHost hm with
            | Some p => if truthy p then [p] else []
            | None => []
            end
    | _ => ranked now hm
    end
  ∧ ranked now hm
    = preferredFirst now hm
      ++ (byLatency (List.filter (otherb now hm) (hosts hm))).*1
  ∧ (∀ h, h ∈ ranked now hm →
       stateAt now hm h ≠ Breaker.open
       ∧ ∀ b, circuitBreakers (snd (getOrderedHostList now hm)) !! h = Some b →
              Breaker.state b ≠ Breaker.open)
  ∧ (preferredFirst now hm = [] ∨ ∃ p, preferredFirst now hm = [p])
  ∧ (∀ p, preferredFirst now hm = [p]
          ↔ preferredHost hm = Some p ∧ truthy p = true
            ∧ ∃ i, omap_get p (hosts hm) = Some i
                   ∧ stateAt now hm p ≠ Breaker.open
                   ∧ now - Host.lastSeen i < 120000)
  ∧ (∀ e, e ∈ byLatency (List.filter (otherb now hm) (hosts hm))
          ↔ e ∈ hosts hm ∧ preferredHost hm ≠ Some e.1
            ∧ stateAt now hm e.1 ≠ Breaker.open
            ∧ now - Host.lastSeen e.2 ≤ 300000)
  ∧ byLatency (List.filter (otherb now hm) (hosts hm))
    ≡ₚ List.filter (otherb now hm) (hosts hm)
  ∧ StronglySorted ascending (byLatency (List.filter (otherb now hm) (hosts hm)))
  ∧ (primaryHost threeHosts = Some "10.0.0.1"
     ∧ preferredHost threeHosts = Some "10.0.0.2"
     ∧ stateAt 1000 threeHosts "10.0.0.3" = Breaker.open
     ∧ fst (getOrderedHostList 1000 threeHosts) = ["10.0.0.2"; "10.0.0.1"]).
Proof.
  intros Hrt.
  destruct (ranked_result now hm Hrt) as (s' & Hv & Hs & Heq).
  split_and!.
  - by rewrite Heq.
  - reflexivity.
  - intros h Hh.
    assert (Hst : stateAt now hm h ≠ Breaker.open).
    { unfold ranked in Hh. apply elem_of_app in Hh as [Hh|Hh].
      - destruct (preferredFirst_shape now hm) as [Hnil|[p Hp]].
        + rewrite Hnil in Hh. by apply elem_of_nil in Hh.
        + rewrite Hp in Hh. apply list_elem_of_singleton in Hh as ->.
          apply preferredFirst_spec in Hp as (_ & _ & i & _ & Hst & _). done.
      - apply list_elem_of_fmap in Hh as (e & -> & He).
        apply others_spec in He. tauto. }
    split; [done|]. rewrite Heq. simpl. intros b Hb.
    apply (settled_not_open now s' h b); [by apply Hs| |done].
    destruct Hv as (_ & _ & _ & Hsame). by rewrite Hsame.
  - apply preferredFirst_shape.
  - apply preferredFirst_spec.
  - apply others_spec.
  - apply byLatency_perm.
  - apply byLatency_sorted.
  - vm_compute. reflexivity.
  - vm_compute. reflexivity.
  - vm_compute. reflexivity.
  - vm_compute. reflexivity.
Qed.

(** C2 as stated fails.  A registry without a primary host has nothing to
    fall back on and answers the empty list, not a singleton; and the
    last-resort singleton is returned whatever the primary's breaker says, so
    the list can hold a host whose breaker is open. *)
Lemma last_resort_is_conditional :
  fst (getOrderedHostList 1000 new) = []
  ∧ (fst (getOrderedHostList 1000 primaryDown) = ["10.0.0.1"]
     ∧ stateAt 1000 primaryDown "10.0.0.1" = Breaker.open
     ∧ circuitBreakers (snd (getOrderedHostList 1000 primaryDown)) !! "10.0.0.1"
       = Some (Breaker.mk 3 1000 Breaker.open)).
Proof. split_and!; vm_compute; reflexivity. Qed.

End Ordering.

Module Witnesses.
Import RegistrySpec DeviceSpec HostManager BreakerFacts RegistryFacts OrderingFacts.

Lemma third_failure_opens_breaker_witness :
  freshBreaker "10.0.0.2" new
  ∧ circuitBreakers
      (updateHostStatus 3 "10.0.0.2" false 0
         (updateHostStatus 2 "10.0.0.2" false 0
            (updateHostStatus 1 "10.0.0.2" false 0 new))) !! "10.0.0.2"
    = Some (Breaker.mk 3 3 Breaker.open)
  ∧ circuitBreakers
      (updateHostStatus 4 "10.0.0.2" false 0
         (updateHostStatus 3 "10.0.0.2" false 0
            (updateHostStatus 2 "10.0.0.2" false 0
               (updateHostStatus 1 "10.0.0.2" false 0 new)))) !! "10.0.0.2"
    = Some (Breaker.mk 4 4 Breaker.open).
Proof.
  assert (Hfresh : freshBreaker "10.0.0.2" new) by (split; reflexivity).
  split; [exact Hfresh|].
  pose proof (CircuitBreaker.third_failure_opens_breaker "10.0.0.2" new 1 2 3 4 Hfresh) as H.
  cbv zeta in H. destruct H as (_ & _ & H3 & H4 & _). split; assumption.
Defined.

Lemma open_breaker_counted_three_witness :
  circuitBreakers RegistrySpec.primaryDown !! "10.0.0.1" = Some (Breaker.mk 3 1000 Breaker.open)
  ∧ 3 ≤ Breaker.failures (Breaker.mk 3 1000 Breaker.open).
Proof.
  assert (Hb : circuitBreakers RegistrySpec.primaryDown !! "10.0.0.1"
               = Some (Breaker.mk 3 1000 Breaker.open)) by (vm_compute; reflexivity).
  split; [exact Hb|].
  exact (CircuitBreaker.open_breaker_counted_three _ "10.0.0.1" _ Hb eq_refl).
Defined.

Lemma open_breaker_read_witness :
  circuitBreakers RegistrySpec.primaryDown !! "10.0.0.1" = Some (Breaker.mk 3 1000 Breaker.open)
  ∧ _getCircuitBreakerState 61000 "10.0.0.1" RegistrySpec.primaryDown
    = (Breaker.open, RegistrySpec.primaryDown)
  ∧ (fst (_getCircuitBreakerState 61001 "10.0.0.1" RegistrySpec.primaryDown) = Breaker.half_open
     ↔ 61001 - 1000 > 60000).
Proof.
  assert (Hb : circuitBreakers RegistrySpec.primaryDown !! "10.0.0.1"
               = Some (Breaker.mk 3 1000 Breaker.open)) by (vm_compute; reflexivity).
  split; [exact Hb|].
  split.
  - apply (CircuitBreaker.open_breaker_read 61000 "10.0.0.1" _ _ Hb eq_refl). simpl. lia.
  - apply (CircuitBreaker.open_breaker_read 61001 "10.0.0.1" _ _ Hb eq_refl).
Defined.

Lemma preferred_host_is_first_best_witness :
  Forall (fun e => truthy e.1 = true) (hosts RegistrySpec.twoHosts)
  ∧ ∃ before h info after,
      hosts RegistrySpec.twoHosts = before ++ (h, info) :: after
      ∧ eligible 1000 RegistrySpec.twoHosts (h, info)
      ∧ preferredHost (_updatePreferredHost 1000 RegistrySpec.twoHosts) = Some h
      ∧ (∀ b, circuitBreakers (_updatePreferredHost 1000 RegistrySpec.twoHosts) !! h
              = Some b → Breaker.state b ≠ Breaker.open)
      ∧ (∀ e, e ∈ before → eligible 1000 RegistrySpec.twoHosts e →
           score (primaryHost RegistrySpec.twoHosts) e.1 e.2
           < score (primaryHost RegistrySpec.twoHosts) h info)
      ∧ (∀ e, e ∈ after → eligible 1000 RegistrySpec.twoHosts e →
           score (primaryHost RegistrySpec.twoHosts) e.1 e.2
           ≤ score (primaryHost RegistrySpec.twoHosts) h info).
Proof.
  assert (Hkeys : Forall (fun e => truthy e.1 = true) (hosts RegistrySpec.twoHosts)).
  { repeat constructor. }
  split; [exact Hkeys|].
  apply (Preference.preferred_host_is_first_best 1000 RegistrySpec.twoHosts).
  - intros e He. by apply (proj1 (Forall_forall _ _) Hkeys).
  - exists ("10.0.0.1", Host.mk 1000 500 0 Host.healthy None). split.
    + apply elem_of_cons. by left.
    + split; [vm_compute; discriminate | simpl; unfold maxHostAge; lia].
Defined.

Lemma ordered_host_list_witness :
  Forall (fun e => 0 ≤ Host.responseTime e.2) (hosts RegistrySpec.threeHosts)
  ∧ fst (getOrderedHostList 1000 RegistrySpec.threeHosts)
    = match RegistrySpec.ranked 1000 RegistrySpec.threeHosts with
      | [] => match primaryHost RegistrySpec.threeHosts with
              | Some p => if truthy p then [p] else []
              | None => []
              end
      | _ => RegistrySpec.ranked 1000 RegistrySpec.threeHosts
      end.
Proof.
  assert (Hrt : Forall (fun e => 0 ≤ Host.responseTime e.2) (hosts RegistrySpec.threeHosts)).
  { apply (bool_decide_unpack _). vm_compute. exact I. }
  split; [exact Hrt|].
  apply (Ordering.ordered_host_list 1000 RegistrySpec.threeHosts).
  intros e He. by apply (proj1 (Forall_forall _ _) Hrt).
Defined.

End Witnesses.

(** ** The fallback executor *)

Module ExecutorFacts.
Import RegistrySpec DeviceSpec HostManager RegistryFacts OrderingFacts ProxmoxClusterDevice.

(** *** The registry operations keep the host records they do not name *)

Lemma updatePreferredHost_hosts now hm :
  hosts (_updatePreferredHost now hm) = hosts hm
  ∧ primaryHost (_updatePreferredHost now hm) = primaryHost hm.
Proof.
  destruct (updatePreferredHost_spec now hm) as (s' & (Hh & Hp & _) & ->).
  destruct (fold_left _ _ _) as [[bh ?]|]; [|done]. by destruct (truthy bh).
Qed.

Lemma updateHostStatus_success_hosts now host rt hm :
  hosts (updateHostStatus now host true rt hm)
  = omap_set host
      {| Host.lastSeen := now; Host.responseTime := rt; Host.failureCount := 0;
         Host.status := Host.healthy;
         Host.lastFailure :=
           Host.lastFailure (default Host.fresh (omap_get host (hosts hm))) |}
      (hosts hm)
  ∧ primaryHost (updateHostStatus now host true rt hm) = primaryHost hm.
Proof.
  unfold updateHostStatus.
  destruct (updatePreferredHost_hosts now
    (with_hosts
       (omap_set host
          {| Host.lastSeen := now; Host.responseTime := rt; Host.failureCount := 0;
             Host.status := Host.healthy;
             Host.lastFailure :=
               Host.lastFailure (default Host.fresh (omap_get host (hosts hm))) |}
          (hosts (_resetCircuitBreaker host hm)))
       (_resetCircuitBreaker host hm))) as [-> ->].
  unfold _resetCircuitBreaker. by destruct (circuitBreakers hm !! host).
Qed.

Lemma getOrderedHostList_sameView now hm :
  sameView now hm (snd (getOrderedHostList now hm)).
Proof.
  unfold getOrderedHostList.
  destruct (candidates_spec now hm) as (s' & -> & Hv & _).
  destruct (sortCandidates _); [|done].
  destruct (primaryHost s') as [p|]; [|done]. by destruct (truthy p).
Qed.

Lemma failureCountOf_failure now h rt hm h' :
  failureCountOf (updateHostStatus now h false rt hm) h'
  = if decide (h = h') then failureCountOf hm h' + 1 else failureCountOf hm h'.
Proof.
  rewrite BreakerFacts.updateHostStatus_failure. unfold failureCountOf. simpl.
  destruct (decide (h = h')) as [->|Hne].
  - by rewrite omap_get_set_eq.
  - by rewrite omap_get_set_ne.
Qed.

Lemma failureCountOf_recordFailures net tried hm h :
  NoDup tried →
  failureCountOf (recordFailures net tried hm) h
  = if decide (h ∈ tried) then failureCountOf hm h + 1 else failureCountOf hm h.
Proof.
  unfold recordFailures. revert hm.
  induction tried as [|x tried IH]; intros hm Hnd; cbn [fold_left].
  - rewrite decide_False; [done | apply not_elem_of_nil].
  - apply NoDup_cons in Hnd as [Hx Hnd]. rewrite IH by done.
    rewrite failureCountOf_failure.
    destruct (decide (x = h)) as [->|Hne].
    + rewrite decide_False by done. rewrite decide_True; [done|]. apply elem_of_cons. by left.
    + destruct (decide (h ∈ tried)) as [Hin|Hnin].
      * rewrite decide_True; [done|]. apply elem_of_cons. by right.
      * rewrite decide_False; [done|]. intros [?|?]%elem_of_cons; [congruence|done].
Qed.

(** *** One iteration of the loop *)

Lemma attempt_success now host w hm b v :
  ProxmoxClient.request w = Resolved v →
  attempt now host w hm b
  = (Done (Resolved v), updateHostStatus now host true 0 hm,
     _updateConnectionCapabilities host
       (primaryHost (updateHostStatus now host true 0 hm)) b).
Proof. intros Hw. unfold attempt. by rewrite Hw. Qed.

Lemma attempt_client_error now host w hm b e :
  ProxmoxClient.request w = Rejected e → isClientError e = true →
  attempt now host w hm b
  = (Done (Rejected e), updateHostStatus now host false 0 hm, b).
Proof. intros Hw He. unfold attempt. by rewrite Hw, He. Qed.

Lemma attempt_retryable now host w hm b :
  retryable w = true →
  ∃ e, ProxmoxClient.request w = Rejected e
       ∧ attempt now host w hm b = (Next e, updateHostStatus now host false 0 hm, b).
Proof.
  unfold retryable, attempt. destruct (ProxmoxClient.request w) as [v|e]; [done|].
  intros He%negb_true_iff. exists e. by rewrite He.
Qed.

(** *** Which replies are retryable *)

Lemma retryable_response status text parsed :
  retryable (ProxmoxClient.HttpResponse status text parsed) = true
  ↔ ¬ (200 ≤ status ≤ 299) ∧ ¬ (400 ≤ status < 500).
Proof.
  unfold retryable, ProxmoxClient.request, ProxmoxClient.ok, isClientError.
  repeat case_bool_decide; simpl; repeat case_bool_decide; simpl;
    split; try done; try lia; intros [? ?]; lia.
Qed.

Lemma retryable_network :
  (∀ code, retryable (ProxmoxClient.FetchFailed code) = true)
  ∧ retryable ProxmoxClient.TimeoutElapsed = true.
Proof. done. Qed.

(** *** The loop over a run of hosts that all fail retryably *)

Lemma tryHosts_retry_prefix net before l lastError hm b :
  (∀ h, h ∈ before → retryable (wire (net h)) = true) →
  tryHosts net (before ++ l) lastError hm b
  = let '(o, hm', b', tried) :=
      tryHosts net l (lastErrorAfter net before lastError)
        (recordFailures net before hm) b in
    (o, hm', b', before ++ tried).
Proof.
  revert lastError hm. induction before as [|x before IH]; intros le hm Hall.
  - simpl. by destruct (tryHosts net l le hm b) as [[[o hm'] b'] tried].
  - cbn [app tryHosts].
    destruct (attempt_retryable (finishedAt (net x)) x (wire (net x)) hm b)
      as (e & Hreq & ->).
    { apply Hall, elem_of_cons. by left. }
    rewrite IH by (intros h Hh; apply Hall, elem_of_cons; by right).
    unfold lastErrorAfter, recordFailures. cbn [fold_left]. rewrite Hreq.
    by destruct (tryHosts net l _ _ b) as [[[o hm'] b'] tried].
Qed.

Lemma lastErrorAfter_last net firsts lastHost lastError :
  retryable (wire (net lastHost)) = true →
  ∃ e, ProxmoxClient.request (wire (net lastHost)) = Rejected e
       ∧ lastErrorAfter net (firsts ++ [lastHost]) lastError = Some e.
Proof.
  intros Hr. unfold lastErrorAfter. rewrite fold_left_app. simpl.
  unfold retryable in Hr. destruct (ProxmoxClient.request _) as [v|e]; [done|].
  by exists e.
Qed.

End ExecutorFacts.

Module Failover.
Import RegistrySpec DeviceSpec HostManager RegistryFacts OrderingFacts ProxmoxClusterDevice ExecutorFacts.

Lemma finish_hostManager now r o dev : hostManager (finish now r o dev) = hostManager dev.
Proof. unfold finish. by destruct (storesResult _). Qed.

Lemma filter_keys_NoDup {V} (f : string * V → bool) (l : list (string * V)) :
  NoDup l.*1 → NoDup (List.filter f l).*1.
Proof.
  induction l as [|e l IH]; csimpl; [done|].
  intros [Hnin Hnd]%NoDup_cons. destruct (f e); csimpl; [|by apply IH].
  apply NoDup_cons. split; [|by apply IH].
  intros (e' & Heq & He')%list_elem_of_fmap. apply Hnin.
  apply list_elem_of_fmap. exists e'. split; [done|].
  apply list_elem_of_In. apply list_elem_of_In, filter_In in He'. tauto.
Qed.

Lemma insertCandidate_perm c l : insertCandidate c l ≡ₚ c :: l.
Proof.
  induction l as [|d l IH]; simpl; [done|].
  case_bool_decide; [done|]. rewrite IH. apply Permutation_swap.
Qed.

Lemma sortCandidates_perm l : sortCandidates l ≡ₚ l.
Proof.
  induction l as [|c l IH]; simpl; [done|].
  unfold sortCandidates in *. simpl. rewrite insertCandidate_perm. by constructor.
Qed.

(** The ordered list never names a host twice. *)
Lemma getOrderedHostList_NoDup now hm :
  NoDup (hosts hm).*1 → NoDup (fst (getOrderedHostList now hm)).
Proof.
  intros Hnd. unfold getOrderedHostList.
  destruct (candidates_spec now hm) as (s' & -> & Hv & _).
  set (cands := _ ++ _).
  assert (Hc : NoDup (host <$> sortCandidates cands)).
  { rewrite sortCandidates_perm. subst cands.
    rewrite fmap_app, host_toCandidate, <- list_fmap_compose.
    replace (host ∘ (fun p => mkCandidate p 999999)) with (@id string) by done.
    rewrite list_fmap_id. apply NoDup_app. split_and!.
    - destruct (Ordering.preferredFirst_shape now hm) as [->|[p ->]];
        [apply NoDup_nil_2 | apply NoDup_singleton].
    - intros p Hp (e & -> & He)%list_elem_of_fmap.
      destruct (Ordering.preferredFirst_shape now hm) as [Hnil|[q Hq]].
      + rewrite Hnil in Hp. by apply elem_of_nil in Hp.
      + rewrite Hq in Hp. apply list_elem_of_singleton in Hp.
        apply Ordering.preferredFirst_spec in Hq as (Hpref & _).
        apply list_elem_of_In, filter_In in He as [_ He].
        unfold otherb in He. apply andb_true_iff in He as [He _].
        apply negb_true_iff, bool_decide_eq_false in He. congruence.
    - by apply filter_keys_NoDup. }
  destruct (sortCandidates cands) as [|c cs]; [|done].
  destruct (primaryHost s') as [p|]; [|apply NoDup_nil_2].
  destruct (truthy p); [apply NoDup_singleton | apply NoDup_nil_2].
Qed.

(** What the call does once it is past the cache and the in-flight map. *)
Lemma execute_past_shortcut net now storedAt r dev h hosts' :
  shortcut now r dev = None →
  fst (getOrderedHostList now (hostManager dev)) = h :: hosts' →
  ∃ o hm2 b2 tried,
    tryHosts net (h :: hosts') None
      (snd (getOrderedHostList now (hostManager dev))) (bridge dev)
    = (o, hm2, b2, tried)
    ∧ _executeApiCallWithFallback net now storedAt r dev
      = (Finished o tried,
         finish storedAt r o
           {| hostManager := hm2; requestCache := requestCache dev;
              pendingRequests := pendingRequests dev; bridge := b2;
              tasks := tasks dev; nextPromise := S (nextPromise dev) |}).
Proof.
  intros Hs Hl. unfold _executeApiCallWithFallback. rewrite Hs.
  destruct (getOrderedHostList now (hostManager dev)) as [hosts hm1].
  simpl in Hl. subst hosts. cbn [snd].
  destruct (tryHosts net (h :: hosts') None hm1 (bridge dev)) as [[[o hm2] b2] tried] eqn:Ht.
  exists o, hm2, b2, tried. split; [done|]. reflexivity.
Qed.

(** C1, as the code has it.  When the call is past the cache and the in-flight
    map, the hosts before [host] in the ordered list all fail retryably and
    [host] answers with an HTTP status from 400 to 499, the executor records
    the failure for [host], contacts no later host of the list, and fails with
    exactly the client's error for that response.  Retryable are the network
    failures, the timeout, and the responses whose status is neither 2xx nor
    4xx. *)
Theorem client_error_ends_failover (net : string → Exchange) (now storedAt : Z)
    (r : Request) (dev : ProxmoxClusterDevice.t)
    (before : list string) (host : string) (rest : list string)
    (status : Z) (text : string) (parsed : option Json) :
  shortcut now r dev = None →
  fst (getOrderedHostList now (hostManager dev)) = before ++ host :: rest →
  (∀ h, h ∈ before → retryable (wire (net h)) = true) →
  wire (net host) = ProxmoxClient.HttpResponse status text parsed →
  400 ≤ status < 500 →
  fst (_executeApiCallWithFallback net now storedAt r dev)
  = Finished (Rejected (ApiError status text)) (before ++ [host])
  ∧ hostManager (snd (_executeApiCallWithFallback net now storedAt r dev))
    = updateHostStatus (finishedAt (net host)) host false 0
        (recordFailures net before (snd (getOrderedHostList now (hostManager dev))))
  ∧ (∀ s t p, retryable (ProxmoxClient.HttpResponse s t p) = true
              ↔ ¬ (200 ≤ s ≤ 299) ∧ ¬ (400 ≤ s < 500))
  ∧ (∀ code, retryable (ProxmoxClient.FetchFailed code) = true)
  ∧ retryable ProxmoxClient.TimeoutElapsed = true.
Proof.
  intros Hs Hl Hretry Hw Hstatus.
  assert (Hreq : ProxmoxClient.request (wire (net host)) = Rejected (ApiError status text)).
  { rewrite Hw. unfold ProxmoxClient.request, ProxmoxClient.ok.
    rewrite (bool_decide_eq_false_2 (status ≤ 299)) by lia.
    by rewrite andb_false_r. }
  assert (Hce : isClientError (ApiError status text) = true).
  { unfold isClientError. simpl. rewrite !bool_decide_eq_true_2 by lia. done. }
  assert (Hcons : ∃ h hosts', before ++ host :: rest = h :: hosts').
  { destruct before; simpl; eauto. }
  destruct Hcons as (h0 & hosts' & Hcons). rewrite Hcons in Hl.
  destruct (execute_past_shortcut net now storedAt r dev h0 hosts' Hs Hl)
    as (o & hm2 & b2 & tried & Ht & ->).
  rewrite <- Hcons in Ht. rewrite tryHosts_retry_prefix in Ht by done.
  cbn [tryHosts] in Ht.
  rewrite (attempt_client_error _ _ _ _ _ _ Hreq Hce) in Ht.
  injection Ht as <- <- <- <-. cbn [fst snd]. rewrite finish_hostManager.
  split_and!; [done | done | apply retryable_response
              | apply (proj1 retryable_network) | apply (proj2 retryable_network)].
Qed.

(** C1 as stated fails for a status outside 400..499: the primary answers
    503, which the client turns into an error carrying that status, and the
    executor goes on to the next host and returns its answer. *)
Lemma server_error_fails_over :
  ProxmoxClient.request (wire (primaryOverloaded "10.0.0.1"))
  = Rejected (ApiError 503 "Service Unavailable")
  ∧ fst (getOrderedHostList 1500 (hostManager cluster))
    = ["10.0.0.1"; "10.0.0.2"; "10.0.0.3"]
  ∧ fst (_executeApiCallWithFallback primaryOverloaded 1500 2200 resourcesCall cluster)
    = Finished (Resolved emptyData) ["10.0.0.1"; "10.0.0.2"].
Proof. split_and!; vm_compute; reflexivity. Qed.

(** C9, as the code has it.  When the call is past the cache and the
    in-flight map and every host of the ordered list fails retryably (a
    network failure, a timeout, or a response whose status is neither 2xx nor
    4xx), the call fails with exactly the error the client raised for the last
    host, which is not an error built by the executor; every host of the list
    was contacted, and each one's consecutive-failure count is one higher than
    before the call. *)
Theorem exhaustion_rethrows_last_error (net : string → Exchange) (now storedAt : Z)
    (r : Request) (dev : ProxmoxClusterDevice.t)
    (firsts : list string) (lastHost : string) :
  NoDup (hosts (hostManager dev)).*1 →
  shortcut now r dev = None →
  fst (getOrderedHostList now (hostManager dev)) = firsts ++ [lastHost] →
  (∀ h, h ∈ firsts ++ [lastHost] → retryable (wire (net h)) = true) →
  ∃ e, ProxmoxClient.request (wire (net lastHost)) = Rejected e
       ∧ builtByExecutor e = false
       ∧ fst (_executeApiCallWithFallback net now storedAt r dev)
         = Finished (Rejected e) (firsts ++ [lastHost])
       ∧ (∀ h, h ∈ firsts ++ [lastHost] →
              failureCountOf
                (hostManager (snd (_executeApiCallWithFallback net now storedAt r dev))) h
              = failureCountOf (hostManager dev) h + 1)
       ∧ (∀ s t p, retryable (ProxmoxClient.HttpResponse s t p) = true
                   ↔ ¬ (200 ≤ s ≤ 299) ∧ ¬ (400 ≤ s < 500))
       ∧ (∀ code, retryable (ProxmoxClient.FetchFailed code) = true)
       ∧ retryable ProxmoxClient.TimeoutElapsed = true.
Proof.
  intros Hnd Hs Hl Hretry.
  pose proof (getOrderedHostList_NoDup now (hostManager dev) Hnd) as Hnd'.
  rewrite Hl in Hnd'.
  destruct (lastErrorAfter_last net firsts lastHost None) as (e & Hreq & Hlast).
  { apply Hretry, elem_of_app. right. by apply list_elem_of_singleton. }
  exists e. split; [done|]. split.
  { unfold ProxmoxClient.request in Hreq.
    destruct (wire (net lastHost)) as [st tx pa| |]; [|by injection Hreq as <-..].
    destruct (ProxmoxClient.ok st); [done|]. by injection Hreq as <-. }
  assert (Hcons : ∃ h hosts', firsts ++ [lastHost] = h :: hosts').
  { destruct firsts; simpl; eauto. }
  destruct Hcons as (h0 & hosts' & Hcons). rewrite Hcons in Hl.
  destruct (execute_past_shortcut net now storedAt r dev h0 hosts' Hs Hl)
    as (o & hm2 & b2 & tried & Ht & ->).
  rewrite <- Hcons in Ht.
  rewrite <- (app_nil_r (firsts ++ [lastHost])) in Ht.
  rewrite tryHosts_retry_prefix in Ht by done.
  cbn [tryHosts] in Ht. rewrite Hlast in Ht. unfold exhausted in Ht. cbn in Ht.
  injection Ht as <- <- <- <-. cbn [fst snd]. rewrite app_nil_r. split; [done|].
  split; [|split_and!; [apply retryable_response | apply (proj1 retryable_network)
                       | apply (proj2 retryable_network)]].
  intros h Hh. rewrite finish_hostManager. cbn [hostManager].
  rewrite failureCountOf_recordFailures by done. rewrite decide_True by done.
  unfold failureCountOf.
  by destruct (getOrderedHostList_sameView now (hostManager dev)) as (-> & _).
Qed.

(** C9 as stated fails: with three unreachable hosts the call fails with the
    very error the client raised for 10.0.0.3, the last host tried; no error
    of the executor's own wraps it. *)
Lemma exhaustion_error_is_not_wrapped :
  ProxmoxClient.request (wire (allUnreachable "10.0.0.3"))
  = Rejected (FetchError "EHOSTUNREACH")
  ∧ fst (_executeApiCallWithFallback allUnreachable 1500 19000 resourcesCall cluster)
    = Finished (Rejected (FetchError "EHOSTUNREACH"))
        ["10.0.0.1"; "10.0.0.2"; "10.0.0.3"]
  ∧ builtByExecutor (FetchError "EHOSTUNREACH") = false.
Proof. split_and!; vm_compute; reflexivity. Qed.

End Failover.

(** ** Latencies in the registry *)

Module LatencyFacts.
Import RegistrySpec DeviceSpec HostManager RegistryFacts OrderingFacts ProxmoxClusterDevice ExecutorFacts.

Lemma noNewLatency_same old new : hosts new = hosts old → noNewLatency old new.
Proof. intros Heq h info' Hi. right. exists info'. by rewrite <- Heq. Qed.

Lemma omap_get_delete {V} (m : list (string * V)) k h :
  omap_get h (omap_delete k m) = if decide (k = h) then None else omap_get h m.
Proof.
  induction m as [|[k' v'] m IH]; simpl; [by destruct (decide _)|].
  destruct (decide (k' = k)) as [->|Hne]; simpl; rewrite IH;
    repeat (case_decide; simplify_eq; try done).
Qed.

Lemma updateHostStatus_zero_noNewLatency now host success hm :
  noNewLatency hm (updateHostStatus now host success 0 hm).
Proof.
  intros h info'. destruct success.
  - destruct (updateHostStatus_success_hosts now host 0 hm) as [-> _].
    destruct (decide (host = h)) as [->|Hne].
    + rewrite omap_get_set_eq. intros [= <-]. by left.
    + rewrite omap_get_set_ne by done. intros Hi. right. by exists info'.
  - rewrite BreakerFacts.updateHostStatus_failure. simpl.
    destruct (decide (host = h)) as [->|Hne].
    + rewrite omap_get_set_eq. intros [= <-]. simpl.
      destruct (omap_get h (hosts hm)) as [info|]; simpl; [|by left].
      right. by exists info.
    + rewrite omap_get_set_ne by done. intros Hi. right. by exists info'.
Qed.

Lemma cleanup_noNewLatency now hm : noNewLatency hm (cleanup now hm).
Proof.
  unfold cleanup.
  apply (fold_left_preserves (fun s => noNewLatency hm s)).
  - by apply noNewLatency_same.
  - intros s [k info] Hs. unfold cleanupStep. case_bool_decide; [|done].
    intros h info'. simpl. rewrite omap_get_delete.
    destruct (decide (k = h)); [done|]. apply Hs.
Qed.

Lemma attempt_noNewLatency now host w hm b :
  noNewLatency hm (attempt now host w hm b).1.2.
Proof.
  unfold attempt. destruct (ProxmoxClient.request w) as [v|e].
  - exact (updateHostStatus_zero_noNewLatency now host true hm).
  - destruct (isClientError e);
      exact (updateHostStatus_zero_noNewLatency now host false hm).
Qed.

Lemma step_noNewLatency dev ev :
  isPing ev = false → noNewLatency (hostManager dev) (hostManager (step dev ev)).
Proof.
  intros Hev. destruct ev as [now r|now p w|now p|start now host w|now|host];
    try discriminate; simpl.
  - unfold call. destruct (shortcut now r dev); simpl; [by apply noNewLatency_same|].
    pose proof (getOrderedHostList_sameView now (hostManager dev)) as (Hh & _).
    destruct (getOrderedHostList now (hostManager dev)) as [hs hm1]. simpl in *.
    by apply noNewLatency_same.
  - unfold reply. destruct (tasks dev !! p) as [[rq [h rest le|o]]|];
      [|by apply noNewLatency_same..].
    pose proof (attempt_noNewLatency now h w (hostManager dev) (bridge dev)) as Ha.
    destruct (attempt now h w (hostManager dev) (bridge dev)) as [[v hm'] b'].
    simpl in Ha. destruct v as [o|e]; [done|]. destruct rest; [|done].
    by destruct (exhausted (Some e) b').
  - unfold resume. destruct (tasks dev !! p) as [[rq [h rest le|o]]|];
      [by apply noNewLatency_same| |by apply noNewLatency_same].
    rewrite Failover.finish_hostManager. by apply noNewLatency_same.
  - apply cleanup_noNewLatency.
  - apply noNewLatency_same. simpl. unfold setPrimaryHost, _resetCircuitBreaker. simpl.
    by destruct (circuitBreakers (hostManager dev) !! host).
Qed.

(** A call that ends with a result was served by the last host it tried, and
    the registry it leaves is the one in which that success was recorded. *)
Lemma tryHosts_resolved net hosts lastError hm b v hm' b' tried :
  tryHosts net hosts lastError hm b = (Resolved v, hm', b', tried) →
  ∃ before host hm0,
    tried = before ++ [host]
    ∧ ProxmoxClient.request (wire (net host)) = Resolved v
    ∧ hm' = updateHostStatus (finishedAt (net host)) host true 0 hm0.
Proof.
  revert lastError hm tried. induction hosts as [|x hosts IH]; intros le hm tried; cbn [tryHosts].
  - unfold exhausted. done.
  - unfold attempt at 1.
    destruct (ProxmoxClient.request (wire (net x))) as [res|e] eqn:Hreq.
    + intros [= -> <- <- <-]. by exists [], x, hm.
    + destruct (isClientError e); [done|].
      destruct (tryHosts net hosts (Some e) _ b) as [[[o hm2] b2] tr] eqn:Ht.
      intros [= -> <- <- <-].
      destruct (IH _ _ _ Ht) as (before & host & hm0 & -> & Hr & ->).
      by exists (x :: before), host, hm0.
Qed.

End LatencyFacts.

Module Latency.
Import RegistrySpec DeviceSpec HostManager RegistryFacts OrderingFacts ProxmoxClusterDevice ExecutorFacts LatencyFacts.

(** C10. A call of the executor that ends with a result was served by the
    last host it contacted, and it leaves that host recorded with response
    time 0 and no failures, seen at the time the reply arrived, whatever the
    time the request took: the host's preference score is then 1000, plus 50
    for the primary.  No event of the device other than a health-check ping
    brings a response time into the registry that is neither 0 nor already
    there, while a successful ping records the time it measured. *)
Theorem executor_success_records_zero (net : string → Exchange) (now storedAt : Z)
    (r : Request) (dev : ProxmoxClusterDevice.t) (v : Json) (tried : list string) :
  fst (_executeApiCallWithFallback net now storedAt r dev) = Finished (Resolved v) tried →
  (∃ before host info,
     tried = before ++ [host]
     ∧ ProxmoxClient.request (wire (net host)) = Resolved v
     ∧ omap_get host
         (hosts (hostManager (snd (_executeApiCallWithFallback net now storedAt r dev))))
       = Some info
     ∧ Host.lastSeen info = finishedAt (net host)
     ∧ Host.responseTime info = 0
     ∧ Host.failureCount info = 0
     ∧ score
         (primaryHost (hostManager (snd (_executeApiCallWithFallback net now storedAt r dev))))
         host info
       = 1000 + (if bool_decide
                      (primaryHost
                         (hostManager (snd (_executeApiCallWithFallback net now storedAt r dev)))
                       = Some host)
                 then 50 else 0))
  ∧ (∀ d ev, isPing ev = false →
       ∀ h info', omap_get h (hosts (hostManager (step d ev))) = Some info' →
         Host.responseTime info' = 0
         ∨ ∃ info, omap_get h (hosts (hostManager d)) = Some info
                   ∧ Host.responseTime info = Host.responseTime info')
  ∧ (∀ d start fin host w res,
       ProxmoxClient.request w = Resolved res →
       ∃ info, omap_get host (hosts (hostManager (step d (Ping start fin host w)))) = Some info
               ∧ Host.responseTime info = fin - start).
Proof.
  intros Hres. split_and!.
  - unfold _executeApiCallWithFallback in *.
    destruct (shortcut now r dev) as [[j|p]|]; [done|done|].
    destruct (getOrderedHostList now (hostManager dev)) as [hs hm1].
    destruct hs as [|h0 hs]; [done|].
    destruct (tryHosts net (h0 :: hs) None hm1 (bridge dev)) as [[[o hm2] b2] tr] eqn:Ht.
    cbn [fst snd] in *. injection Hres as -> ->.
    destruct (tryHosts_resolved _ _ _ _ _ _ _ _ _ Ht) as (before & host & hm0 & -> & Hreq & ->).
    rewrite Failover.finish_hostManager. cbn [hostManager].
    destruct (updateHostStatus_success_hosts (finishedAt (net host)) host 0 hm0) as [-> ->].
    eexists before, host, _. split_and!; try done.
    + apply omap_get_set_eq.
    + done.
    + done.
    + done.
    + unfold score. simpl. lia.
  - intros d ev Hev. apply step_noNewLatency, Hev.
  - intros d start fin host w res Hw. cbn [step]. unfold ping. rewrite Hw.
    cbn [hostManager].
    destruct (updateHostStatus_success_hosts fin host (fin - start) (hostManager d)) as [-> _].
    eexists. split; [apply omap_get_set_eq|done].
Qed.

End Latency.

(** ** The request cache *)

Module Cache.
Import RegistrySpec DeviceSpec HostManager RegistryFacts OrderingFacts ProxmoxClusterDevice ExecutorFacts.

Lemma tryHosts_first net h hosts' lastError hm b :
  ∃ tried', (tryHosts net (h :: hosts') lastError hm b).2 = h :: tried'.
Proof.
  cbn [tryHosts].
  destruct (attempt _ h _ hm b) as [[[o|e] hm'] b']; [by exists []|].
  destruct (tryHosts net hosts' (Some e) hm' b') as [[[o hm2] b2] tr].
  by exists tr.
Qed.

(** C7, as the code has it.  Reading the cache answers the stored payload
    when the key has an entry younger than 300000 ms and null otherwise; the
    read changes nothing.  A call that reads the cache and finds such an entry
    with a truthy payload returns it and leaves the device as it was.  When
    the entry has expired (and no request for the key is in flight) the call
    contacts the first host of the ordered list; a result is stored under the
    key with the time of storing, replacing the expired entry, while a
    failure leaves the cache, expired entry included, as it was. *)
Theorem cache_read_and_refresh (now : Z) (key : Request) (dev : ProxmoxClusterDevice.t)
    (entry : CacheEntry) :
  requestCache dev !! key = Some entry →
  (now - ts entry < 300000 → _getCachedResponse now key dev = data entry)
  ∧ (300000 ≤ now - ts entry → _getCachedResponse now key dev = JNull)
  ∧ (∀ d, requestCache d !! key = None → _getCachedResponse now key d = JNull)
  ∧ (∀ net storedAt,
       readsCache (options key) = true →
       now - ts entry < 300000 →
       json_truthy (data entry) = true →
       _executeApiCallWithFallback net now storedAt key dev = (Served (data entry), dev))
  ∧ (∀ net storedAt h hosts',
       readsCache (options key) = true →
       300000 ≤ now - ts entry →
       pendingRequests dev !! key = None →
       fst (getOrderedHostList now (hostManager dev)) = h :: hosts' →
       ∃ o tried',
         fst (_executeApiCallWithFallback net now storedAt key dev)
         = Finished o (h :: tried')
         ∧ match o with
           | Resolved res =>
               requestCache (snd (_executeApiCallWithFallback net now storedAt key dev))
               = <[key := {| data := res; ts := storedAt |}]> (requestCache dev)
           | Rejected _ =>
               requestCache (snd (_executeApiCallWithFallback net now storedAt key dev))
               = requestCache dev
           end).
Proof.
  intros Hentry. unfold _getCachedResponse, cacheTimeout. split_and!.
  - intros Hfresh. rewrite Hentry. by rewrite bool_decide_eq_true_2 by lia.
  - intros Hold. rewrite Hentry. by rewrite bool_decide_eq_false_2 by lia.
  - intros d ->. done.
  - intros net storedAt Hreads Hfresh Htruthy.
    unfold _executeApiCallWithFallback, shortcut, _getCachedResponse, cacheTimeout.
    rewrite Hreads, Hentry. rewrite bool_decide_eq_true_2 by lia. by rewrite Htruthy.
  - intros net storedAt h hosts' Hreads Hold Hpending Hl.
    assert (Hs : shortcut now key dev = None).
    { unfold shortcut, _getCachedResponse, cacheTimeout.
      rewrite Hreads, Hentry. rewrite bool_decide_eq_false_2 by lia. simpl.
      by rewrite Hpending. }
    destruct (Failover.execute_past_shortcut net now storedAt key dev h hosts' Hs Hl)
      as (o & hm2 & b2 & tried & Ht & ->).
    destruct (tryHosts_first net h hosts' None
                (snd (getOrderedHostList now (hostManager dev))) (bridge dev))
      as (tried' & Htried).
    rewrite Ht in Htried. simpl in Htried. subst tried.
    exists o, tried'. split; [done|]. cbn [snd]. unfold finish.
    assert (Hstore : storesResult (options key) = true).
    { unfold readsCache in Hreads. unfold storesResult.
      by apply andb_true_iff in Hreads as [-> _]. }
    rewrite Hstore. by destruct o.
Qed.

(** C7 as stated fails: a read of an expired entry evicts nothing.  At time
    400000 the entry stored at 1000 has expired and the read answers null; the
    call then fails on every host, and the expired entry is still the cache's
    entry for the key afterwards. *)
Lemma expired_entry_is_not_evicted :
  _getCachedResponse 400000 DeviceSpec.resourcesCall cachedCluster = JNull
  ∧ fst (_executeApiCallWithFallback DeviceSpec.allUnreachable 400000 400100
           DeviceSpec.resourcesCall cachedCluster)
    = Finished (Rejected (FetchError "ECONNREFUSED")) ["10.0.0.1"]
  ∧ requestCache
      (snd (_executeApiCallWithFallback DeviceSpec.allUnreachable 400000 400100
              DeviceSpec.resourcesCall cachedCluster)) !! DeviceSpec.resourcesCall
    = Some {| data := JObj [("data", JArr [])]; ts := 1000 |}.
Proof. split_and!; vm_compute; reflexivity. Qed.

End Cache.

(** ** Coalescing of requests in flight *)

Module CoalescingFacts.
Import RegistrySpec DeviceSpec ProxmoxClusterDevice.

Lemma reads_stores o : readsCache o = true → storesResult o = true.
Proof. unfold readsCache, storesResult. by intros [-> _]%andb_true_iff. Qed.

Lemma shortcut_None_pending now r dev :
  shortcut now r dev = None → readsCache (options r) = true →
  pendingRequests dev !! r = None.
Proof.
  unfold shortcut. intros Hs Hr. rewrite Hr in Hs.
  destruct (json_truthy _); [done|]. by destruct (pendingRequests dev !! r).
Qed.

Lemma init_coalesced now primary backups b : coalesced (init now primary backups b).
Proof.
  split_and!; simpl.
  - intros p task. by rewrite lookup_empty.
  - intros r p _. by rewrite lookup_empty.
  - intros p [task Ht]. by rewrite lookup_empty in Ht.
Qed.

Lemma call_coalesced now r dev : coalesced dev → coalesced (snd (call now r dev)).
Proof.
  intros (H1 & H2 & H3). unfold call.
  destruct (shortcut now r dev) eqn:Hs; [done|].
  destruct (HostManager.getOrderedHostList now (hostManager dev)) as [hs hm1].
  cbn [snd]. split_and!; cbn [tasks pendingRequests nextPromise].
  - intros q task. destruct (decide (nextPromise dev = q)) as [<-|Hne].
    + rewrite lookup_insert_eq. intros [= <-]. cbn [request]. intros Hr.
      rewrite (reads_stores _ Hr). apply lookup_insert_eq.
    + rewrite lookup_insert_ne by done. intros Hq Hr.
      specialize (H1 q task Hq Hr).
      destruct (storesResult (options r)); [|done].
      destruct (decide (r = request task)) as [->|Hne2].
      * by rewrite (shortcut_None_pending now _ dev Hs Hr) in H1.
      * by rewrite lookup_insert_ne.
  - intros r' q Hr' Hq.
    assert (Hold : pendingRequests dev !! r' = Some q →
                   ∃ task, <[nextPromise dev := {| request := r; phase :=
                              match hs with
                              | [] => Settled (Rejected NoAvailableHosts)
                              | host :: rest => Requesting host rest None
                              end |}]> (tasks dev) !! q = Some task
                           ∧ request task = r').
    { intros Hp. destruct (H2 r' q Hr' Hp) as (task & Ht & Hrt).
      exists task. split; [|done]. rewrite lookup_insert_ne; [done|].
      intros <-. assert (nextPromise dev < nextPromise dev)%nat by (apply H3; eauto). lia. }
    destruct (storesResult (options r)); [|by apply Hold].
    destruct (decide (r = r')) as [->|Hne].
    + rewrite lookup_insert_eq in Hq. injection Hq as <-.
      eexists. split; [apply lookup_insert_eq|done].
    + rewrite lookup_insert_ne in Hq by done. by apply Hold.
  - intros q [task Hq]. destruct (decide (nextPromise dev = q)) as [<-|Hne]; [lia|].
    rewrite lookup_insert_ne in Hq by done.
    assert (q < nextPromise dev)%nat by (apply H3; eauto). lia.
Qed.

(** A reply only moves the phase of the promise it belongs to. *)
Lemma reply_shape now p w dev :
  reply now p w dev = dev
  ∨ ∃ rq h rest le ph hm' b',
      tasks dev !! p = Some {| request := rq; phase := Requesting h rest le |}
      ∧ reply now p w dev
        = {| hostManager := hm'; requestCache := requestCache dev;
             pendingRequests := pendingRequests dev; bridge := b';
             tasks := <[p := {| request := rq; phase := ph |}]> (tasks dev);
             nextPromise := nextPromise dev |}.
Proof.
  unfold reply. destruct (tasks dev !! p) as [[rq [h rest le|o]]|]; [|by left..].
  right. destruct (attempt now h w (hostManager dev) (bridge dev)) as [[v hm'] b'].
  destruct v as [o|e].
  - by exists rq, h, rest, le, (Settled o), hm', b'.
  - destruct rest as [|h' rest'].
    + destruct (exhausted (Some e) b') as [o b''] eqn:He.
      by exists rq, h, [], le, (Settled o), hm', b''.
    + by exists rq, h, (h' :: rest'), le, (Requesting h' rest' (Some e)), hm', b'.
Qed.

Lemma reply_coalesced now p w dev : coalesced dev → coalesced (reply now p w dev).
Proof.
  intros (H1 & H2 & H3).
  destruct (reply_shape now p w dev) as [->|(rq & h & rest & le & ph & hm' & b' & Hp & ->)];
    [done|].
  split_and!; cbn [tasks pendingRequests nextPromise].
  - intros q task. destruct (decide (p = q)) as [<-|Hne].
    + rewrite lookup_insert_eq. intros [= <-]. cbn [request]. intros Hr.
      by apply (H1 p _ Hp).
    + rewrite lookup_insert_ne by done. apply H1.
  - intros r' q Hr' Hq. destruct (H2 r' q Hr' Hq) as (task & Ht & Hrt).
    destruct (decide (p = q)) as [<-|Hne].
    + rewrite Hp in Ht. injection Ht as <-. cbn [request] in Hrt.
      eexists. split; [apply lookup_insert_eq|done].
    + exists task. by rewrite lookup_insert_ne.
  - intros q Hq. apply H3. destruct (decide (p = q)) as [<-|Hne]; [eauto|].
    by rewrite lookup_insert_ne in Hq.
Qed.

Lemma resume_coalesced now p dev : coalesced dev → coalesced (resume now p dev).
Proof.
  intros (H1 & H2 & H3). unfold resume.
  destruct (tasks dev !! p) as [[rq [h rest le|o]]|] eqn:Hp; [done| |done].
  unfold finish. cbn [hostManager requestCache pendingRequests bridge tasks nextPromise].
  destruct (storesResult (options rq)) eqn:Hst;
    (split_and!; cbn [tasks pendingRequests nextPromise]).
  - intros q task Hq Hr. apply lookup_delete_Some in Hq as [Hne Hq].
    pose proof (H1 q task Hq Hr) as Hq1.
    destruct (decide (rq = request task)) as [Heq|Hne2].
    + exfalso. apply Hne. rewrite <- Heq in Hr, Hq1.
      pose proof (H1 p _ Hp) as Hp1. cbn [request] in Hp1.
      specialize (Hp1 Hr). congruence.
    + by rewrite lookup_delete_ne.
  - intros r' q Hr' Hq. apply lookup_delete_Some in Hq as [Hne Hq].
    destruct (H2 r' q Hr' Hq) as (task & Ht & Hrt).
    exists task. split; [|done]. rewrite lookup_delete_ne; [done|].
    intros <-. rewrite Hp in Ht. injection Ht as <-. by cbn [request] in Hrt.
  - intros q Hq. apply H3. destruct Hq as [task Hq].
    apply lookup_delete_Some in Hq as [_ Hq]. eauto.
  - intros q task Hq Hr. apply lookup_delete_Some in Hq as [Hne Hq]. by apply H1.
  - intros r' q Hr' Hq. destruct (H2 r' q Hr' Hq) as (task & Ht & Hrt).
    exists task. split; [|done]. rewrite lookup_delete_ne; [done|].
    intros <-. rewrite Hp in Ht. injection Ht as <-. cbn [request] in Hrt. subst r'.
    apply reads_stores in Hr'. congruence.
  - intros q Hq. apply H3. destruct Hq as [task Hq].
    apply lookup_delete_Some in Hq as [_ Hq]. eauto.
Qed.

Lemma step_coalesced dev ev : coalesced dev → coalesced (step dev ev).
Proof.
  intros Hc. destruct ev; cbn [step].
  - by apply call_coalesced.
  - by apply reply_coalesced.
  - by apply resume_coalesced.
  - done.
  - done.
  - done.
Qed.

Lemma steps_coalesced evs dev : coalesced dev → coalesced (steps evs dev).
Proof. intros Hc. apply (fold_left_preserves coalesced); [done|]. apply step_coalesced. Qed.

End CoalescingFacts.

Module Coalescing.
Import RegistrySpec DeviceSpec ProxmoxClusterDevice CoalescingFacts.

Lemma finish_tasks now r o dev : tasks (finish now r o dev) = tasks dev.
Proof. unfold finish. by destruct (storesResult _). Qed.

Lemma settled_stays dev ev p r o :
  coalesced dev →
  tasks dev !! p = Some {| request := r; phase := Settled o |} →
  (∀ now, ev ≠ Resume now p) →
  tasks (step dev ev) !! p = Some {| request := r; phase := Settled o |}.
Proof.
  intros (_ & _ & H3) Hp Hev. destruct ev as [now rq|now q w|now q| | |]; cbn [step]; try done.
  - unfold call. destruct (shortcut now rq dev); [done|].
    destruct (HostManager.getOrderedHostList now (hostManager dev)) as [hs hm1].
    cbn [snd tasks]. rewrite lookup_insert_ne; [done|].
    intros Heq. assert (p < nextPromise dev)%nat by (apply H3; eauto). lia.
  - destruct (reply_shape now q w dev)
      as [->|(rq & h & rest & le & ph & hm' & b' & Hq & ->)]; [done|].
    cbn [tasks]. rewrite lookup_insert_ne; [done|]. intros ->. congruence.
  - assert (q ≠ p) as Hne by (intros ->; by apply (Hev now)).
    unfold resume. destruct (tasks dev !! q) as [[rq [h rest le|o']]|]; [done| |done].
    rewrite finish_tasks. cbn [tasks]. by rewrite lookup_delete_ne.
Qed.

(** C8, as the code has it.  Take any device reached from its initial state by
    any sequence of events, and a key whose calls read the cache and the
    in-flight map (GET, neither skipCache nor refreshCache).  At most one
    request promise for that key is outstanding.  While the in-flight map holds
    a promise for the key, a further call for the key starts nothing: it is
    served from the cache if the cache has a fresh truthy entry, and otherwise
    is handed that very promise, which belongs to the key.  A settled promise
    keeps its outcome through every event but its own continuation, and that
    continuation removes the in-flight entry and the promise, whatever the
    outcome. *)
Theorem reading_calls_coalesce (evs : list Event) (now0 : Z) (primary : string)
    (backups : list string) (b0 : Bridge) (r : Request) :
  readsCache (options r) = true →
  (∀ p1 p2 t1 t2,
     tasks (steps evs (init now0 primary backups b0)) !! p1 = Some t1 →
     tasks (steps evs (init now0 primary backups b0)) !! p2 = Some t2 →
     request t1 = r → request t2 = r → p1 = p2)
  ∧ (∀ now p,
       pendingRequests (steps evs (init now0 primary backups b0)) !! r = Some p →
       call now r (steps evs (init now0 primary backups b0))
       = (Immediately
            (if json_truthy
                  (_getCachedResponse now r (steps evs (init now0 primary backups b0)))
             then FromCache
                    (_getCachedResponse now r (steps evs (init now0 primary backups b0)))
             else Attached p),
          steps evs (init now0 primary backups b0))
       ∧ ∃ task, tasks (steps evs (init now0 primary backups b0)) !! p = Some task
                 ∧ request task = r)
  ∧ (∀ ev p o,
       tasks (steps evs (init now0 primary backups b0)) !! p
       = Some {| request := r; phase := Settled o |} →
       (∀ now, ev ≠ Resume now p) →
       tasks (step (steps evs (init now0 primary backups b0)) ev) !! p
       = Some {| request := r; phase := Settled o |})
  ∧ (∀ now p o,
       tasks (steps evs (init now0 primary backups b0)) !! p
       = Some {| request := r; phase := Settled o |} →
       pendingRequests (resume now p (steps evs (init now0 primary backups b0))) !! r = None
       ∧ tasks (resume now p (steps evs (init now0 primary backups b0))) !! p = None).
Proof.
  intros Hr.
  pose proof (steps_coalesced evs _ (init_coalesced now0 primary backups b0)) as Hc.
  set (dev := steps evs (init now0 primary backups b0)) in *.
  destruct Hc as (H1 & H2 & H3). split_and!.
  - intros p1 p2 t1 t2 Ht1 Ht2 <- Heq.
    pose proof (H1 p1 t1 Ht1 Hr) as Hp1. rewrite <- Heq in Hr.
    pose proof (H1 p2 t2 Ht2 Hr) as Hp2. congruence.
  - intros now p Hp. split; [|by apply H2].
    unfold call, shortcut. rewrite Hr, Hp. by destruct (json_truthy _).
  - intros ev p o Hp Hev. by apply settled_stays.
  - intros now p o Hp. unfold resume. rewrite Hp. unfold finish.
    rewrite (reads_stores _ Hr). cbn [pendingRequests tasks].
    split; apply lookup_delete_eq.
Qed.

(** C8 as stated fails for calls made with refreshCache, whose results are
    stored in the cache like those of any other GET.  The poll and the health
    check both call the status endpoint with [{ refreshCache: true }]: the
    second call finds the first one's promise in the in-flight map, yet gets a
    promise of its own, and two requests for the one key are then outstanding. *)
Lemma refresh_calls_are_not_coalesced :
  storesResult (options DeviceSpec.statusCall) = true
  ∧ fst (call 2000 DeviceSpec.statusCall DeviceSpec.cluster) = Promise 0
  ∧ pendingRequests afterPollCall !! DeviceSpec.statusCall = Some 0%nat
  ∧ fst (call 2001 DeviceSpec.statusCall afterPollCall) = Promise 1
  ∧ tasks afterHealthCall !! 0%nat
    = Some {| request := DeviceSpec.statusCall;
              phase := Requesting "10.0.0.1" ["10.0.0.2"; "10.0.0.3"] None |}
  ∧ tasks afterHealthCall !! 1%nat
    = Some {| request := DeviceSpec.statusCall;
              phase := Requesting "10.0.0.1" ["10.0.0.2"; "10.0.0.3"] None |}.
Proof. split_and!; vm_compute; reflexivity. Qed.

End Coalescing.

(** ** Registries and devices reached by running the code *)

Module Reachable.
Import RegistrySpec DeviceSpec HostManager RegistryFacts OrderingFacts
  ProxmoxClusterDevice ExecutorFacts.

Lemma omap_delete_keys_subset {V} (m : list (string * V)) k x :
  x ∈ (omap_delete k m).*1 → x ∈ m.*1.
Proof.
  induction m as [|[k' v'] m IH]; csimpl; [done|].
  destruct (decide (k' = k)); csimpl.
  - intros Hx. apply elem_of_cons. right. by apply IH.
  - intros [->|Hx]%elem_of_cons; apply elem_of_cons; [by left | right; by apply IH].
Qed.

Lemma omap_delete_NoDup {V} (m : list (string * V)) k :
  NoDup m.*1 → NoDup (omap_delete k m).*1.
Proof.
  induction m as [|[k' v'] m IH]; csimpl; [done|].
  intros [Hnin Hnd]%NoDup_cons. destruct (decide (k' = k)); csimpl; [by apply IH|].
  apply NoDup_cons. split; [|by apply IH].
  intros Hin. by apply Hnin, (omap_delete_keys_subset m k).
Qed.

Lemma updateHostStatus_keys now host success rt hm :
  NoDup (hosts hm).*1 → NoDup (hosts (updateHostStatus now host success rt hm)).*1.
Proof.
  intros Hnd. destruct success.
  - destruct (updateHostStatus_success_hosts now host rt hm) as [-> _].
    by apply omap_set_NoDup.
  - rewrite BreakerFacts.updateHostStatus_failure. cbn [hosts]. by apply omap_set_NoDup.
Qed.

Lemma apply_keys hm op : NoDup (hosts hm).*1 → NoDup (hosts (apply hm op)).*1.
Proof.
  intros Hnd. destruct op as [now primary initialHosts|host|now host success rt
                              |now host|now|now]; cbn [apply].
  - unfold initialize.
    apply (fold_left_preserves (fun s => NoDup (hosts s).*1)).
    + by apply updateHostStatus_keys.
    + intros s h Hs. destruct (truthy h && negb (h =? primary)%string); [|done].
      by apply updateHostStatus_keys.
  - unfold setPrimaryHost, _resetCircuitBreaker. cbn.
    by destruct (circuitBreakers hm !! host).
  - by apply updateHostStatus_keys.
  - by destruct (query_sameView now host hm) as (-> & _).
  - by destruct (getOrderedHostList_sameView now hm) as (-> & _).
  - unfold cleanup. apply (fold_left_preserves (fun s => NoDup (hosts s).*1)); [done|].
    intros s [h info] Hs. unfold cleanupStep. case_bool_decide; [|done].
    cbn [hosts]. by apply omap_delete_NoDup.
Qed.

(** The host map of a registry built by the registry's operations never holds
    a key twice. *)
Lemma run_keys ops : NoDup (hosts (run ops new)).*1.
Proof.
  unfold run. apply (fold_left_preserves (fun s => NoDup (hosts s).*1)).
  - apply NoDup_nil_2.
  - intros s op. apply apply_keys.
Qed.

(** Every event of the device acts on the registry through the registry's
    operations only. *)
Lemma step_registry dev ev :
  ∃ ops, hostManager (step dev ev) = run ops (hostManager dev).
Proof.
  destruct ev as [now r|now p w|now p|start now host w|now|host]; cbn [step].
  - unfold call. destruct (shortcut now r dev); [by exists []|].
    exists [GetOrderedHostList now]. cbn.
    by destruct (getOrderedHostList now (hostManager dev)).
  - unfold reply. destruct (tasks dev !! p) as [[rq [h rest le|o]]|]; [|by exists []..].
    unfold attempt. destruct (ProxmoxClient.request w) as [v|e].
    + exists [UpdateHostStatus now h true 0]. done.
    + exists [UpdateHostStatus now h false 0].
      destruct (isClientError e); [done|]. destruct rest; [|done].
      by destruct (exhausted (Some e) (bridge dev)).
  - unfold resume. destruct (tasks dev !! p) as [[rq [h rest le|o]]|]; [by exists []| |by exists []].
    exists []. by rewrite Failover.finish_hostManager.
  - unfold ping. destruct (ProxmoxClient.request w) as [v|e].
    + by exists [UpdateHostStatus now host true (now - start)].
    + by exists [UpdateHostStatus now host false 0].
  - by exists [Cleanup now].
  - by exists [SetPrimaryHost host].
Qed.

Lemma steps_registry evs now primary backups b :
  ∃ ops, hostManager (steps evs (init now primary backups b)) = run ops new.
Proof.
  induction evs as [|ev evs IH] using rev_ind.
  - by exists [Initialize now primary backups].
  - destruct IH as (ops & IH). unfold steps in *. rewrite fold_left_app. cbn [fold_left].
    destruct (step_registry (fold_left step evs (init now primary backups b)) ev)
      as (ops' & ->).
    exists (ops ++ ops'). rewrite IH. unfold run. by rewrite fold_left_app.
Qed.

(** Hence, in every device reached from its initial state, the host map has
    no duplicate key and an open breaker has counted three failures. *)
Lemma steps_well_formed evs now primary backups b :
  NoDup (hosts (hostManager (steps evs (init now primary backups b)))).*1
  ∧ openMeansTripped (hostManager (steps evs (init now primary backups b))).
Proof.
  destruct (steps_registry evs now primary backups b) as (ops & ->). split.
  - apply run_keys.
  - apply BreakerFacts.run_inv, BreakerFacts.new_inv.
Qed.

End Reachable.

(** ** The two presentations of the executor agree *)

Module Agreement.
Import RegistrySpec DeviceSpec ProxmoxClusterDevice.

Lemma tryHosts_cons net h rest le hm b :
  tryHosts net (h :: rest) le hm b
  = match attempt (finishedAt (net h)) h (wire (net h)) hm b with
    | (Done o, hm', b') => (o, hm', b', [h])
    | (Next e, hm', b') =>
        let '(o, hm'', b'', tried) := tryHosts net rest (Some e) hm' b' in
        (o, hm'', b'', h :: tried)
    end.
Proof. reflexivity. Qed.

Lemma replies_tryHosts net p r rest :
  ∀ h le dev,
    tasks dev !! p = Some {| request := r; phase := Requesting h rest le |} →
    ∀ o hm' b' tried,
      tryHosts net (h :: rest) le (hostManager dev) (bridge dev) = (o, hm', b', tried) →
      replies net p tried dev
      = {| hostManager := hm'; requestCache := requestCache dev;
           pendingRequests := pendingRequests dev; bridge := b';
           tasks := <[p := {| request := r; phase := Settled o |}]> (tasks dev);
           nextPromise := nextPromise dev |}.
Proof.
  induction rest as [|h' rest IH]; intros h le dev Hp o hm' b' tried;
    rewrite tryHosts_cons.
  - cbn [tryHosts]. destruct (attempt (finishedAt (net h)) h (wire (net h)) (hostManager dev) (bridge dev))
      as [[[o1|e] hm1] b1] eqn:Ha.
    + intros [= <- <- <- <-]. unfold replies. cbn [fold_left]. unfold reply.
      by rewrite Hp, Ha.
    + destruct (exhausted (Some e) b1) as [o2 b2] eqn:He.
      intros [= <- <- <- <-]. unfold replies. cbn [fold_left]. unfold reply.
      by rewrite Hp, Ha, He.
  - destruct (attempt (finishedAt (net h)) h (wire (net h)) (hostManager dev) (bridge dev))
      as [[[o1|e] hm1] b1] eqn:Ha.
    + intros [= <- <- <- <-]. unfold replies. cbn [fold_left]. unfold reply.
      by rewrite Hp, Ha.
    + destruct (tryHosts net (h' :: rest) (Some e) hm1 b1) as [[[o2 hm2] b2] tr] eqn:Ht.
      intros [= <- <- <- <-]. unfold replies. cbn [fold_left].
      fold (replies net p tr (reply (finishedAt (net h)) p (wire (net h)) dev)).
      unfold reply at 1. rewrite Hp, Ha.
      erewrite IH; [| apply lookup_insert_eq | exact Ht].
      cbn [requestCache pendingRequests tasks nextPromise]. by rewrite insert_insert_eq.
Qed.

(** A call that is not answered from the cache or the in-flight map leaves
    the device exactly as the events it consists of do when they run back to
    back: the call's synchronous start, the replies of the hosts it
    contacted, and the continuation after the promise settled. *)
Lemma call_as_events net now storedAt r dev :
  shortcut now r dev = None →
  tasks dev !! nextPromise dev = None →
  ∃ o tried,
    fst (_executeApiCallWithFallback net now storedAt r dev) = Finished o tried
    ∧ fst (call now r dev) = Promise (nextPromise dev)
    ∧ snd (_executeApiCallWithFallback net now storedAt r dev)
      = resume storedAt (nextPromise dev)
          (replies net (nextPromise dev) tried (snd (call now r dev))).
Proof.
  intros Hs Hfresh. unfold _executeApiCallWithFallback, call. rewrite Hs.
  destruct (HostManager.getOrderedHostList now (hostManager dev)) as [hs hm1].
  destruct hs as [|h rest].
  - exists (Rejected NoAvailableHosts), []. split_and!; [done|done|].
    cbn [fst snd]. unfold replies. cbn [fold_left]. unfold resume. cbn [tasks].
    rewrite lookup_insert_eq. unfold finish.
    cbn [hostManager requestCache pendingRequests bridge tasks nextPromise].
    rewrite delete_insert_eq, (delete_id _ _ Hfresh).
    destruct (storesResult (options r)); [|done]. by rewrite delete_insert_eq.
  - destruct (tryHosts net (h :: rest) None hm1 (bridge dev)) as [[[o hm2] b2] tried] eqn:Ht.
    exists o, tried. split_and!; [done|done|]. cbn [fst snd].
    erewrite replies_tryHosts; [| apply lookup_insert_eq | exact Ht].
    unfold resume. cbn [tasks]. rewrite lookup_insert_eq. unfold finish.
    cbn [hostManager requestCache pendingRequests bridge tasks nextPromise].
    rewrite insert_insert_eq, delete_insert_eq, (delete_id _ _ Hfresh).
    destruct (storesResult (options r)); [|done]. by rewrite delete_insert_eq.
Qed.

End Agreement.

Module ExecutorWitnesses.
Import RegistrySpec DeviceSpec HostManager ProxmoxClusterDevice ExecutorFacts.

Lemma client_error_ends_failover_witness :
  shortcut 1500 DeviceSpec.resourcesCall DeviceSpec.cluster = None
  ∧ fst (getOrderedHostList 1500 (hostManager DeviceSpec.cluster))
    = [] ++ "10.0.0.1" :: ["10.0.0.2"; "10.0.0.3"]
  ∧ wire (DeviceSpec.primaryRejects "10.0.0.1")
    = ProxmoxClient.HttpResponse 401 "authentication failure" None
  ∧ fst (_executeApiCallWithFallback DeviceSpec.primaryRejects 1500 2200
           DeviceSpec.resourcesCall DeviceSpec.cluster)
    = Finished (Rejected (ApiError 401 "authentication failure")) ([] ++ ["10.0.0.1"]).
Proof.
  assert (Hs : shortcut 1500 DeviceSpec.resourcesCall DeviceSpec.cluster = None)
    by (vm_compute; reflexivity).
  assert (Hl : fst (getOrderedHostList 1500 (hostManager DeviceSpec.cluster))
               = [] ++ "10.0.0.1" :: ["10.0.0.2"; "10.0.0.3"])
    by (vm_compute; reflexivity).
  assert (Hw : wire (DeviceSpec.primaryRejects "10.0.0.1")
               = ProxmoxClient.HttpResponse 401 "authentication failure" None)
    by reflexivity.
  split_and!; [exact Hs | exact Hl | exact Hw |].
  apply (Failover.client_error_ends_failover DeviceSpec.primaryRejects 1500 2200
           DeviceSpec.resourcesCall DeviceSpec.cluster [] "10.0.0.1"
           ["10.0.0.2"; "10.0.0.3"] 401 "authentication failure" None Hs Hl);
    [intros h Hh; by apply elem_of_nil in Hh | exact Hw | lia].
Defined.

Lemma exhaustion_rethrows_last_error_witness :
  NoDup (hosts (hostManager DeviceSpec.cluster)).*1
  ∧ shortcut 1500 DeviceSpec.resourcesCall DeviceSpec.cluster = None
  ∧ Forall (fun h => retryable (wire (DeviceSpec.allUnreachable h)) = true)
      (["10.0.0.1"; "10.0.0.2"] ++ ["10.0.0.3"])
  ∧ ∃ e, ProxmoxClient.request (wire (DeviceSpec.allUnreachable "10.0.0.3")) = Rejected e
         ∧ builtByExecutor e = false
         ∧ fst (_executeApiCallWithFallback DeviceSpec.allUnreachable 1500 19000
                  DeviceSpec.resourcesCall DeviceSpec.cluster)
           = Finished (Rejected e) (["10.0.0.1"; "10.0.0.2"] ++ ["10.0.0.3"])
         ∧ ∀ h, h ∈ ["10.0.0.1"; "10.0.0.2"] ++ ["10.0.0.3"] →
                failureCountOf
                  (hostManager
                     (snd (_executeApiCallWithFallback DeviceSpec.allUnreachable 1500 19000
                             DeviceSpec.resourcesCall DeviceSpec.cluster))) h
                = failureCountOf (hostManager DeviceSpec.cluster) h + 1.
Proof.
  assert (Hnd : NoDup (hosts (hostManager DeviceSpec.cluster)).*1).
  { apply (bool_decide_unpack _). vm_compute. exact I. }
  assert (Hs : shortcut 1500 DeviceSpec.resourcesCall DeviceSpec.cluster = None)
    by (vm_compute; reflexivity).
  assert (Hall : Forall (fun h => retryable (wire (DeviceSpec.allUnreachable h)) = true)
                   (["10.0.0.1"; "10.0.0.2"] ++ ["10.0.0.3"])).
  { repeat constructor. }
  split_and!; [exact Hnd | exact Hs | exact Hall |].
  destruct (Failover.exhaustion_rethrows_last_error DeviceSpec.allUnreachable 1500 19000
              DeviceSpec.resourcesCall DeviceSpec.cluster ["10.0.0.1"; "10.0.0.2"]
              "10.0.0.3" Hnd Hs)
    as (e & Hreq & Hbuilt & Hres & Hcount & _).
  - vm_compute. reflexivity.
  - intros h Hh. by apply (proj1 (Forall_forall _ _) Hall).
  - exists e. split_and!; assumption.
Defined.

Lemma executor_success_records_zero_witness :
  fst (_executeApiCallWithFallback DeviceSpec.primaryOverloaded 1500 2200
         DeviceSpec.resourcesCall DeviceSpec.cluster)
  = Finished (Resolved DeviceSpec.emptyData) ["10.0.0.1"; "10.0.0.2"]
  ∧ ∃ before host info,
      ["10.0.0.1"; "10.0.0.2"] = before ++ [host]
      ∧ ProxmoxClient.request (wire (DeviceSpec.primaryOverloaded host))
        = Resolved DeviceSpec.emptyData
      ∧ omap_get host
          (hosts (hostManager
                    (snd (_executeApiCallWithFallback DeviceSpec.primaryOverloaded 1500 2200
                            DeviceSpec.resourcesCall DeviceSpec.cluster))))
        = Some info
      ∧ Host.lastSeen info = finishedAt (DeviceSpec.primaryOverloaded host)
      ∧ Host.responseTime info = 0
      ∧ Host.failureCount info = 0
      ∧ score
          (primaryHost
             (hostManager
                (snd (_executeApiCallWithFallback DeviceSpec.primaryOverloaded 1500 2200
                        DeviceSpec.resourcesCall DeviceSpec.cluster))))
          host info
        = 1000 + (if bool_decide
                       (primaryHost
                          (hostManager
                             (snd (_executeApiCallWithFallback DeviceSpec.primaryOverloaded
                                     1500 2200 DeviceSpec.resourcesCall DeviceSpec.cluster)))
                        = Some host)
                  then 50 else 0).
Proof.
  assert (Hres : fst (_executeApiCallWithFallback DeviceSpec.primaryOverloaded 1500 2200
                        DeviceSpec.resourcesCall DeviceSpec.cluster)
                 = Finished (Resolved DeviceSpec.emptyData) ["10.0.0.1"; "10.0.0.2"])
    by (vm_compute; reflexivity).
  split; [exact Hres|].
  exact (proj1 (Latency.executor_success_records_zero DeviceSpec.primaryOverloaded 1500 2200
                  DeviceSpec.resourcesCall DeviceSpec.cluster DeviceSpec.emptyData
                  ["10.0.0.1"; "10.0.0.2"] Hres)).
Defined.

Lemma cache_read_and_refresh_witness :
  requestCache DeviceSpec.cachedCluster !! DeviceSpec.resourcesCall
  = Some {| data := JObj [("data", JArr [])]; ts := 1000 |}
  ∧ _getCachedResponse 2000 DeviceSpec.resourcesCall DeviceSpec.cachedCluster
    = JObj [("data", JArr [])]
  ∧ _getCachedResponse 400000 DeviceSpec.resourcesCall DeviceSpec.cachedCluster = JNull.
Proof.
  assert (He : requestCache DeviceSpec.cachedCluster !! DeviceSpec.resourcesCall
               = Some {| data := JObj [("data", JArr [])]; ts := 1000 |})
    by (vm_compute; reflexivity).
  split; [exact He|].
  pose proof (Cache.cache_read_and_refresh 2000 DeviceSpec.resourcesCall
                DeviceSpec.cachedCluster _ He) as (Hfresh & _).
  pose proof (Cache.cache_read_and_refresh 400000 DeviceSpec.resourcesCall
                DeviceSpec.cachedCluster _ He) as (_ & Hold & _).
  split; [apply Hfresh | apply Hold]; simpl; lia.
Defined.

Lemma reading_calls_coalesce_witness :
  readsCache (options DeviceSpec.resourcesCall) = true
  ∧ pendingRequests DeviceSpec.afterResourcesCall !! DeviceSpec.resourcesCall = Some 0%nat
  ∧ call 2001 DeviceSpec.resourcesCall DeviceSpec.afterResourcesCall
    = (Immediately
         (if json_truthy
               (_getCachedResponse 2001 DeviceSpec.resourcesCall DeviceSpec.afterResourcesCall)
          then FromCache
                 (_getCachedResponse 2001 DeviceSpec.resourcesCall DeviceSpec.afterResourcesCall)
          else Attached 0),
       DeviceSpec.afterResourcesCall).
Proof.
  assert (Hr : readsCache (options DeviceSpec.resourcesCall) = true) by reflexivity.
  assert (Hp : pendingRequests DeviceSpec.afterResourcesCall !! DeviceSpec.resourcesCall
               = Some 0%nat) by (vm_compute; reflexivity).
  split_and!; [exact Hr | exact Hp |].
  pose proof (Coalescing.reading_calls_coalesce [Call 2000 DeviceSpec.resourcesCall]
                1000 "10.0.0.1" ["10.0.0.2"; "10.0.0.3"] DeviceSpec.plainBridge
                DeviceSpec.resourcesCall Hr) as (_ & Hattach & _).
  exact (proj1 (Hattach 2001 0%nat Hp)).
Defined.

End ExecutorWitnesses.

(** ** Invariants of the registry, for every sequence of operations *)

Module Invariants.
Import RegistrySpec LifecycleSpec HostManager RegistryFacts.

(** A property of registries that the elementary updates keep is kept by
    every operation. *)
Section Scheme.
Variable Inv : t → Prop.
Hypothesis Inv_markers : ∀ hm p q,
  Inv hm →
  Inv {| hosts := hosts hm; circuitBreakers := circuitBreakers hm;
         primaryHost := p; preferredHost := q |}.
Hypothesis Inv_query : ∀ now h hm,
  Inv hm → Inv (snd (_getCircuitBreakerState now h hm)).
Hypothesis Inv_success : ∀ h info hm,
  Inv hm →
  Inv (with_hosts (omap_set h info (hosts (_resetCircuitBreaker h hm)))
         (_resetCircuitBreaker h hm)).
Hypothesis Inv_failure : ∀ now h rt hm,
  Inv hm → Inv (updateHostStatus now h false rt hm).
Hypothesis Inv_reset : ∀ h hm, Inv hm → Inv (_resetCircuitBreaker h hm).
Hypothesis Inv_sweep : ∀ now hm e, Inv hm → Inv (cleanupStep now hm e).

Lemma Inv_with_preferred p hm : Inv hm → Inv (with_preferred p hm).
Proof. intros H. exact (Inv_markers hm (primaryHost hm) p H). Qed.

Lemma updatePreferredHost_keeps now hm : Inv hm → Inv (_updatePreferredHost now hm).
Proof.
  intros Hinv. unfold _updatePreferredHost.
  assert (Hfold : Inv (snd (fold_left (scoreStep now) (hosts hm) (None, hm)))).
  { apply (fold_left_preserves (fun acc => Inv (snd acc))); [done|].
    intros [best s] e Hs. rewrite scoreStep_spec. by apply Inv_query. }
  destruct (fold_left (scoreStep now) (hosts hm) (None, hm)) as [[[bh bs]|] hm1];
    simpl in Hfold; [|done].
  destruct (truthy bh); [by apply Inv_with_preferred | done].
Qed.

Lemma updateHostStatus_keeps now host success rt hm :
  Inv hm → Inv (updateHostStatus now host success rt hm).
Proof.
  intros Hinv. destruct success; [|by apply Inv_failure].
  unfold updateHostStatus. by apply updatePreferredHost_keeps, Inv_success.
Qed.

Lemma candidates_keeps now hm : Inv hm → Inv (snd (candidates now hm)).
Proof.
  intros Hinv. unfold candidates.
  apply (fold_left_preserves (fun acc => Inv (snd acc))).
  - unfold preferredCandidate. destruct (preferredHost hm) as [p|]; [|done].
    destruct (truthy p); [|done].
    pose proof (Inv_query now p hm Hinv) as Hq.
    destruct (_getCircuitBreakerState now p hm) as [st s1]. simpl in Hq.
    destruct (omap_get p (hosts hm)); [|done].
    by destruct (_ && _).
  - intros [cands s] [h info] Hs. simpl in Hs. unfold otherStep.
    case_bool_decide; [done|].
    pose proof (Inv_query now h s Hs) as Hq.
    destruct (_getCircuitBreakerState now h s) as [st s1]. simpl in Hq.
    repeat case_bool_decide; done.
Qed.

Lemma apply_keeps hm op : Inv hm → Inv (apply hm op).
Proof.
  intros Hinv. destruct op as [now primary initialHosts|host|now host success rt
                               |now host|now|now]; cbn [apply].
  - unfold initialize. apply (fold_left_preserves Inv).
    + by apply updateHostStatus_keeps, Inv_markers.
    + intros s h Hs. destruct (truthy h && negb (h =? primary)%string); [|done].
      by apply updateHostStatus_keeps.
  - unfold setPrimaryHost. by apply Inv_with_preferred, Inv_reset, Inv_markers.
  - by apply updateHostStatus_keeps.
  - by apply Inv_query.
  - unfold getOrderedHostList.
    pose proof (candidates_keeps now hm Hinv) as Hc.
    destruct (candidates now hm) as [cands hm1]. simpl in Hc.
    destruct (sortCandidates cands); [|done].
    destruct (primaryHost hm1) as [p|]; [|done]. by destruct (truthy p).
  - unfold cleanup. apply (fold_left_preserves Inv); [done|].
    intros s e Hs. by apply Inv_sweep.
Qed.

Lemma run_keeps ops hm : Inv hm → Inv (run ops hm).
Proof. intros Hinv. apply (fold_left_preserves Inv); [done|]. apply apply_keeps. Qed.
End Scheme.

(** *** Every breaker satisfies a property that the three breaker updates keep *)

Section Breakers.
Variable P : Breaker.t → Prop.
Hypothesis P_fresh : P Breaker.fresh.
Hypothesis P_failure : ∀ now b, P b → P (afterFailure now b).
Hypothesis P_reset : ∀ b, P b → P (resetBreaker b).
Hypothesis P_half : ∀ b, P b → Breaker.state b = Breaker.open → P (halfOpened b).

Lemma reset_everyBreaker h hm :
  everyBreaker P hm → everyBreaker P (_resetCircuitBreaker h hm).
Proof.
  intros Hinv h' b. unfold _resetCircuitBreaker.
  destruct (circuitBreakers hm !! h) as [b0|] eqn:Hb0; [|apply Hinv]. simpl.
  destruct (decide (h = h')) as [->|Hne].
  - rewrite lookup_insert_eq. intros [= <-]. apply (P_reset b0), (Hinv h' b0 Hb0).
  - rewrite lookup_insert_ne by done. apply Hinv.
Qed.

Lemma run_everyBreaker ops : everyBreaker P (run ops new).
Proof.
  apply (run_keeps (everyBreaker P)).
  - intros hm p q Hinv. exact Hinv.
  - intros now h hm Hinv h' b. unfold _getCircuitBreakerState.
    destruct (circuitBreakers hm !! h) as [b0|] eqn:Hb0; [|apply Hinv].
    destruct (bool_decide (Breaker.state b0 = Breaker.open)
              && bool_decide (now - Breaker.lastFailure b0 > breakerOpen)) eqn:Hc;
      [|apply Hinv].
    simpl. apply andb_true_iff in Hc as [Hopen%bool_decide_eq_true _].
    destruct (decide (h = h')) as [->|Hne].
    + rewrite lookup_insert_eq. intros [= <-].
      apply (P_half b0); [apply (Hinv h' b0 Hb0) | done].
    + rewrite lookup_insert_ne by done. apply Hinv.
  - intros h info hm Hinv. exact (reset_everyBreaker h hm Hinv).
  - intros now h rt hm Hinv h' b. rewrite BreakerFacts.updateHostStatus_failure.
    cbn [circuitBreakers]. destruct (decide (h = h')) as [->|Hne].
    + rewrite lookup_insert_eq. intros [= <-]. apply P_failure.
      destruct (circuitBreakers hm !! h') as [b0|] eqn:Hb0; [apply (Hinv h' b0 Hb0) | done].
    + rewrite lookup_insert_ne by done. apply Hinv.
  - apply reset_everyBreaker.
  - intros now hm [h info] Hinv. unfold cleanupStep. case_bool_decide; [|done].
    intros h' b. cbn [circuitBreakers]. intros [_ Hlk]%lookup_delete_Some.
    by apply (Hinv h' b).
  - intros h b. cbn. by rewrite lookup_empty.
Qed.
End Breakers.

Lemma run_trippedUnlessClosed ops : everyBreaker trippedUnlessClosed (run ops new).
Proof.
  apply run_everyBreaker; unfold trippedUnlessClosed.
  - done.
  - intros now b Hb. unfold afterFailure. cbn.
    repeat case_bool_decide; simpl; intros Hst; try lia.
    + specialize (Hb Hst). lia.
    + specialize (Hb Hst). lia.
  - intros b _. done.
  - intros b Hb Hopen _. cbn. apply Hb. by rewrite Hopen.
Qed.

(** *** Keys of the insertion-ordered map *)

Lemma omap_set_keys_elem {V} (m : list (string * V)) k v x :
  x ∈ (omap_set k v m).*1 ↔ x = k ∨ x ∈ m.*1.
Proof.
  destruct (decide (k ∈ m.*1)) as [Hin|Hnin].
  - rewrite omap_set_keys_present by done. split; [by right|]. by intros [->|?].
  - rewrite omap_set_keys_absent by done. rewrite elem_of_app, list_elem_of_singleton. tauto.
Qed.

Lemma omap_delete_filter {V} (m : list (string * V)) k :
  omap_delete k m = List.filter (fun e => negb (bool_decide (e.1 = k))) m.
Proof.
  induction m as [|[k' v'] m IH]; simpl; [done|].
  destruct (decide (k' = k)) as [->|Hne].
  - by rewrite bool_decide_eq_true_2.
  - rewrite bool_decide_eq_false_2 by done. simpl. by rewrite IH.
Qed.

Lemma omap_delete_keys_elem {V} (m : list (string * V)) k x :
  x ∈ (omap_delete k m).*1 ↔ x ≠ k ∧ x ∈ m.*1.
Proof.
  rewrite omap_delete_filter, !list_elem_of_fmap. split.
  - intros (e & -> & He). apply list_elem_of_In, filter_In in He as [He Hk].
    apply negb_true_iff, bool_decide_eq_false in Hk. split; [done|].
    exists e. split; [done|]. by apply list_elem_of_In.
  - intros (Hne & e & -> & He). exists e. split; [done|].
    apply list_elem_of_In, filter_In. split; [by apply list_elem_of_In|].
    by apply negb_true_iff, bool_decide_eq_false.
Qed.

Lemma omap_get_Some_elem {V} (m : list (string * V)) k v :
  omap_get k m = Some v → (k, v) ∈ m.
Proof.
  induction m as [|[k' v'] m IH]; simpl; [done|].
  destruct (decide (k' = k)) as [->|Hne].
  - intros [= ->]. apply elem_of_cons. by left.
  - intros H. apply elem_of_cons. right. by apply IH.
Qed.

Lemma omap_get_None_keys {V} (m : list (string * V)) k :
  omap_get k m = None ↔ k ∉ m.*1.
Proof.
  induction m as [|[k' v'] m IH]; csimpl.
  - split; [intros _; apply not_elem_of_nil | done].
  - rewrite not_elem_of_cons. destruct (decide (k' = k)) as [->|Hne].
    + split; [done | by intros [? _]].
    + rewrite IH. split; [by intros ? | by intros [_ ?]].
Qed.

Lemma omap_get_elem_NoDup {V} (m : list (string * V)) k v :
  NoDup m.*1 → (k, v) ∈ m → omap_get k m = Some v.
Proof.
  induction m as [|[k' v'] m IH]; csimpl; [by intros _ ?%elem_of_nil|].
  intros [Hnin Hnd]%NoDup_cons [[= -> ->]|Hin]%elem_of_cons.
  - by rewrite decide_True.
  - rewrite decide_False; [by apply IH|].
    intros ->. apply Hnin, list_elem_of_fmap. by exists (k, v).
Qed.

Lemma run_breakersBelongToHosts ops : breakersBelongToHosts (run ops new).
Proof.
  apply (run_keeps breakersBelongToHosts).
  - intros hm p q Hinv. exact Hinv.
  - intros now h hm Hinv h'. destruct (query_sameView now h hm) as (-> & _).
    unfold _getCircuitBreakerState.
    destruct (circuitBreakers hm !! h) as [b0|] eqn:Hb0; [|apply Hinv].
    destruct (_ && _); [|apply Hinv]. simpl.
    destruct (decide (h = h')) as [->|Hne].
    + intros _. apply Hinv. by rewrite Hb0.
    + rewrite lookup_insert_ne by done. apply Hinv.
  - intros h info hm Hinv h'. unfold _resetCircuitBreaker.
    destruct (circuitBreakers hm !! h) as [b0|] eqn:Hb0; cbn.
    + intros Hs. apply omap_set_keys_elem.
      destruct (decide (h = h')) as [->|Hne]; [by left|].
      rewrite lookup_insert_ne in Hs by done. right. by apply Hinv.
    + intros Hs. apply omap_set_keys_elem. right. by apply Hinv.
  - intros now h rt hm Hinv h'. rewrite BreakerFacts.updateHostStatus_failure. cbn.
    intros Hs. apply omap_set_keys_elem.
    destruct (decide (h = h')) as [->|Hne]; [by left|].
    rewrite lookup_insert_ne in Hs by done. right. by apply Hinv.
  - intros h hm Hinv h'. unfold _resetCircuitBreaker.
    destruct (circuitBreakers hm !! h) as [b0|] eqn:Hb0; [|apply Hinv]. cbn.
    destruct (decide (h = h')) as [->|Hne].
    + intros _. apply Hinv. by rewrite Hb0.
    + rewrite lookup_insert_ne by done. apply Hinv.
  - intros now hm [h info] Hinv. unfold cleanupStep. case_bool_decide; [|done].
    intros h'. cbn. intros [b [Hne Hlk]%lookup_delete_Some].
    apply omap_delete_keys_elem. split; [done|]. apply Hinv. by rewrite Hlk.
  - intros h. cbn. rewrite lookup_empty. by intros [? ?].
Qed.

End Invariants.

(** ** Life cycle of a host in the registry *)

Module LifecycleFacts.
Import RegistrySpec LifecycleSpec HostManager RegistryFacts OrderingFacts Invariants.

(** *** Queries leave a breaker alone unless it is open *)

Lemma query_lookup_quiet now h' hm h :
  (∀ b, circuitBreakers hm !! h = Some b → Breaker.state b ≠ Breaker.open) →
  circuitBreakers (snd (_getCircuitBreakerState now h' hm)) !! h
  = circuitBreakers hm !! h.
Proof.
  intros Hq. unfold _getCircuitBreakerState.
  destruct (circuitBreakers hm !! h') as [b'|] eqn:Hb'; [|done].
  destruct (bool_decide (Breaker.state b' = Breaker.open)
            && bool_decide (now - Breaker.lastFailure b' > breakerOpen)) eqn:Hc; [|done].
  simpl. destruct (decide (h' = h)) as [->|Hne]; [|by rewrite lookup_insert_ne].
  apply andb_true_iff in Hc as [Hopen%bool_decide_eq_true _].
  by destruct (Hq b' Hb').
Qed.

Lemma updatePreferredHost_lookup_quiet now hm h :
  (∀ b, circuitBreakers hm !! h = Some b → Breaker.state b ≠ Breaker.open) →
  circuitBreakers (_updatePreferredHost now hm) !! h = circuitBreakers hm !! h.
Proof.
  intros Hq. unfold _updatePreferredHost.
  assert (Hfold : circuitBreakers (snd (fold_left (scoreStep now) (hosts hm) (None, hm))) !! h
                  = circuitBreakers hm !! h).
  { apply (fold_left_preserves
             (fun acc => circuitBreakers (snd acc) !! h = circuitBreakers hm !! h)); [done|].
    intros [best s] e Hs. rewrite scoreStep_spec. cbn [snd] in *.
    rewrite query_lookup_quiet; [done|]. rewrite Hs. exact Hq. }
  destruct (fold_left (scoreStep now) (hosts hm) (None, hm)) as [[[bh bs]|] hm1];
    simpl in Hfold; [|done].
  by destruct (truthy bh).
Qed.

Lemma resetCircuitBreaker_lookup host hm h :
  circuitBreakers (_resetCircuitBreaker host hm) !! h
  = if decide (host = h) then resetBreaker <$> circuitBreakers hm !! h
    else circuitBreakers hm !! h.
Proof.
  unfold _resetCircuitBreaker.
  destruct (circuitBreakers hm !! host) as [b|] eqn:Hb; cbn.
  - destruct (decide (host = h)) as [->|Hne].
    + by rewrite lookup_insert_eq, Hb.
    + by rewrite lookup_insert_ne.
  - destruct (decide (host = h)) as [->|Hne]; [by rewrite Hb | done].
Qed.

Lemma success_breaker now host rt hm :
  circuitBreakers (updateHostStatus now host true rt hm) !! host
  = resetBreaker <$> circuitBreakers hm !! host.
Proof.
  unfold updateHostStatus. rewrite updatePreferredHost_lookup_quiet.
  - cbn. rewrite resetCircuitBreaker_lookup. by rewrite decide_True.
  - cbn. rewrite resetCircuitBreaker_lookup, decide_True by done.
    intros b. destruct (circuitBreakers hm !! host); [|done].
    by intros [= <-].
Qed.

Lemma success_record now host rt hm :
  omap_get host (hosts (updateHostStatus now host true rt hm))
  = Some (succeeded now rt (omap_get host (hosts hm))).
Proof.
  destruct (ExecutorFacts.updateHostStatus_success_hosts now host rt hm) as [-> _].
  apply omap_get_set_eq.
Qed.

Lemma success_stateAt now now' host rt hm :
  stateAt now' (updateHostStatus now host true rt hm) host = Breaker.closed.
Proof.
  rewrite stateAt_lookup, success_breaker.
  by destruct (circuitBreakers hm !! host).
Qed.

(** *** The members of the ordered list *)

Lemma getOrderedHostList_offered now hm :
  match offered now hm with
  | [] => fst (getOrderedHostList now hm) = lastResort hm
  | _ => fst (getOrderedHostList now hm) ≡ₚ offered now hm
  end.
Proof.
  unfold getOrderedHostList, offered, lastResort.
  destruct (candidates_spec now hm) as (s' & -> & (_ & Hprim & _) & _).
  set (cands := (_ <$> preferredFirst now hm) ++ _).
  assert (Hc : host <$> sortCandidates cands
               ≡ₚ preferredFirst now hm ++ (List.filter (otherb now hm) (hosts hm)).*1).
  { rewrite Failover.sortCandidates_perm. subst cands.
    rewrite fmap_app, host_toCandidate, <- list_fmap_compose.
    replace (host ∘ (fun p => mkCandidate p 999999)) with (@id string) by done.
    by rewrite list_fmap_id. }
  destruct (preferredFirst now hm ++ (List.filter (otherb now hm) (hosts hm)).*1)
    as [|x l] eqn:Hoff.
  - apply Permutation_nil_r in Hc.
    destruct (sortCandidates cands) as [|c cs]; [|done].
    cbn [fst]. rewrite Hprim. destruct (primaryHost hm) as [p|]; [|done].
    by destruct (truthy p).
  - destruct (sortCandidates cands) as [|c cs]; [|done].
    by apply Permutation_nil_cons in Hc.
Qed.

Lemma offered_in_list now hm h :
  h ∈ offered now hm → h ∈ fst (getOrderedHostList now hm).
Proof.
  intros Hh. pose proof (getOrderedHostList_offered now hm) as Hl.
  destruct (offered now hm) as [|x l]; [by apply elem_of_nil in Hh|].
  by rewrite Hl.
Qed.

Lemma list_in_offered now hm h :
  offered now hm ≠ [] → h ∈ fst (getOrderedHostList now hm) → h ∈ offered now hm.
Proof.
  intros Hne Hh. pose proof (getOrderedHostList_offered now hm) as Hl.
  destruct (offered now hm) as [|x l]; [done|]. by rewrite <- Hl.
Qed.

Lemma otherb_elem now hm e :
  e ∈ List.filter (otherb now hm) (hosts hm)
  ↔ e ∈ hosts hm ∧ preferredHost hm ≠ Some e.1 ∧ eligible now hm e.
Proof.
  rewrite list_elem_of_In, filter_In, <- list_elem_of_In.
  unfold otherb. rewrite andb_true_iff, negb_true_iff, bool_decide_eq_false.
  by rewrite eligibleb_spec.
Qed.

(** *** [cleanup] as a filter *)

Lemma sweptKeys_cons now k info l :
  sweptKeys now ((k, info) :: l)
  = if stale now (k, info) then k :: sweptKeys now l else sweptKeys now l.
Proof. unfold sweptKeys. cbn [List.filter]. by destruct (stale now (k, info)). Qed.

Lemma cleanupStep_stale now s k info :
  cleanupStep now s (k, info)
  = if stale now (k, info)
    then {| hosts := omap_delete k (hosts s);
            circuitBreakers := delete k (circuitBreakers s);
            primaryHost := primaryHost s; preferredHost := preferredHost s |}
    else s.
Proof. reflexivity. Qed.

Lemma filter_not_in_nil {V} (m : list (string * V)) :
  List.filter (fun e => negb (bool_decide (e.1 ∈ @nil string))) m = m.
Proof.
  induction m as [|e m IHm]; [done|]. cbn.
  rewrite bool_decide_eq_false_2 by apply not_elem_of_nil. cbn. by rewrite IHm.
Qed.

Lemma filter_not_in_cons {V} (m : list (string * V)) k ks :
  List.filter (fun e => negb (bool_decide (e.1 ∈ ks))) (omap_delete k m)
  = List.filter (fun e => negb (bool_decide (e.1 ∈ k :: ks))) m.
Proof.
  rewrite omap_delete_filter.
  induction m as [|e m IHm]; [done|]. cbn.
  destruct (decide (e.1 = k)) as [Hek|Hek].
  - rewrite (bool_decide_eq_true_2 (e.1 = k)) by done. cbn.
    rewrite (bool_decide_eq_true_2 (e.1 ∈ k :: ks)); [done|].
    apply elem_of_cons. by left.
  - rewrite (bool_decide_eq_false_2 (e.1 = k)) by done. cbn.
    rewrite IHm. destruct (decide (e.1 ∈ ks)) as [Hin|Hnin].
    + rewrite !bool_decide_eq_true_2; [done| |done].
      apply elem_of_cons. by right.
    + rewrite !bool_decide_eq_false_2; [done| |done].
      by intros [?|?]%elem_of_cons.
Qed.

Lemma cleanup_fold now l s :
  hosts (fold_left (cleanupStep now) l s)
  = List.filter (fun e => negb (bool_decide (e.1 ∈ sweptKeys now l))) (hosts s)
  ∧ (∀ h, circuitBreakers (fold_left (cleanupStep now) l s) !! h
          = if bool_decide (h ∈ sweptKeys now l) then None
            else circuitBreakers s !! h)
  ∧ primaryHost (fold_left (cleanupStep now) l s) = primaryHost s
  ∧ preferredHost (fold_left (cleanupStep now) l s) = preferredHost s.
Proof.
  revert s. induction l as [|[k info] l IH]; intros s; cbn [fold_left].
  - split_and!; try done. apply eq_sym, filter_not_in_nil.
  - destruct (IH (cleanupStep now s (k, info))) as (Hh & Hb & Hp & Hq).
    rewrite Hh, Hp, Hq. rewrite sweptKeys_cons, cleanupStep_stale.
    split_and!.
    + destruct (stale now (k, info)); [|done]. cbn [hosts]. apply filter_not_in_cons.
    + intros h. rewrite Hb, cleanupStep_stale.
      destruct (stale now (k, info)); [|done]. cbn [circuitBreakers].
      destruct (decide (h ∈ sweptKeys now l)) as [Hin|Hnin].
      * rewrite !bool_decide_eq_true_2; [done| |done].
        apply elem_of_cons. by right.
      * rewrite (bool_decide_eq_false_2 (h ∈ sweptKeys now l)) by done.
        destruct (decide (h = k)) as [->|Hne].
        -- rewrite bool_decide_eq_true_2; [apply lookup_delete_eq|].
           apply elem_of_cons. by left.
        -- rewrite bool_decide_eq_false_2; [by apply lookup_delete_ne|].
           by intros [?|?]%elem_of_cons.
    + by destruct (stale now (k, info)).
    + by destruct (stale now (k, info)).
Qed.

Lemma NoDup_keys_entry {V} (m : list (string * V)) (e e' : string * V) :
  NoDup m.*1 → e ∈ m → e' ∈ m → e.1 = e'.1 → e = e'.
Proof.
  intros Hnd He He' Hk. destruct e as [k v], e' as [k' v']. simpl in Hk. subst k'.
  pose proof (omap_get_elem_NoDup m k v Hnd He) as H1.
  pose proof (omap_get_elem_NoDup m k v' Hnd He') as H2. congruence.
Qed.

(** *** A cold start *)

Lemma query_without_breaker now h hm :
  circuitBreakers hm = ∅ → _getCircuitBreakerState now h hm = (Breaker.closed, hm).
Proof. intros Hcb. unfold _getCircuitBreakerState. by rewrite Hcb, lookup_empty. Qed.

Lemma scoreFold_without_breakers now hm l best :
  circuitBreakers hm = ∅ →
  fold_left (scoreStep now) l (best, hm) = (fold_left (chooseStep now hm) l best, hm).
Proof.
  intros Hcb. revert best. induction l as [|e l IH]; intros best; cbn [fold_left]; [done|].
  rewrite scoreStep_spec, query_without_breaker by done. apply IH.
Qed.

Lemma coldStart_elem now primary known e :
  e ∈ hosts (coldStart now primary known) ↔ ∃ h, e = (h, justSeen now) ∧ h ∈ known.
Proof. cbn. rewrite list_elem_of_fmap. done. Qed.

Lemma coldStart_eligible now now' primary known e :
  now' - now ≤ maxHostAge →
  e ∈ hosts (coldStart now primary known) → eligible now' (coldStart now primary known) e.
Proof.
  intros Hage (h & -> & _)%coldStart_elem. split; [|done].
  by rewrite stateAt_lookup.
Qed.

Lemma coldStart_preference now primary known :
  primary ∈ known →
  _updatePreferredHost now (coldStart now primary known) = coldStart now primary known.
Proof.
  intros Hin. unfold _updatePreferredHost.
  rewrite scoreFold_without_breakers by done.
  pose proof (chooseFold_firstBest now (coldStart now primary known)
                (hosts (coldStart now primary known))) as Hbest.
  assert (Hp : (primary, justSeen now) ∈ hosts (coldStart now primary known)).
  { apply coldStart_elem. by exists primary. }
  assert (Hage : now - now ≤ maxHostAge) by (unfold maxHostAge; lia).
  destruct (fold_left _ _ None) as [[h s]|]; unfold firstBest in Hbest.
  - destruct Hbest as (before & info & after & Hl & Hel & -> & Hlt & Hle).
    assert (h = primary) as ->.
    { assert (Hh : (h, info) ∈ hosts (coldStart now primary known)).
      { rewrite Hl. apply elem_of_app. right. apply elem_of_cons. by left. }
      apply coldStart_elem in Hh as (h' & [= <- ->] & _).
      destruct (decide (h = primary)) as [|Hne]; [done|]. exfalso.
      pose proof (coldStart_eligible now now primary known _ Hage Hp) as Hpe.
      rewrite Hl in Hp. unfold score in Hlt, Hle. cbn in Hlt, Hle.
      apply elem_of_app in Hp as [Hp|Hp].
      - specialize (Hlt _ Hp Hpe). cbn in Hlt.
        rewrite bool_decide_eq_true_2 in Hlt by done.
        rewrite bool_decide_eq_false_2 in Hlt by congruence. lia.
      - apply elem_of_cons in Hp as [[= ?]|Hp]; [congruence|].
        specialize (Hle _ Hp Hpe). cbn in Hle.
        rewrite bool_decide_eq_true_2 in Hle by done.
        rewrite bool_decide_eq_false_2 in Hle by congruence. lia. }
    by destruct (truthy primary).
  - destruct (Hbest _ Hp). by apply (coldStart_eligible now now primary known).
Qed.

Lemma coldStart_set now known h :
  omap_set h (justSeen now) ((fun h => (h, justSeen now)) <$> known)
  = (fun h => (h, justSeen now)) <$> (if bool_decide (h ∈ known) then known else known ++ [h]).
Proof.
  induction known as [|k known IH]; csimpl.
  - done.
  - destruct (decide (k = h)) as [->|Hne].
    + rewrite bool_decide_eq_true_2; [done|]. apply elem_of_cons. by left.
    + rewrite IH. destruct (decide (h ∈ known)) as [Hin|Hnin].
      * rewrite !bool_decide_eq_true_2; [done| |done]. apply elem_of_cons. by right.
      * rewrite !bool_decide_eq_false_2; [done| |done].
        by intros [?|?]%elem_of_cons.
Qed.

Lemma coldStart_get now primary known h :
  Host.lastFailure (default Host.fresh (omap_get h (hosts (coldStart now primary known))))
  = None.
Proof.
  destruct (omap_get h (hosts (coldStart now primary known))) as [i|] eqn:Hi; [|done].
  apply omap_get_Some_elem, coldStart_elem in Hi as (h' & [= _ ->] & _). done.
Qed.

Lemma coldStart_success now primary known h :
  primary ∈ known ∨ h = primary →
  updateHostStatus now h true 0 (coldStart now primary known)
  = coldStart now primary (if bool_decide (h ∈ known) then known else known ++ [h]).
Proof.
  intros Hin. unfold updateHostStatus. rewrite coldStart_get.
  change (_resetCircuitBreaker h (coldStart now primary known))
    with (coldStart now primary known).
  change (with_hosts ?hs (coldStart now primary known))
    with {| hosts := hs; circuitBreakers := ∅;
            primaryHost := Some primary; preferredHost := Some primary |}.
  change (hosts (coldStart now primary known))
    with ((fun h => (h, justSeen now)) <$> known).
  change {| Host.lastSeen := now; Host.responseTime := 0; Host.failureCount := 0;
            Host.status := Host.healthy; Host.lastFailure := None |}
    with (justSeen now).
  rewrite coldStart_set.
  apply (coldStart_preference now primary
           (if bool_decide (h ∈ known) then known else known ++ [h])).
  case_bool_decide as Hk.
  - destruct Hin as [?| ->]; done.
  - destruct Hin as [?| ->]; apply elem_of_app; [by left|right].
    by apply list_elem_of_singleton.
Qed.

Lemma registerBackup_spec primary known h :
  primary ∈ known →
  registerBackup primary known h
  = if truthy h && negb (String.eqb h primary)
    then (if bool_decide (h ∈ known) then known else known ++ [h])
    else known.
Proof.
  intros _. unfold registerBackup.
  destruct (truthy h && negb (h =? primary)%string); simpl; [|done].
  by case_bool_decide.
Qed.

Lemma registerBackup_head primary known h :
  (∃ rest, known = primary :: rest) → NoDup known →
  (∃ rest, registerBackup primary known h = primary :: rest)
  ∧ NoDup (registerBackup primary known h).
Proof.
  intros [rest ->] Hnd. unfold registerBackup.
  destruct (truthy h && negb (h =? primary)%string
            && negb (bool_decide (h ∈ primary :: rest))) eqn:Hc.
  - split; [by exists (rest ++ [h])|].
    apply andb_true_iff in Hc as [_ Hc%negb_true_iff%bool_decide_eq_false].
    apply NoDup_app. split_and!; [done| |apply NoDup_singleton].
    by intros x Hx ->%list_elem_of_singleton.
  - split; [by exists rest | done].
Qed.

Lemma registered_head primary initialHosts :
  (∃ rest, registered primary initialHosts = primary :: rest)
  ∧ NoDup (registered primary initialHosts).
Proof.
  unfold registered.
  apply (fold_left_preserves
           (fun known => (∃ rest, known = primary :: rest) ∧ NoDup known)).
  - split; [by exists [] | apply NoDup_singleton].
  - intros known h [Hhead Hnd]. by apply registerBackup_head.
Qed.

Lemma registered_elem primary initialHosts h :
  h ∈ registered primary initialHosts
  ↔ h = primary ∨ (h ∈ initialHosts ∧ truthy h = true).
Proof.
  unfold registered.
  assert (Hgen : ∀ known,
    h ∈ fold_left (registerBackup primary) initialHosts known
    ↔ h ∈ known ∨ (h ∈ initialHosts ∧ truthy h = true ∧ h ≠ primary)).
  { induction initialHosts as [|x l IH]; intros known; cbn [fold_left].
    - split; [by left|]. intros [?|[?%elem_of_nil _]]; done.
    - rewrite IH. unfold registerBackup.
      destruct (truthy x) eqn:Htx; simpl.
      + destruct (String.eqb_spec x primary) as [->|Hxp]; simpl.
        * rewrite elem_of_cons. split; [tauto|]. intros [?|[[->|?] [? ?]]]; tauto.
        * case_bool_decide as Hk; simpl.
          -- rewrite elem_of_cons. split; [tauto|].
             intros [?|[[->|?] [? ?]]]; tauto.
          -- rewrite elem_of_app, list_elem_of_singleton, elem_of_cons.
             split; [|tauto]. intros [[?| ->]|?]; tauto.
      + rewrite elem_of_cons. split; [tauto|].
        intros [?|[[->|?] [? ?]]]; [tauto|congruence|tauto]. }
  rewrite Hgen, list_elem_of_singleton.
  destruct (decide (h = primary)); tauto.
Qed.

Lemma registered_plain primary initialHosts :
  NoDup initialHosts → primary ∉ initialHosts →
  (∀ h, h ∈ initialHosts → truthy h = true) →
  registered primary initialHosts = primary :: initialHosts.
Proof.
  intros Hnd Hp Ht. unfold registered.
  assert (Hgen : ∀ known,
    primary ∈ known → (∀ h, h ∈ initialHosts → h ∉ known) →
    fold_left (registerBackup primary) initialHosts known = known ++ initialHosts).
  { induction initialHosts as [|x l IH]; intros known Hk Hfresh; cbn [fold_left].
    - by rewrite app_nil_r.
    - apply NoDup_cons in Hnd as [Hx Hnd].
      apply not_elem_of_cons in Hp as [Hxp Hp].
      assert (registerBackup primary known x = known ++ [x]) as ->.
      { unfold registerBackup. rewrite Ht by (apply elem_of_cons; by left).
        destruct (String.eqb_spec x primary) as [->|_]; [done|]. simpl.
        rewrite bool_decide_eq_false_2; [done|]. apply Hfresh, elem_of_cons. by left. }
      rewrite IH; try done.
      + by rewrite <- app_assoc.
      + intros h Hh. apply Ht, elem_of_cons. by right.
      + apply elem_of_app. by left.
      + intros h Hh [Hin| ->%list_elem_of_singleton]%elem_of_app; [|done].
        apply (Hfresh h); [|done]. apply elem_of_cons. by right. }
  rewrite Hgen; [done| |].
  - by apply list_elem_of_singleton.
  - intros h Hh ->%list_elem_of_singleton. done.
Qed.

Lemma initialize_coldStart now primary initialHosts :
  initialize now primary initialHosts new
  = coldStart now primary (registered primary initialHosts).
Proof.
  unfold initialize, registered.
  change {| hosts := hosts new; circuitBreakers := circuitBreakers new;
            primaryHost := Some primary; preferredHost := Some primary |}
    with (coldStart now primary []).
  rewrite coldStart_success by (by right).
  rewrite bool_decide_eq_false_2 by apply not_elem_of_nil. cbn [app].
  assert (Hgen : ∀ known, primary ∈ known →
    fold_left
      (fun acc host =>
         if truthy host && negb (String.eqb host primary)
         then updateHostStatus now host true 0 acc else acc)
      initialHosts (coldStart now primary known)
    = coldStart now primary (fold_left (registerBackup primary) initialHosts known)).
  { induction initialHosts as [|x l IH]; intros known Hk; cbn [fold_left]; [done|].
    rewrite registerBackup_spec by done.
    destruct (truthy x && negb (x =? primary)%string).
    - rewrite coldStart_success by (by left). apply IH.
      case_bool_decide; [done|]. apply elem_of_app. by left.
    - by apply IH. }
  apply Hgen. by apply list_elem_of_singleton.
Qed.

Lemma byLatency_level (l : list (string * Host.t)) c :
  (∀ e, e ∈ l → Host.responseTime e.2 = c) → byLatency l = l.
Proof.
  induction l as [|e l IH]; intros Hc; [done|].
  unfold byLatency in *. cbn [foldr]. rewrite IH.
  - destruct l as [|d l]; [done|]. cbn.
    rewrite bool_decide_eq_true_2; [done|].
    rewrite (Hc e), (Hc d); [lia| |]; rewrite !elem_of_cons; tauto.
  - intros d Hd. apply Hc, elem_of_cons. by right.
Qed.

Lemma coldStart_list now now' primary rest :
  truthy primary = true → NoDup (primary :: rest) → now' - now < recentHost →
  fst (getOrderedHostList now' (coldStart now primary (primary :: rest)))
  = primary :: rest.
Proof.
  intros Htp [Hp Hnd]%NoDup_cons Hage.
  set (hm := coldStart now primary (primary :: rest)).
  destruct (Ordering.ranked_result now' hm) as (s' & _ & _ & ->).
  { intros e (h & -> & _)%coldStart_elem. done. }
  cbn [fst]. unfold ranked.
  assert (Hpf : preferredFirst now' hm = [primary]).
  { apply Ordering.preferredFirst_spec. split_and!; [done|done|].
    exists (justSeen now). subst hm. cbn. rewrite decide_True by done.
    split_and!; [done| |unfold recentHost in Hage; cbn; lia].
    by rewrite stateAt_lookup. }
  assert (Hothers : List.filter (otherb now' hm) (hosts hm)
                    = (fun h => (h, justSeen now)) <$> rest).
  { subst hm. cbn [coldStart hosts]. csimpl. unfold otherb at 1. cbn.
    rewrite bool_decide_eq_true_2 by done. cbn.
    assert (Hall : ∀ l, (∀ h, h ∈ l → h ≠ primary) →
      List.filter (otherb now' (coldStart now primary (primary :: rest)))
        ((fun h => (h, justSeen now)) <$> l) = (fun h => (h, justSeen now)) <$> l).
    { induction l as [|x l IH]; intros Hl; csimpl; [done|].
      unfold otherb at 1. cbn.
      rewrite bool_decide_eq_false_2
        by (intros [= ?]; apply (Hl x); [apply elem_of_cons; by left | done]).
      unfold eligibleb. rewrite stateAt_lookup. cbn. rewrite lookup_empty. cbn.
      rewrite (bool_decide_eq_false_2 (now' - now > maxHostAge))
        by (unfold recentHost, maxHostAge in *; lia).
      cbn. f_equal. apply IH. intros h Hh. apply Hl, elem_of_cons. by right. }
    apply Hall. intros h Hh ->. done. }
  rewrite Hpf, Hothers.
  rewrite (byLatency_level _ 0).
  - cbn [app]. f_equal. rewrite <- list_fmap_compose. apply list_fmap_id.
  - intros e (h & -> & _)%list_elem_of_fmap. done.
Qed.

(** *** A host in good standing stays so while no failure is recorded for it *)

Lemma getOrderedHostList_leaves now hm :
  snd (getOrderedHostList now hm) = snd (candidates now hm).
Proof.
  unfold getOrderedHostList. destruct (candidates now hm) as [cands hm1].
  destruct (sortCandidates cands); [|done].
  destruct (primaryHost hm1) as [p|]; [|done]. by destruct (truthy p).
Qed.

Lemma getOrderedHostList_lookup_quiet now hm h :
  (∀ b, circuitBreakers hm !! h = Some b → Breaker.state b ≠ Breaker.open) →
  circuitBreakers (snd (getOrderedHostList now hm)) !! h = circuitBreakers hm !! h.
Proof.
  intros Hq. rewrite getOrderedHostList_leaves.
  apply (candidates_keeps
           (fun s => circuitBreakers s !! h = circuitBreakers hm !! h)); [|done].
  intros now' h' s Hs. rewrite query_lookup_quiet; [done|]. by rewrite Hs.
Qed.

Lemma omap_get_filter_key {V} (f : string → bool) (m : list (string * V)) h :
  omap_get h (List.filter (fun e => f e.1) m) = if f h then omap_get h m else None.
Proof.
  induction m as [|[k v] m IH]; cbn; [by destruct (f h)|].
  destruct (f k) eqn:Hk; cbn.
  - destruct (decide (k = h)) as [->|Hne]; [by rewrite Hk | done].
  - rewrite IH. destruct (decide (k = h)) as [->|Hne]; [by rewrite Hk | done].
Qed.

Lemma closed_is_quiet hm h :
  (∀ b, circuitBreakers hm !! h = Some b → Breaker.state b = Breaker.closed) →
  ∀ b, circuitBreakers hm !! h = Some b → Breaker.state b ≠ Breaker.open.
Proof. intros Hc b Hb. by rewrite (Hc b Hb). Qed.

Lemma success_inGoodStanding host since now h rt s :
  since ≤ now → NoDup (hosts s).*1 →
  (h ≠ host → inGoodStanding host since s) →
  inGoodStanding host since (updateHostStatus now h true rt s).
Proof.
  intros Hnow Hnd Hother. split_and!.
  - by apply Reachable.updateHostStatus_keys.
  - destruct (decide (h = host)) as [->|Hne].
    + eexists. split; [apply success_record | done].
    + destruct (Hother Hne) as (_ & (i & Hi & Hseen) & _). exists i. split; [|done].
      destruct (ExecutorFacts.updateHostStatus_success_hosts now h rt s) as [-> _].
      by rewrite omap_get_set_ne.
  - destruct (decide (h = host)) as [->|Hne].
    + intros b. rewrite success_breaker.
      destruct (circuitBreakers s !! host); [|done]. by intros [= <-].
    + destruct (Hother Hne) as (_ & _ & Hc).
      assert (Hsame : circuitBreakers (updateHostStatus now h true rt s) !! host
                      = circuitBreakers s !! host).
      { unfold updateHostStatus. rewrite updatePreferredHost_lookup_quiet.
        - cbn. rewrite resetCircuitBreaker_lookup. by rewrite decide_False.
        - cbn. rewrite resetCircuitBreaker_lookup, decide_False by done.
          by apply closed_is_quiet. }
      by rewrite Hsame.
Qed.

Lemma initialize_inGoodStanding host since now primary initialHosts s :
  since ≤ now → inGoodStanding host since s →
  inGoodStanding host since (initialize now primary initialHosts s).
Proof.
  intros Hnow Hinv. unfold initialize.
  apply (fold_left_preserves (inGoodStanding host since)).
  - apply success_inGoodStanding; [done|apply Hinv|]. intros _. exact Hinv.
  - intros acc h Hacc. destruct (truthy h && negb (h =? primary)%string); [|done].
    apply success_inGoodStanding; [done|apply Hacc|done].
Qed.

Lemma cleanup_inGoodStanding host since now s :
  now - since ≤ maxHostAge → inGoodStanding host since s →
  inGoodStanding host since (cleanup now s).
Proof.
  intros Hage (Hnd & (i & Hi & Hseen) & Hc). unfold cleanup.
  destruct (cleanup_fold now (hosts s) s) as (Hh & Hb & _).
  split_and!.
  - exact (Reachable.apply_keys s (Cleanup now) Hnd).
  - exists i. split; [|done]. rewrite Hh.
    pose proof (omap_get_filter_key
                  (fun k => negb (bool_decide (k ∈ sweptKeys now (hosts s))))
                  (hosts s) host) as Hf.
    cbn beta in Hf. rewrite Hf. clear Hf.
    rewrite bool_decide_eq_false_2; [done|].
    intros (e & Hk & He)%list_elem_of_fmap.
    apply list_elem_of_In, filter_In in He as [He Hst]. apply list_elem_of_In in He.
    assert (e = (host, i)) as ->.
    { apply (NoDup_keys_entry (hosts s)); [done|done| |done].
      by apply omap_get_Some_elem. }
    unfold stale in Hst. apply bool_decide_eq_true in Hst. cbn in Hst. lia.
  - intros b. rewrite Hb. case_bool_decide; [done|]. apply Hc.
Qed.

Lemma apply_inGoodStanding host since till op s :
  till - since ≤ maxHostAge →
  sparesHost host since till op →
  inGoodStanding host since s → inGoodStanding host since (apply s op).
Proof.
  intros Hwin Hop Hinv.
  destruct op as [now primary initialHosts|h|now h success rt|now h|now|now];
    cbn [apply sparesHost] in *.
  - apply initialize_inGoodStanding; [lia|done].
  - destruct Hinv as (Hnd & (i & Hi & Hseen) & Hc). split_and!.
    + exact (Reachable.apply_keys s (SetPrimaryHost h) Hnd).
    + exists i. split; [|done]. unfold setPrimaryHost, _resetCircuitBreaker. cbn.
      by destruct (circuitBreakers s !! h).
    + intros b. unfold setPrimaryHost. cbn. rewrite resetCircuitBreaker_lookup. cbn.
      destruct (decide (h = host)) as [->|Hne]; [|apply Hc].
      destruct (circuitBreakers s !! host); [|done]. by intros [= <-].
  - destruct Hop as [Hnow Hfail]. destruct success.
    + apply success_inGoodStanding; [lia|apply Hinv|done].
    + specialize (Hfail eq_refl). destruct Hinv as (Hnd & (i & Hi & Hseen) & Hc).
      split_and!.
      * by apply Reachable.updateHostStatus_keys.
      * exists i. split; [|done]. rewrite BreakerFacts.updateHostStatus_failure. cbn.
        by rewrite omap_get_set_ne.
      * intros b. rewrite BreakerFacts.updateHostStatus_failure. cbn.
        rewrite lookup_insert_ne by done. apply Hc.
  - destruct Hinv as (Hnd & (i & Hi & Hseen) & Hc).
    destruct (query_sameView now h s) as (Hh & _). split_and!.
    + by rewrite Hh.
    + exists i. by rewrite Hh.
    + intros b. rewrite query_lookup_quiet; [apply Hc | by apply closed_is_quiet].
  - destruct Hinv as (Hnd & (i & Hi & Hseen) & Hc).
    destruct (ExecutorFacts.getOrderedHostList_sameView now s) as (Hh & _). split_and!.
    + by rewrite Hh.
    + exists i. by rewrite Hh.
    + intros b. rewrite getOrderedHostList_lookup_quiet;
        [apply Hc | by apply closed_is_quiet].
  - apply cleanup_inGoodStanding; [lia|done].
Qed.

Lemma run_inGoodStanding host since till ops s :
  till - since ≤ maxHostAge →
  Forall (sparesHost host since till) ops →
  inGoodStanding host since s → inGoodStanding host since (run ops s).
Proof.
  intros Hwin Hops. revert s. unfold run.
  induction Hops as [|op ops Hop Hops IH]; intros s Hinv; cbn [fold_left]; [done|].
  apply IH. by apply (apply_inGoodStanding host since till).
Qed.

(** *** Reads of a registry without breakers change nothing *)

Lemma reads_without_breakers reads hm :
  circuitBreakers hm = ∅ → Forall isRead reads → run reads hm = hm.
Proof.
  intros Hcb Hreads. unfold run.
  induction Hreads as [|op ops Hop Hops IH]; cbn [fold_left]; [done|].
  assert (apply hm op = hm) as ->; [|exact IH].
  destruct op as [| | |now h|now|]; cbn in Hop; try done; cbn [apply].
  - by rewrite query_without_breaker.
  - rewrite getOrderedHostList_leaves.
    apply (candidates_keeps (fun s => s = hm)); [|done].
    intros now' h' s ->. by rewrite query_without_breaker.
Qed.

End LifecycleFacts.

Module Lifecycle.
Import RegistrySpec LifecycleSpec HostManager RegistryFacts OrderingFacts Invariants
  LifecycleFacts.

(** X1.  Immediate forgiveness.  Whatever the registry held for a host, once a
    success is recorded for it the host's record reads: seen now, the given
    response time, no failure, healthy; its breaker, if it has one, is closed
    with a count of zero, and every later query of it answers closed until a
    failure is recorded. *)
Theorem success_forgives (now : Z) (host : string) (responseTime : Z) (hm : t) :
  omap_get host (hosts (updateHostStatus now host true responseTime hm))
  = Some (succeeded now responseTime (omap_get host (hosts hm)))
  ∧ circuitBreakers (updateHostStatus now host true responseTime hm) !! host
    = resetBreaker <$> circuitBreakers hm !! host
  ∧ ∀ now', stateAt now' (updateHostStatus now host true responseTime hm) host
            = Breaker.closed.
Proof.
  split_and!.
  - apply success_record.
  - apply success_breaker.
  - intros now'. apply success_stateAt.
Qed.

(** X2.  A host for which a success was recorded at time [since] is in the
    ordered list read at time [till], less than 120000 ms later, whatever the
    registry held before and whatever was done to it in between, provided
    that each operation in between ran at a time from [since] to [till] and
    none of them recorded a failure for that host (host map without duplicate
    keys, host name not empty). *)
Theorem succeeded_host_is_offered (since till : Z) (host : string) (responseTime : Z)
    (hm : t) (between : list Op) :
  truthy host = true → till - since < 120000 →
  NoDup (hosts hm).*1 →
  Forall (sparesHost host since till) between →
  host ∈ fst (getOrderedHostList till
                (run between (updateHostStatus since host true responseTime hm))).
Proof.
  intros Ht Hage Hnd Hbetween. apply offered_in_list. unfold offered.
  set (s := run between (updateHostStatus since host true responseTime hm)).
  assert (Hinv : inGoodStanding host since s).
  { apply (run_inGoodStanding host since till); [unfold maxHostAge; lia|done|].
    apply success_inGoodStanding; [lia|done|done]. }
  destruct Hinv as (_ & (i & Hi & Hseen) & Hc).
  assert (Hst : stateAt till s host = Breaker.closed).
  { rewrite stateAt_lookup. destruct (circuitBreakers s !! host) as [b|] eqn:Hb; [|done].
    cbn. rewrite (Hc b eq_refl). done. }
  apply elem_of_app.
  destruct (decide (preferredHost s = Some host)) as [Hpref|Hpref].
  - left.
    assert (Hpf : preferredFirst till s = [host]).
    { apply Ordering.preferredFirst_spec. split_and!; [done|done|].
      exists i. split; [done|]. rewrite Hst. split; [done|]. lia. }
    rewrite Hpf. by apply list_elem_of_singleton.
  - right. apply list_elem_of_fmap. exists (host, i). split; [done|].
    apply otherb_elem. split_and!; [|done|].
    + by apply omap_get_Some_elem.
    + split; cbn [fst snd]; [by rewrite Hst | unfold maxHostAge; lia].
Qed.

(** X3.  In a registry built by its own operations, a failure recorded for a
    host whose breaker is open or half-open leaves the breaker open with its
    clock restarted: the count goes up by one, the failure time is the time of
    this failure, and queries answer open for the next 60000 ms.  One failed
    probe of a half-open host thus shuts it out for a full period again. *)
Theorem failure_reopens_breaker (ops : list Op) (now now' : Z) (host : string)
    (responseTime : Z) (b : Breaker.t) :
  circuitBreakers (run ops new) !! host = Some b →
  Breaker.state b ≠ Breaker.closed →
  now' - now ≤ 60000 →
  circuitBreakers (updateHostStatus now host false responseTime (run ops new)) !! host
  = Some {| Breaker.failures := Breaker.failures b + 1;
            Breaker.lastFailure := now; Breaker.state := Breaker.open |}
  ∧ stateAt now' (updateHostStatus now host false responseTime (run ops new)) host
    = Breaker.open.
Proof.
  intros Hb Hst Hage.
  pose proof (run_trippedUnlessClosed ops host b Hb Hst) as Hn.
  assert (Hlk : circuitBreakers
                  (updateHostStatus now host false responseTime (run ops new)) !! host
                = Some {| Breaker.failures := Breaker.failures b + 1;
                          Breaker.lastFailure := now; Breaker.state := Breaker.open |}).
  { rewrite BreakerFacts.breaker_after_failure, Hb. cbn. unfold afterFailure. f_equal.
    f_equal. rewrite (bool_decide_eq_true_2 (3 ≤ Breaker.failures b + 1)) by lia.
    case_bool_decide as Ho; cbn; done. }
  split; [done|]. rewrite stateAt_lookup, Hlk. cbn.
  rewrite (bool_decide_eq_false_2 (now' - now > breakerOpen));
    [done | unfold breakerOpen; lia].
Qed.

(** X4.  [cleanup] on a host map without duplicate keys removes exactly the
    hosts last seen more than 300000 ms ago and keeps the others, with their
    records, in their order; the breakers of the removed hosts are deleted and
    no other breaker is touched; the primary and the preferred host stay as
    they were, even when the host they name was removed. *)
Theorem cleanup_sweeps_stale (now : Z) (hm : t) :
  NoDup (hosts hm).*1 →
  hosts (cleanup now hm) = List.filter (fun e => negb (stale now e)) (hosts hm)
  ∧ (∀ h, circuitBreakers (cleanup now hm) !! h
          = match omap_get h (hosts hm) with
            | Some info => if stale now (h, info) then None else circuitBreakers hm !! h
            | None => circuitBreakers hm !! h
            end)
  ∧ primaryHost (cleanup now hm) = primaryHost hm
  ∧ preferredHost (cleanup now hm) = preferredHost hm.
Proof.
  intros Hnd. unfold cleanup.
  destruct (cleanup_fold now (hosts hm) hm) as (Hh & Hb & Hp & Hq).
  assert (Hswept : ∀ e, e ∈ hosts hm →
            (e.1 ∈ sweptKeys now (hosts hm) ↔ stale now e = true)).
  { intros e He. unfold sweptKeys. rewrite list_elem_of_fmap. split.
    - intros (e' & Hk & He'). apply list_elem_of_In, filter_In in He' as [He' Hs].
      apply list_elem_of_In in He'.
      by rewrite (NoDup_keys_entry (hosts hm) e e' Hnd He He' Hk).
    - intros Hs. exists e. split; [done|]. apply list_elem_of_In, filter_In.
      split; [by apply list_elem_of_In | done]. }
  split_and!; [|intros h|done|done].
  - rewrite Hh. apply filter_ext_in. intros e He%list_elem_of_In.
    destruct (stale now e) eqn:Hs.
    + rewrite bool_decide_eq_true_2; [done|]. by apply Hswept.
    + rewrite bool_decide_eq_false_2; [done|]. rewrite (Hswept e He). congruence.
  - rewrite Hb. destruct (omap_get h (hosts hm)) as [info|] eqn:Hi.
    + apply omap_get_Some_elem in Hi.
      destruct (stale now (h, info)) eqn:Hs.
      * rewrite bool_decide_eq_true_2; [done|]. by apply (Hswept (h, info)).
      * rewrite bool_decide_eq_false_2; [done|]. rewrite (Hswept (h, info) Hi). congruence.
    + rewrite bool_decide_eq_false_2; [done|].
      apply omap_get_None_keys in Hi. intros (e & -> & He)%list_elem_of_fmap.
      apply Hi, list_elem_of_fmap. exists e. split; [done|].
      apply list_elem_of_In. apply list_elem_of_In, filter_In in He. tauto.
Qed.

(** X5.  In a registry built by its own operations every circuit breaker
    belongs to a host that has a record: the breaker map never outgrows the
    host map, and sweeping a host leaves no breaker behind. *)
Theorem breaker_has_host_record (ops : list Op) (h : string) :
  is_Some (circuitBreakers (run ops new) !! h) → h ∈ (hosts (run ops new)).*1.
Proof. apply run_breakersBelongToHosts. Qed.

(** X6.  When the primary is re-pointed at a host the registry has no record
    of, that host is in no ordered list as long as some known host is
    eligible (not open when read, seen at most 300000 ms ago): the list is
    then made of the known hosts only. *)
Theorem unknown_new_primary_is_left_out (now : Z) (host : string) (hm : t)
    (e : string * Host.t) :
  host ∉ (hosts hm).*1 →
  e ∈ hosts hm → eligible now hm e →
  (host ∉ fst (getOrderedHostList now (setPrimaryHost host hm)))
  ∧ e.1 ∈ fst (getOrderedHostList now (setPrimaryHost host hm)).
Proof.
  intros Hunknown He Hel.
  set (hm' := setPrimaryHost host hm).
  assert (Hhosts : hosts hm' = hosts hm).
  { subst hm'. unfold setPrimaryHost, _resetCircuitBreaker. cbn.
    by destruct (circuitBreakers hm !! host). }
  assert (Hpref : preferredHost hm' = Some host) by done.
  assert (Hne : e.1 ≠ host).
  { intros Heq. apply Hunknown. rewrite <- Heq. apply list_elem_of_fmap. by exists e. }
  assert (Hstate : stateAt now hm' e.1 = stateAt now hm e.1).
  { rewrite !stateAt_lookup. subst hm'. unfold setPrimaryHost. cbn.
    rewrite resetCircuitBreaker_lookup. cbn. by rewrite decide_False. }
  assert (Hpf : preferredFirst now hm' = []).
  { unfold preferredFirst. rewrite Hpref, Hhosts.
    by rewrite (proj2 (omap_get_None_keys (hosts hm) host) Hunknown). }
  assert (Hin : e.1 ∈ offered now hm').
  { unfold offered. rewrite Hpf. cbn [app]. apply list_elem_of_fmap. exists e.
    split; [done|]. apply otherb_elem. rewrite Hhosts, Hpref. split_and!; [done|congruence|].
    destruct Hel as [Hs Ha]. split; [by rewrite Hstate | done]. }
  split; [|by apply offered_in_list].
  intros Hhost. apply list_in_offered in Hhost.
  - unfold offered in Hhost. rewrite Hpf in Hhost. cbn [app] in Hhost.
    apply list_elem_of_fmap in Hhost as (e' & -> & He').
    apply otherb_elem in He' as (He' & _). rewrite Hhosts in He'.
    apply Hunknown, list_elem_of_fmap. by exists e'.
  - intros Hnil. rewrite Hnil in Hin. by apply elem_of_nil in Hin.
Qed.

(** X7.  When the primary is re-pointed at a known host that was seen less
    than 120000 ms ago, that host heads the next ordered list even if its
    breaker was open: the breaker is reset on the way (host name not empty,
    response times not negative). *)
Theorem known_new_primary_goes_first (now : Z) (host : string) (hm : t) (info : Host.t) :
  truthy host = true →
  omap_get host (hosts hm) = Some info →
  now - Host.lastSeen info < 120000 →
  (∀ e, e ∈ hosts hm → 0 ≤ Host.responseTime e.2) →
  head (fst (getOrderedHostList now (setPrimaryHost host hm))) = Some host
  ∧ stateAt now (setPrimaryHost host hm) host = Breaker.closed.
Proof.
  intros Ht Hinfo Hage Hrt.
  set (hm' := setPrimaryHost host hm).
  assert (Hhosts : hosts hm' = hosts hm).
  { subst hm'. unfold setPrimaryHost, _resetCircuitBreaker. cbn.
    by destruct (circuitBreakers hm !! host). }
  assert (Hstate : stateAt now hm' host = Breaker.closed).
  { rewrite stateAt_lookup. subst hm'. unfold setPrimaryHost. cbn.
    rewrite resetCircuitBreaker_lookup. cbn. rewrite decide_True by done.
    by destruct (circuitBreakers hm !! host). }
  split; [|done].
  destruct (Ordering.ranked_result now hm') as (s' & _ & _ & ->).
  { by rewrite Hhosts. }
  cbn [fst]. unfold ranked.
  assert (Hpf : preferredFirst now hm' = [host]).
  { apply Ordering.preferredFirst_spec. split_and!; [done|done|].
    exists info. rewrite Hhosts, Hstate. done. }
  by rewrite Hpf.
Qed.

(** X8.  Cold start.  After [initialize] on a new registry, and as long as
    the registry has only been read since (no outcome recorded, no sweep, no
    change of the primary), the ordered list read less than 120000 ms after
    the initialization is the primary followed by the backup hosts in the
    order in which they were given, leaving out empty names, the primary
    itself and repetitions.  For a list of distinct, non-empty backup hosts
    other than the primary it is the primary followed by that list. *)
Theorem cold_start_order (now now' : Z) (primary : string) (initialHosts : list string)
    (reads : list Op) :
  truthy primary = true → now' - now < 120000 →
  Forall isRead reads →
  fst (getOrderedHostList now' (run reads (initialize now primary initialHosts new)))
  = registered primary initialHosts
  ∧ (∀ h, h ∈ registered primary initialHosts
          ↔ h = primary ∨ (h ∈ initialHosts ∧ truthy h = true))
  ∧ NoDup (registered primary initialHosts)
  ∧ (NoDup initialHosts → primary ∉ initialHosts →
     (∀ h, h ∈ initialHosts → truthy h = true) →
     registered primary initialHosts = primary :: initialHosts).
Proof.
  intros Ht Hage Hreads. split_and!.
  - rewrite initialize_coldStart, reads_without_breakers by done.
    destruct (registered_head primary initialHosts) as [[rest Hr] Hnd].
    rewrite Hr in *. by apply coldStart_list.
  - apply registered_elem.
  - apply registered_head.
  - apply registered_plain.
Qed.

End Lifecycle.

(** ** Reading the ordered list twice *)

Module RepeatFacts.
Import RegistrySpec LifecycleSpec HostManager RegistryFacts OrderingFacts.

Lemma query_settled_id now h s :
  settled now s h → snd (_getCircuitBreakerState now h s) = s.
Proof.
  unfold settled, stateAt, _getCircuitBreakerState. intros Hs.
  destruct (circuitBreakers s !! h) as [b|]; [|done].
  specialize (Hs b eq_refl).
  destruct (bool_decide (Breaker.state b = Breaker.open)
            && bool_decide (now - Breaker.lastFailure b > breakerOpen)) eqn:Hc; [|done].
  apply andb_true_iff in Hc as [Hopen%bool_decide_eq_true _]. cbn in Hs. congruence.
Qed.

Lemma preferredCandidate_state now hm :
  snd (preferredCandidate now hm)
  = match preferredHost hm with
    | Some p => if truthy p then snd (_getCircuitBreakerState now p hm) else hm
    | None => hm
    end.
Proof.
  unfold preferredCandidate. destruct (preferredHost hm) as [p|]; [|done].
  destruct (truthy p); [|done].
  destruct (_getCircuitBreakerState now p hm) as [st s1].
  destruct (omap_get p (hosts hm)); [|done]. by destruct (_ && _).
Qed.

Lemma otherFold_state now l :
  ∀ cands s,
    preferredHost (snd (fold_left (otherStep now) l (cands, s))) = preferredHost s
    ∧ (∀ h, settled now s h → settled now (snd (fold_left (otherStep now) l (cands, s))) h)
    ∧ (∀ e, e ∈ l → preferredHost s ≠ Some e.1 →
            settled now (snd (fold_left (otherStep now) l (cands, s))) e.1).
Proof.
  induction l as [|e l IH]; intros cands s; cbn [fold_left].
  - split_and!; [done|done|]. by intros e ?%elem_of_nil.
  - rewrite otherStep_spec.
    set (s1 := if bool_decide (preferredHost s = Some e.1) then s
               else snd (_getCircuitBreakerState now e.1 s)).
    assert (Hp1 : preferredHost s1 = preferredHost s).
    { subst s1. case_bool_decide; [done|].
      by destruct (query_sameView now e.1 s) as (_ & _ & -> & _). }
    assert (Hkeep : ∀ h, settled now s h → settled now s1 h).
    { subst s1. intros h Hh. case_bool_decide; [done|]. by apply query_keeps_settled. }
    destruct (IH (cands ++ (if otherb now s e then [toCandidate e] else [])) s1)
      as (Hp & Hk & Hn).
    split_and!.
    + by rewrite Hp.
    + intros h Hh. by apply Hk, Hkeep.
    + intros e' [->|He']%elem_of_cons Hne.
      * apply Hk. subst s1. rewrite bool_decide_eq_false_2 by done. apply query_settles.
      * apply Hn; [done|]. by rewrite Hp1.
Qed.

Lemma otherFold_fixed now l :
  ∀ cands s,
    (∀ e, e ∈ l → preferredHost s ≠ Some e.1 → settled now s e.1) →
    snd (fold_left (otherStep now) l (cands, s)) = s.
Proof.
  induction l as [|e l IH]; intros cands s Hs; cbn [fold_left]; [done|].
  rewrite otherStep_spec.
  assert ((if bool_decide (preferredHost s = Some e.1) then s
           else snd (_getCircuitBreakerState now e.1 s)) = s) as ->.
  { case_bool_decide as Hp; [done|]. apply query_settled_id, Hs; [|done].
    apply elem_of_cons. by left. }
  apply IH. intros e' He'. apply Hs, elem_of_cons. by right.
Qed.

Lemma getOrderedHostList_state now hm :
  snd (getOrderedHostList now hm) = snd (candidates now hm).
Proof.
  unfold getOrderedHostList. destruct (candidates now hm) as [cands hm1].
  destruct (sortCandidates cands); [|done].
  destruct (primaryHost hm1) as [p|]; [|done]. by destruct (truthy p).
Qed.

(** After a read, every breaker the read looks at is settled. *)
Lemma getOrderedHostList_settles now hm h :
  queried hm h → settled now (snd (getOrderedHostList now hm)) h.
Proof.
  intros Hq. rewrite getOrderedHostList_state. unfold candidates.
  pose proof (preferredCandidate_spec now hm) as (_ & (_ & _ & Hpref & _) & _).
  pose proof (preferredCandidate_state now hm) as Hst.
  destruct (preferredCandidate now hm) as [c0 s0]. cbn [snd] in *.
  destruct (otherFold_state now (hosts hm) c0 s0) as (_ & Hk & Hn).
  destruct Hq as [[Hp Ht]|[Hin Hne]].
  - apply Hk. rewrite Hst, Hp, Ht. apply query_settles.
  - apply list_elem_of_fmap in Hin as (e & -> & He). apply Hn; [done|]. by rewrite Hpref.
Qed.

(** A read of a registry whose queried breakers are settled changes nothing. *)
Lemma getOrderedHostList_fixed now s :
  (∀ h, queried s h → settled now s h) → snd (getOrderedHostList now s) = s.
Proof.
  intros Hs. rewrite getOrderedHostList_state. unfold candidates.
  pose proof (preferredCandidate_state now s) as Hst.
  assert (Hs0 : snd (preferredCandidate now s) = s).
  { rewrite Hst. destruct (preferredHost s) as [p|] eqn:Hp; [|done].
    destruct (truthy p) eqn:Ht; [|done]. apply query_settled_id, Hs. by left. }
  destruct (preferredCandidate now s) as [c0 s0]. cbn [snd] in Hs0. subst s0.
  apply otherFold_fixed. intros e He Hne. apply Hs. right. split; [|done].
  apply list_elem_of_fmap. by exists e.
Qed.

Lemma preferredFirst_sameView now hm s :
  sameView now hm s → preferredFirst now s = preferredFirst now hm.
Proof.
  intros (Hh & _ & Hp & Hst). unfold preferredFirst. rewrite Hh, Hp.
  destruct (preferredHost hm) as [p|]; [|done]. by rewrite Hst.
Qed.

(** The list only depends on what the registry shows at the time. *)
Lemma getOrderedHostList_sameView_list now hm s :
  sameView now hm s →
  fst (getOrderedHostList now s) = fst (getOrderedHostList now hm).
Proof.
  intros Hv. unfold getOrderedHostList.
  destruct (candidates_spec now hm) as (s1 & -> & (_ & Hp1 & _) & _).
  destruct (candidates_spec now s) as (s2 & -> & (_ & Hp2 & _) & _).
  rewrite (preferredFirst_sameView now hm s Hv).
  assert (List.filter (otherb now s) (hosts s) = List.filter (otherb now hm) (hosts hm))
    as ->.
  { destruct Hv as (Hh & Hrest). rewrite Hh. apply filter_ext.
    intros e. apply otherb_sameView. by split. }
  rewrite Hp1, Hp2. destruct Hv as (_ & -> & _).
  destruct (sortCandidates _); [|done].
  destruct (primaryHost hm) as [p|]; [|done]. by destruct (truthy p).
Qed.

End RepeatFacts.

Module Repeat.
Import RegistrySpec LifecycleSpec HostManager RegistryFacts OrderingFacts RepeatFacts.

(** X9.  Reading the ordered list is repeatable.  A read may store a
    half-open state in a breaker, but a second read at the same time answers
    the same list and changes nothing more; and the first read itself leaves
    host records, primary and preferred host as they were. *)
Theorem ordered_list_read_is_repeatable (now : Z) (hm : t) :
  getOrderedHostList now (snd (getOrderedHostList now hm)) = getOrderedHostList now hm
  ∧ hosts (snd (getOrderedHostList now hm)) = hosts hm
  ∧ primaryHost (snd (getOrderedHostList now hm)) = primaryHost hm
  ∧ preferredHost (snd (getOrderedHostList now hm)) = preferredHost hm.
Proof.
  pose proof (ExecutorFacts.getOrderedHostList_sameView now hm) as Hv.
  split; [|by destruct Hv as (? & ? & ? & _)].
  rewrite (surjective_pairing (getOrderedHostList now (snd (getOrderedHostList now hm)))).
  rewrite (surjective_pairing (getOrderedHostList now hm)) at 3.
  f_equal.
  - by apply getOrderedHostList_sameView_list.
  - apply getOrderedHostList_fixed. intros h Hq. apply getOrderedHostList_settles.
    destruct Hv as (Hh & _ & Hp & _). unfold queried in *. by rewrite Hh, Hp in Hq.
Qed.

End Repeat.

(** ** The request path, call by call *)

Module RequestPathFacts.
Import RegistrySpec DeviceSpec RequestPathSpec LifecycleSpec HostManager RegistryFacts
  OrderingFacts ProxmoxClusterDevice ExecutorFacts LifecycleFacts.

Lemma recordFailures_primaryHost net tried hm :
  primaryHost (recordFailures net tried hm) = primaryHost hm.
Proof.
  unfold recordFailures.
  apply (fold_left_preserves (fun s => primaryHost s = primaryHost hm)); [done|].
  intros s h Hs. by rewrite BreakerFacts.updateHostStatus_failure.
Qed.

Lemma request_not_built_by_executor w e :
  ProxmoxClient.request w = Rejected e → builtByExecutor e = false.
Proof.
  destruct w as [status text parsed| |]; cbn; [|by intros [= <-]..].
  destruct (ProxmoxClient.ok status); [done | by intros [= <-]].
Qed.

(** The loop over a non-empty list of hosts, in one equation. *)
Lemma tryHosts_decompose net hosts :
  hosts ≠ [] →
  ∀ le hm b,
  ∃ before last after,
    hosts = before ++ last :: after
    ∧ (∀ x, x ∈ before → retryable (wire (net x)) = true)
    ∧ (after ≠ [] → retryable (wire (net last)) = false)
    ∧ tryHosts net hosts le hm b
      = (ProxmoxClient.request (wire (net last)),
         updateHostStatus (finishedAt (net last)) last
           (isResolved (ProxmoxClient.request (wire (net last)))) 0
           (recordFailures net before hm),
         notified last (primaryHost hm) (ProxmoxClient.request (wire (net last))) b,
         before ++ [last]).
Proof.
  induction hosts as [|x rest IH]; [done|]. intros _ le hm b.
  rewrite Agreement.tryHosts_cons.
  destruct (retryable (wire (net x))) eqn:Hr.
  - destruct (attempt_retryable (finishedAt (net x)) x (wire (net x)) hm b Hr)
      as (e & Hreq & ->).
    destruct rest as [|y rest].
    + exists [], x, []. split_and!; [done| |done|].
      * by intros ? ?%elem_of_nil.
      * cbn. rewrite Hreq. cbn. unfold retryable in Hr. rewrite Hreq in Hr.
        apply negb_true_iff in Hr. by rewrite Hr.
    + destruct (IH ltac:(done) (Some e) (updateHostStatus (finishedAt (net x)) x false 0 hm) b)
        as (before & last & after & Hl & Hb & Ha & ->).
      exists (x :: before), last, after. split_and!; [by rewrite Hl| |done|].
      * intros z [->|Hz]%elem_of_cons; [done | by apply Hb].
      * by rewrite BreakerFacts.updateHostStatus_failure.
  - exists [], x, rest. split_and!; [done| |done|].
    + by intros ? ?%elem_of_nil.
    + unfold retryable in Hr. cbn [app].
      destruct (ProxmoxClient.request (wire (net x))) as [v|e] eqn:Hreq.
      * rewrite (attempt_success _ _ _ _ _ v Hreq). cbn [isResolved notified recordFailures fold_left].
        by destruct (updateHostStatus_success_hosts (finishedAt (net x)) x 0 hm) as [_ ->].
      * apply negb_false_iff in Hr.
        rewrite (attempt_client_error _ _ _ _ _ e Hreq Hr).
        cbn [isResolved notified recordFailures fold_left]. by rewrite Hr.
Qed.

(** A call, in one equation: which result it returns and what it leaves. *)
Lemma execute_cases net now storedAt r dev :
  match shortcut now r dev with
  | Some (FromCache j) =>
      _executeApiCallWithFallback net now storedAt r dev = (Served j, dev)
  | Some (Attached p) =>
      _executeApiCallWithFallback net now storedAt r dev = (Joined p, dev)
  | None =>
      ∃ o hm2 b2 tried,
        _executeApiCallWithFallback net now storedAt r dev
        = (Finished o tried,
           finish storedAt r o
             {| hostManager := hm2; requestCache := requestCache dev;
                pendingRequests := pendingRequests dev; bridge := b2;
                tasks := tasks dev; nextPromise := S (nextPromise dev) |})
  end.
Proof.
  unfold _executeApiCallWithFallback.
  destruct (shortcut now r dev) as [[j|p]|]; [done|done|].
  destruct (getOrderedHostList now (hostManager dev)) as [hosts hm1].
  destruct (match hosts with
            | [] => (Rejected NoAvailableHosts, hm1, bridge dev, [])
            | _ => tryHosts net hosts None hm1 (bridge dev)
            end) as [[[o hm2] b2] tried].
  by exists o, hm2, b2, tried.
Qed.

Lemma getOrderedHostList_members now hm h :
  h ∈ fst (getOrderedHostList now hm) → h ∈ (hosts hm).*1 ∨ primaryHost hm = Some h.
Proof.
  intros Hh. pose proof (getOrderedHostList_offered now hm) as Hl.
  destruct (offered now hm) as [|x l] eqn:Hoff.
  - right. rewrite Hl in Hh. unfold lastResort in Hh.
    destruct (primaryHost hm) as [p|]; [|by apply elem_of_nil in Hh].
    destruct (truthy p); [|by apply elem_of_nil in Hh].
    by apply list_elem_of_singleton in Hh as ->.
  - left. rewrite Hl, <- Hoff in Hh. unfold offered in Hh.
    apply elem_of_app in Hh as [Hh|Hh].
    + destruct (Ordering.preferredFirst_shape now hm) as [Hnil|[p Hp]].
      * rewrite Hnil in Hh. by apply elem_of_nil in Hh.
      * rewrite Hp in Hh. apply list_elem_of_singleton in Hh as ->.
        apply Ordering.preferredFirst_spec in Hp as (_ & _ & i & Hi & _).
        apply Invariants.omap_get_Some_elem in Hi.
        apply list_elem_of_fmap. by exists (p, i).
    + apply list_elem_of_fmap in Hh as (e & -> & He).
      apply otherb_elem in He as (He & _).
      apply list_elem_of_fmap. by exists e.
Qed.

(** *** The in-flight map holds live promises only *)

Lemma step_tracked dev ev : tracked dev → tracked (step dev ev).
Proof.
  intros [Hin Hlt]. destruct ev as [now r|now p w|now p|start now host w|now|host];
    cbn [step]; try done.
  - unfold call. destruct (shortcut now r dev); [done|].
    destruct (getOrderedHostList now (hostManager dev)) as [hs hm1]. cbn [snd].
    split.
    + intros r' p'. cbn [pendingRequests tasks].
      destruct (storesResult (options r)) eqn:Hst.
      * destruct (decide (r = r')) as [<-|Hne].
        -- rewrite lookup_insert_eq. intros [= <-]. split; [done|].
           eexists. by rewrite lookup_insert_eq.
        -- rewrite lookup_insert_ne by done. intros Hp'.
           destruct (Hin r' p' Hp') as (Hs' & task & Ht & Hr). split; [done|].
           exists task. split; [|done]. rewrite lookup_insert_ne; [done|].
           intros <-. assert (nextPromise dev < nextPromise dev)%nat by (apply Hlt; eauto).
           lia.
      * intros Hp'. destruct (Hin r' p' Hp') as (Hs' & task & Ht & Hr). split; [done|].
        exists task. split; [|done]. rewrite lookup_insert_ne; [done|].
        intros <-. assert (nextPromise dev < nextPromise dev)%nat by (apply Hlt; eauto).
        lia.
    + intros p'. cbn [tasks nextPromise].
      destruct (decide (nextPromise dev = p')) as [<-|Hne]; [lia|].
      rewrite lookup_insert_ne by done. intros Hp'. specialize (Hlt p' Hp'). lia.
  - destruct (CoalescingFacts.reply_shape now p w dev)
      as [->|(rq & h & rest & le & ph & hm' & b' & Hq & ->)]; [done|].
    split.
    + intros r' p'. cbn [pendingRequests tasks]. intros Hp'.
      destruct (Hin r' p' Hp') as (Hs' & task & Ht & Hr). split; [done|].
      destruct (decide (p = p')) as [<-|Hne].
      * rewrite lookup_insert_eq. eexists. split; [done|]. cbn.
        rewrite Hq in Ht. by injection Ht as <-.
      * rewrite lookup_insert_ne by done. by exists task.
    + intros p'. cbn [tasks nextPromise].
      destruct (decide (p = p')) as [<-|Hne].
      * intros _. apply Hlt. by rewrite Hq.
      * rewrite lookup_insert_ne by done. apply Hlt.
  - unfold resume. destruct (tasks dev !! p) as [[rq [h rest le|o]]|] eqn:Hp; [done| |done].
    split.
    + intros r' p'. unfold finish.
      cbn [hostManager requestCache pendingRequests bridge tasks nextPromise].
      assert (Hother : pendingRequests dev !! r' = Some p' → r' ≠ rq →
                storesResult (options r') = true
                ∧ ∃ task, delete p (tasks dev) !! p' = Some task ∧ request task = r').
      { intros Hp' Hne. destruct (Hin r' p' Hp') as (Hs' & task & Ht & Hr).
        split; [done|]. exists task. split; [|done].
        rewrite lookup_delete_ne; [done|]. intros <-. rewrite Hp in Ht.
        injection Ht as <-. by cbn in Hr. }
      destruct (storesResult (options rq)) eqn:Hst;
        cbn [hostManager requestCache pendingRequests bridge tasks nextPromise].
      * intros [Hne Hp']%lookup_delete_Some. by apply Hother.
      * intros Hp'. apply Hother; [done|]. intros ->.
        destruct (Hin rq p' Hp') as (Hs' & _). congruence.
    + intros p'. rewrite Coalescing.finish_tasks.
      unfold finish. destruct (storesResult (options rq));
        cbn [tasks nextPromise]; intros [t Ht]; apply Hlt;
        apply lookup_delete_Some in Ht as [_ Ht]; eauto.
Qed.

Lemma steps_tracked evs now primary backups b :
  tracked (steps evs (init now primary backups b)).
Proof.
  unfold steps. apply (fold_left_preserves tracked).
  - split.
    + intros r p. cbn. by rewrite lookup_empty.
    + intros p. cbn. rewrite lookup_empty. by intros [? ?].
  - intros dev ev. apply step_tracked.
Qed.

End RequestPathFacts.

Module RequestPath.
Import RegistrySpec DeviceSpec RequestPathSpec LifecycleSpec HostManager RegistryFacts
  OrderingFacts ProxmoxClusterDevice ExecutorFacts LifecycleFacts RequestPathFacts.

(** X10.  Hosts are tried strictly in the order of the list.  A call that is
    past the cache and the in-flight map works through the ordered list from
    its head without skipping a host: the hosts it contacts are an initial
    stretch of the list, every one of them but the last answered in a way
    that sends the loop on, the call settles with exactly what the client
    made of the last host's reply, and it stops before the end of the list
    only on a reply that does not send the loop on (a success or a 4xx). *)
Theorem hosts_are_tried_in_order (net : string → Exchange) (now storedAt : Z)
    (r : Request) (dev : ProxmoxClusterDevice.t) (h : string) (hosts' : list string) :
  shortcut now r dev = None →
  fst (getOrderedHostList now (hostManager dev)) = h :: hosts' →
  ∃ before last after,
    h :: hosts' = before ++ last :: after
    ∧ fst (_executeApiCallWithFallback net now storedAt r dev)
      = Finished (ProxmoxClient.request (wire (net last))) (before ++ [last])
    ∧ (∀ x, x ∈ before → retryable (wire (net x)) = true)
    ∧ (after ≠ [] → retryable (wire (net last)) = false).
Proof.
  intros Hs Hl.
  destruct (Failover.execute_past_shortcut net now storedAt r dev h hosts' Hs Hl)
    as (o & hm2 & b2 & tried & Ht & ->).
  destruct (tryHosts_decompose net (h :: hosts') ltac:(done) None
              (snd (getOrderedHostList now (hostManager dev))) (bridge dev))
    as (before & last & after & Hdec & Hb & Ha & Heq).
  rewrite Heq in Ht. injection Ht as <- <- <- <-.
  exists before, last, after. done.
Qed.


(** X12.  A call that is not a GET, or that carries skipCache, is never
    answered from the cache or the in-flight map: it always runs the loop
    over the hosts, and it leaves the cache and the in-flight map exactly as
    they were. *)
Theorem uncached_call_bypasses_cache (net : string → Exchange) (now storedAt : Z)
    (r : Request) (dev : ProxmoxClusterDevice.t) :
  storesResult (options r) = false →
  (∃ o tried, fst (_executeApiCallWithFallback net now storedAt r dev) = Finished o tried)
  ∧ requestCache (snd (_executeApiCallWithFallback net now storedAt r dev))
    = requestCache dev
  ∧ pendingRequests (snd (_executeApiCallWithFallback net now storedAt r dev))
    = pendingRequests dev.
Proof.
  intros Hst. pose proof (execute_cases net now storedAt r dev) as Hc.
  assert (Hs : shortcut now r dev = None).
  { unfold shortcut. destruct (readsCache (options r)) eqn:Hr; [|done].
    apply CoalescingFacts.reads_stores in Hr. congruence. }
  rewrite Hs in Hc. destruct Hc as (o & hm2 & b2 & tried & ->).
  unfold finish. rewrite Hst. cbn. split; [by exists o, tried | done].
Qed.

(** X13.  The cache changes only when a call that stores its result
    succeeds, and then only under the call's own key, which then holds the
    result and the time of storing.  A call that fails, is served from the
    cache or joins a request in flight leaves every entry as it was. *)
Theorem cache_changes_only_on_success (net : string → Exchange) (now storedAt : Z)
    (r : Request) (dev : ProxmoxClusterDevice.t) :
  requestCache (snd (_executeApiCallWithFallback net now storedAt r dev))
  = cacheAfter storedAt r (fst (_executeApiCallWithFallback net now storedAt r dev))
      (requestCache dev).
Proof.
  pose proof (execute_cases net now storedAt r dev) as Hc.
  destruct (shortcut now r dev) as [[j|p]|]; [by rewrite Hc..|].
  destruct Hc as (o & hm2 & b2 & tried & ->). cbn [fst snd].
  unfold finish, cacheAfter, _setCachedResponse.
  destruct (storesResult (options r)); destruct o; done.
Qed.

(** X14.  What a refreshCache call stores is never served.  Such a call is
    itself never answered from the cache or the in-flight map, and no call
    that reads the cache ever sees a difference because of it: the key holds
    the options, so the calls that read the cache look under other keys. *)
Theorem refreshed_entry_is_never_served (net : string → Exchange) (now storedAt : Z)
    (r : Request) (dev : ProxmoxClusterDevice.t) :
  flag (refreshCache (options r)) = true →
  shortcut now r dev = None
  ∧ ∀ r' now',
      readsCache (options r') = true →
      shortcut now' r' (snd (_executeApiCallWithFallback net now storedAt r dev))
      = shortcut now' r' dev.
Proof.
  intros Hf.
  assert (Hr : readsCache (options r) = false).
  { unfold readsCache. rewrite Hf. cbn. apply andb_false_r. }
  assert (Hs : shortcut now r dev = None).
  { unfold shortcut. by rewrite Hr. }
  split; [done|]. intros r' now' Hr'.
  assert (Hne : r ≠ r') by (intros ->; congruence).
  pose proof (execute_cases net now storedAt r dev) as Hc. rewrite Hs in Hc.
  destruct Hc as (o & hm2 & b2 & tried & ->). cbn [snd].
  unfold shortcut, _getCachedResponse, finish, _setCachedResponse. rewrite Hr'.
  destruct (storesResult (options r));
    cbn [hostManager requestCache pendingRequests bridge tasks nextPromise]; [|done].
  rewrite lookup_delete_ne by done.
  destruct o; [by rewrite lookup_insert_ne | done].
Qed.

(** X15.  'No available hosts.'  A call that is past the cache and the
    in-flight map fails with this error exactly when the ordered list is
    empty, and then it contacts no host and leaves registry records, cache
    and platform state as they were.  The list is empty exactly when no host
    qualifies and no non-empty primary is set; with a non-empty primary host
    set, the error cannot occur. *)
Theorem no_hosts_error (net : string → Exchange) (now storedAt : Z)
    (r : Request) (dev : ProxmoxClusterDevice.t) :
  shortcut now r dev = None →
  ((∃ tried, fst (_executeApiCallWithFallback net now storedAt r dev)
             = Finished (Rejected NoAvailableHosts) tried)
   ↔ fst (getOrderedHostList now (hostManager dev)) = [])
  ∧ (fst (getOrderedHostList now (hostManager dev)) = []
     ↔ offered now (hostManager dev) = [] ∧ lastResort (hostManager dev) = [])
  ∧ (fst (getOrderedHostList now (hostManager dev)) = [] →
     fst (_executeApiCallWithFallback net now storedAt r dev)
     = Finished (Rejected NoAvailableHosts) []
     ∧ hosts (hostManager (snd (_executeApiCallWithFallback net now storedAt r dev)))
       = hosts (hostManager dev)
     ∧ requestCache (snd (_executeApiCallWithFallback net now storedAt r dev))
       = requestCache dev
     ∧ bridge (snd (_executeApiCallWithFallback net now storedAt r dev)) = bridge dev)
  ∧ (∀ p, primaryHost (hostManager dev) = Some p → truthy p = true →
          fst (getOrderedHostList now (hostManager dev)) ≠ []).
Proof.
  intros Hs.
  assert (Hempty : fst (getOrderedHostList now (hostManager dev)) = []
                   ↔ offered now (hostManager dev) = [] ∧ lastResort (hostManager dev) = []).
  { pose proof (getOrderedHostList_offered now (hostManager dev)) as Hl.
    destruct (offered now (hostManager dev)) as [|x l].
    - rewrite Hl. split; [done | by intros [_ ?]].
    - split; [|by intros [? _]]. intros Hnil. rewrite Hnil in Hl.
      by apply Permutation_nil_cons in Hl. }
  assert (Hnone : fst (getOrderedHostList now (hostManager dev)) = [] →
     fst (_executeApiCallWithFallback net now storedAt r dev)
     = Finished (Rejected NoAvailableHosts) []
     ∧ hosts (hostManager (snd (_executeApiCallWithFallback net now storedAt r dev)))
       = hosts (hostManager dev)
     ∧ requestCache (snd (_executeApiCallWithFallback net now storedAt r dev))
       = requestCache dev
     ∧ bridge (snd (_executeApiCallWithFallback net now storedAt r dev)) = bridge dev).
  { intros Hl. unfold _executeApiCallWithFallback. rewrite Hs.
    pose proof (getOrderedHostList_sameView now (hostManager dev)) as (Hh & _).
    destruct (getOrderedHostList now (hostManager dev)) as [hs hm1].
    cbn in Hl, Hh. subst hs. cbn [fst snd]. rewrite Failover.finish_hostManager.
    unfold finish. destruct (storesResult (options r)); done. }
  split_and!; [|done|done|].
  - split; [|intros Hl; exists []; by apply Hnone].
    intros [tried Hres].
    destruct (fst (getOrderedHostList now (hostManager dev))) as [|h hosts'] eqn:Hl; [done|].
    exfalso.
    destruct (Failover.execute_past_shortcut net now storedAt r dev h hosts' Hs Hl)
      as (o & hm2 & b2 & tried' & Ht & Heq).
    rewrite Heq in Hres. cbn in Hres. injection Hres as -> _.
    destruct (tryHosts_decompose net (h :: hosts') ltac:(done) None
                (snd (getOrderedHostList now (hostManager dev))) (bridge dev))
      as (before & last & after & _ & _ & _ & Heq').
    rewrite Heq' in Ht. injection Ht as Ho _ _ _.
    by apply request_not_built_by_executor in Ho.
  - intros p Hp Htp Hnil. apply Hempty in Hnil as [_ Hlr].
    unfold lastResort in Hlr. by rewrite Hp, Htp in Hlr.
Qed.

(** X16.  No call contacts a host twice or goes outside the registry.  In
    every device reached from its initial state by any sequence of events,
    the hosts a call contacts are pairwise distinct, and each of them has a
    record in the registry or is the primary host. *)
Theorem call_contacts_each_host_once (evs : list Event) (now0 : Z) (primary : string)
    (backups : list string) (b0 : Bridge) (net : string → Exchange)
    (now storedAt : Z) (r : Request) (o : Outcome) (tried : list string) :
  fst (_executeApiCallWithFallback net now storedAt r
         (steps evs (init now0 primary backups b0))) = Finished o tried →
  NoDup tried
  ∧ ∀ h, h ∈ tried →
      h ∈ (hosts (hostManager (steps evs (init now0 primary backups b0)))).*1
      ∨ primaryHost (hostManager (steps evs (init now0 primary backups b0))) = Some h.
Proof.
  set (dev := steps evs (init now0 primary backups b0)). intros Hres.
  destruct (Reachable.steps_well_formed evs now0 primary backups b0) as [Hnd _].
  fold dev in Hnd.
  pose proof (Failover.getOrderedHostList_NoDup now (hostManager dev) Hnd) as Hlnd.
  pose proof (execute_cases net now storedAt r dev) as Hc.
  destruct (shortcut now r dev) as [[j|p]|] eqn:Hs;
    [rewrite Hc in Hres; done | rewrite Hc in Hres; done |].
  clear Hc.
  destruct (fst (getOrderedHostList now (hostManager dev))) as [|h hosts'] eqn:Hl.
  { unfold _executeApiCallWithFallback in Hres. rewrite Hs in Hres.
    destruct (getOrderedHostList now (hostManager dev)) as [hs hm1].
    cbn in Hl. subst hs. cbn in Hres. injection Hres as _ <-.
    split; [apply NoDup_nil_2 | by intros ? ?%elem_of_nil]. }
  destruct (Failover.execute_past_shortcut net now storedAt r dev h hosts' Hs Hl)
    as (o' & hm2 & b2 & tried' & Ht & Heq).
  rewrite Heq in Hres. cbn in Hres. injection Hres as -> ->.
  destruct (tryHosts_decompose net (h :: hosts') ltac:(done) None
              (snd (getOrderedHostList now (hostManager dev))) (bridge dev))
    as (before & last & after & Hdec & _ & _ & Heq').
  rewrite Heq' in Ht. injection Ht as _ _ _ <-.
  rewrite Hdec in Hlnd.
  assert (Hsub : ∀ x, x ∈ before ++ [last] → x ∈ h :: hosts').
  { intros x Hx. rewrite Hdec. apply elem_of_app in Hx as [Hx|Hx]; apply elem_of_app.
    - by left.
    - right. apply list_elem_of_singleton in Hx as ->. apply elem_of_cons. by left. }
  split.
  - apply NoDup_app in Hlnd as (Hb & Hdisj & Hla). apply NoDup_cons in Hla as [Hla _].
    apply NoDup_app. split_and!; [done| |apply NoDup_singleton].
    intros x Hx ->%list_elem_of_singleton. apply (Hdisj last Hx), elem_of_cons. by left.
  - intros x Hx. apply (getOrderedHostList_members now). rewrite Hl. by apply Hsub.
Qed.

(** X17.  The in-flight map does not leak.  In every device reached from its
    initial state by any sequence of events (calls, replies, continuations,
    pings, sweeps, changes of the hostname, in any interleaving), an entry of
    the in-flight map always names a request promise that is still
    outstanding, made for that very key by a call that stores its result:
    once a call's continuation has run, nothing of it is left in the map,
    whether it succeeded or failed. *)
Theorem in_flight_map_holds_live_requests (evs : list Event) (now0 : Z)
    (primary : string) (backups : list string) (b0 : Bridge) (r : Request) (p : nat) :
  pendingRequests (steps evs (init now0 primary backups b0)) !! r = Some p →
  storesResult (options r) = true
  ∧ ∃ task, tasks (steps evs (init now0 primary backups b0)) !! p = Some task
            ∧ request task = r.
Proof. apply steps_tracked. Qed.

(** X18.  The cache holds results of storing calls only.  In every device
    reached from its initial state by any sequence of events, each key of the
    cache belongs to a GET call without skipCache: nothing a POST or a
    skipCache call returns is ever kept. *)
Theorem cache_holds_stored_results_only (evs : list Event) (now0 : Z)
    (primary : string) (backups : list string) (b0 : Bridge) (r : Request)
    (e : CacheEntry) :
  requestCache (steps evs (init now0 primary backups b0)) !! r = Some e →
  storesResult (options r) = true.
Proof.
  revert r e. unfold steps.
  apply (fold_left_preserves
           (fun dev => ∀ r e, requestCache dev !! r = Some e →
                              storesResult (options r) = true)).
  - intros r e. cbn. by rewrite lookup_empty.
  - intros dev ev Hinv. destruct ev as [now r|now p w|now p|start now host w|now|host];
      cbn [step]; try done.
    + unfold call. destruct (shortcut now r dev); [done|].
      by destruct (getOrderedHostList now (hostManager dev)).
    + by destruct (CoalescingFacts.reply_shape now p w dev)
        as [->|(rq & h & rest & le & ph & hm' & b' & Hq & ->)].
    + unfold resume. destruct (tasks dev !! p) as [[rq [h rest le|o]]|]; [done| |done].
      unfold finish. destruct (storesResult (options rq)) eqn:Hst; [|done].
      cbn [requestCache]. destruct o as [v|err]; [|done].
      intros r e. unfold _setCachedResponse.
      destruct (decide (rq = r)) as [<-|Hne]; [done|].
      rewrite lookup_insert_ne by done. apply Hinv.
Qed.

End RequestPath.

(** ** The health check and the setting it maintains *)

Module HealthFacts.
Import HealthCheck BackupHostsSetting HealthSpec.

Section Selection.
Context {A : Type} `{EqDecision A}.

Lemma setAdd_elem (x y : A) s : y ∈ setAdd x s ↔ y = x ∨ y ∈ s.
Proof.
  unfold setAdd. case_bool_decide as Hx.
  - split; [by right|]. by intros [->|?].
  - rewrite elem_of_app, list_elem_of_singleton. tauto.
Qed.

Lemma setAdd_NoDup (x : A) s : NoDup s → NoDup (setAdd x s).
Proof.
  intros Hnd. unfold setAdd. case_bool_decide as Hx; [done|].
  apply NoDup_app. split_and!; [done| |apply NoDup_singleton].
  by intros y Hy ->%list_elem_of_singleton.
Qed.

Lemma setAdd_length (x : A) s : (length (setAdd x s) ≤ S (length s))%nat.
Proof.
  unfold setAdd. case_bool_decide; [lia|]. rewrite length_app. cbn. lia.
Qed.

Lemma setAdd_head (x : A) s y : head s = Some y → head (setAdd x s) = Some y.
Proof.
  unfold setAdd. case_bool_decide; [done|]. by destruct s.
Qed.

Lemma otherNodes_elem (s online : list A) x :
  x ∈ otherNodes s online ↔ x ∈ online ∧ x ∉ s.
Proof.
  unfold otherNodes. rewrite list_elem_of_In, filter_In, <- list_elem_of_In.
  by rewrite negb_true_iff, bool_decide_eq_false.
Qed.
End Selection.

Section Parsing.
Context {Char : Type} `{EqDecision Char}.
Variable comma : Char.
Variable isWhiteSpace : Char → bool.

Lemma split_nonempty (raw : list Char) : split comma raw ≠ [].
Proof.
  destruct raw as [|c raw]; cbn; [done|].
  case_bool_decide; [done|]. by destruct (split comma raw).
Qed.

Lemma split_no_comma (raw : list Char) piece :
  piece ∈ split comma raw → comma ∉ piece.
Proof.
  revert piece. induction raw as [|c raw IH]; intros piece; cbn.
  - intros ->%list_elem_of_singleton. apply not_elem_of_nil.
  - case_bool_decide as Hc.
    + intros [->|Hp]%elem_of_cons; [apply not_elem_of_nil | by apply IH].
    + destruct (split comma raw) as [|p ps] eqn:Hs.
      * intros ->%list_elem_of_singleton.
        by intros [->|?%elem_of_nil]%elem_of_cons.
      * intros [->|Hp]%elem_of_cons.
        -- intros [->|Hin]%elem_of_cons; [done|].
           apply (IH p); [apply elem_of_cons; by left | done].
        -- apply IH, elem_of_cons. by right.
Qed.

Lemma split_piece (h : list Char) :
  comma ∉ h → split comma h = [h].
Proof.
  induction h as [|c h IH]; intros Hc; cbn; [done|].
  apply not_elem_of_cons in Hc as [Hne Hc].
  rewrite bool_decide_eq_false_2 by done. by rewrite IH.
Qed.

Lemma split_app (h rest : list Char) :
  comma ∉ h → split comma (h ++ comma :: rest) = h :: split comma rest.
Proof.
  induction h as [|c h IH]; intros Hc; cbn.
  - by rewrite bool_decide_eq_true_2.
  - apply not_elem_of_cons in Hc as [Hne Hc].
    rewrite bool_decide_eq_false_2 by done. by rewrite IH.
Qed.

Lemma split_join (l : list (list Char)) :
  l ≠ [] → (∀ h, h ∈ l → comma ∉ h) → split comma (join comma l) = l.
Proof.
  induction l as [|h l IH]; [done|]. intros _ Hc.
  destruct l as [|h' l].
  - cbn. apply split_piece, Hc, elem_of_cons. by left.
  - change (join comma (h :: h' :: l)) with (h ++ comma :: join comma (h' :: l)).
    rewrite split_app by (apply Hc, elem_of_cons; by left).
    rewrite IH; [done|done|]. intros x Hx. apply Hc, elem_of_cons. by right.
Qed.

Lemma trimStart_suffix (s : list Char) : trimStart isWhiteSpace s `suffix_of` s.
Proof.
  induction s as [|c s IH]; cbn; [done|].
  destruct (isWhiteSpace c); [by apply suffix_cons_r | done].
Qed.

Lemma trimStart_head (s : list Char) c :
  head (trimStart isWhiteSpace s) = Some c → isWhiteSpace c = false.
Proof.
  induction s as [|d s IH]; cbn; [done|].
  destruct (isWhiteSpace d) eqn:Hd; [done|]. cbn. by intros [= <-].
Qed.

Lemma trimStart_id (s : list Char) :
  (∀ c, head s = Some c → isWhiteSpace c = false) → trimStart isWhiteSpace s = s.
Proof.
  destruct s as [|c s]; cbn; [done|]. intros Hh. by rewrite (Hh c eq_refl).
Qed.

Lemma trimStart_last (s : list Char) c :
  last (trimStart isWhiteSpace s) = Some c → last s = Some c.
Proof.
  destruct (trimStart_suffix s) as [k Hk]. intros Hl.
  rewrite Hk. destruct (trimStart isWhiteSpace s) as [|d t] eqn:Ht; [done|].
  rewrite last_app. by rewrite Hl.
Qed.

Lemma trim_id (s : list Char) :
  (∀ c, head s = Some c → isWhiteSpace c = false) →
  (∀ c, last s = Some c → isWhiteSpace c = false) →
  trim isWhiteSpace s = s.
Proof.
  intros Hh Hl. unfold trim. rewrite (trimStart_id s Hh).
  rewrite trimStart_id; [apply reverse_involutive|].
  intros c. rewrite head_reverse. apply Hl.
Qed.

Lemma trim_sublist (s : list Char) c : c ∈ trim isWhiteSpace s → c ∈ s.
Proof.
  unfold trim. rewrite elem_of_reverse. intros Hc.
  destruct (trimStart_suffix (reverse (trimStart isWhiteSpace s))) as [k Hk].
  assert (c ∈ reverse (trimStart isWhiteSpace s)) as Hc'.
  { rewrite Hk. apply elem_of_app. by right. }
  rewrite elem_of_reverse in Hc'.
  destruct (trimStart_suffix s) as [k' Hk']. rewrite Hk'. apply elem_of_app. by right.
Qed.

Lemma trim_ends (s : list Char) :
  (∀ c, head (trim isWhiteSpace s) = Some c → isWhiteSpace c = false)
  ∧ (∀ c, last (trim isWhiteSpace s) = Some c → isWhiteSpace c = false).
Proof.
  unfold trim. split; intros c.
  - rewrite head_reverse. intros Hl%trimStart_last. rewrite last_reverse in Hl.
    by apply trimStart_head in Hl.
  - rewrite last_reverse. apply trimStart_head.
Qed.
End Parsing.

End HealthFacts.

Module Health.
Import HealthCheck BackupHostsSetting HealthSpec HealthFacts.

(** X19.  The probe set of a health check is small.  Whatever the cluster
    reports, a health check pings the primary host first, at most three
    hosts in all and none twice; every host it pings is the primary, the
    preferred host or a node reported online; the preferred host is always
    among them when it is set; and when some online node is neither of the
    two, exactly one such node is pinged as well. *)
Theorem health_check_probe_set {A : Type} `{EqDecision A} (truthyA : A → bool)
    (primaryHost preferredHost : A) (onlineNodes : list A) (draw : nat) :
  head (nodesToPing truthyA primaryHost preferredHost onlineNodes draw) = Some primaryHost
  ∧ NoDup (nodesToPing truthyA primaryHost preferredHost onlineNodes draw)
  ∧ (length (nodesToPing truthyA primaryHost preferredHost onlineNodes draw) ≤ 3)%nat
  ∧ (∀ x, x ∈ nodesToPing truthyA primaryHost preferredHost onlineNodes draw →
          x = primaryHost ∨ (x = preferredHost ∧ truthyA preferredHost = true)
          ∨ x ∈ onlineNodes)
  ∧ (truthyA preferredHost = true →
     preferredHost ∈ nodesToPing truthyA primaryHost preferredHost onlineNodes draw)
  ∧ ((∃ x, x ∈ onlineNodes ∧ x ≠ primaryHost
           ∧ (truthyA preferredHost = true → x ≠ preferredHost)) →
     ∃ x, nodesToPing truthyA primaryHost preferredHost onlineNodes draw
          = (if truthyA preferredHost then setAdd preferredHost [primaryHost]
             else [primaryHost]) ++ [x]
          ∧ x ∈ onlineNodes ∧ x ≠ primaryHost
          ∧ (truthyA preferredHost = true → x ≠ preferredHost)).
Proof.
  unfold nodesToPing.
  set (s1 := if truthyA preferredHost then setAdd preferredHost [primaryHost]
             else [primaryHost]).
  set (others := otherNodes s1 onlineNodes).
  assert (Hhead : head s1 = Some primaryHost).
  { subst s1. destruct (truthyA preferredHost); [by apply setAdd_head | done]. }
  assert (Hnd : NoDup s1).
  { subst s1. destruct (truthyA preferredHost);
      [apply setAdd_NoDup|]; apply NoDup_singleton. }
  assert (Hlen : (length s1 ≤ 2)%nat).
  { subst s1. destruct (truthyA preferredHost); [|cbn; lia].
    pose proof (setAdd_length preferredHost [primaryHost]). cbn in *. lia. }
  assert (Hs1 : ∀ x, x ∈ s1 ↔ x = primaryHost
                           ∨ (x = preferredHost ∧ truthyA preferredHost = true)).
  { intros x. subst s1. destruct (truthyA preferredHost).
    - rewrite setAdd_elem, list_elem_of_singleton. split; [|tauto].
      intros [?|?]; [right|left]; done.
    - rewrite list_elem_of_singleton. split; [tauto|]. by intros [?|[_ ?]]. }
  assert (Hpick : ∀ ip, others !! (draw mod length others)%nat = Some ip →
                        ip ∈ onlineNodes ∧ ip ∉ s1).
  { intros ip Hip. apply otherNodes_elem. by apply list_elem_of_lookup_2 in Hip. }
  split_and!.
  - destruct (others !! _); [by apply setAdd_head | done].
  - destruct (others !! _); [by apply setAdd_NoDup | done].
  - destruct (others !! _) as [ip|]; [|lia].
    pose proof (setAdd_length ip s1). lia.
  - intros x. destruct (others !! _) as [ip|] eqn:Hip.
    + rewrite setAdd_elem. intros [->|Hx].
      * right. right. by apply Hpick.
      * apply Hs1 in Hx. tauto.
    + intros Hx. apply Hs1 in Hx. tauto.
  - intros Ht. assert (preferredHost ∈ s1) by (apply Hs1; by right).
    destruct (others !! _); [apply setAdd_elem; by right | done].
  - intros (x & Hx & Hxp & Hxq).
    assert (Hin : x ∈ others).
    { apply otherNodes_elem. split; [done|]. rewrite Hs1. intros [?|[? ?]]; [done|].
      by apply Hxq. }
    assert (Hpos : (0 < length others)%nat).
    { destruct others; [by apply elem_of_nil in Hin | cbn; lia]. }
    destruct (lookup_lt_is_Some_2 others (draw mod length others)%nat) as [ip Hip].
    { apply Nat.mod_upper_bound. lia. }
    rewrite Hip. destruct (Hpick ip Hip) as [Hon Hnot]. exists ip.
    split_and!; [|done| |].
    + unfold setAdd. by rewrite bool_decide_eq_false_2.
    + intros ->. apply Hnot, Hs1. by left.
    + intros Ht ->. apply Hnot, Hs1. by right.
Qed.

(** X20.  What the backup-hosts setting gives back.  Every host read from
    the setting is not empty, holds no comma, has no white space at either
    end and differs from the primary host passed in; and an unset or empty
    setting gives no host. *)
Theorem backup_hosts_are_clean {Char : Type} `{EqDecision Char} (comma : Char)
    (isWhiteSpace : Char → bool) (raw : option (list Char))
    (primaryHost : option (list Char)) (h : list Char) :
  h ∈ _getBackupHostsFromSettings comma isWhiteSpace raw primaryHost →
  wellFormed comma isWhiteSpace h ∧ Some h ≠ primaryHost
  ∧ ∃ text, raw = Some text ∧ text ≠ [].
Proof.
  unfold _getBackupHostsFromSettings.
  destruct raw as [[|c text]|]; [by intros ?%elem_of_nil| |by intros ?%elem_of_nil].
  intros [Hh Hf]%list_elem_of_In%filter_In.
  apply andb_true_iff in Hf as [Hne%negb_true_iff%bool_decide_eq_false
                                  Hp%negb_true_iff%bool_decide_eq_false].
  apply list_elem_of_In, list_elem_of_fmap in Hh as (piece & -> & Hpiece).
  split_and!; [split_and!| done | by exists (c :: text)].
  - done.
  - intros Hc%trim_sublist. by apply (split_no_comma comma (c :: text) piece).
  - apply trim_ends.
  - apply trim_ends.
Qed.

(** X21.  The setting round-trips.  The health check saves the backup hosts
    joined by commas; reading that setting back gives exactly the saved
    list, in its order, provided every saved host is well formed (not empty,
    no comma, no white space at either end) and differs from the primary
    host. *)
Theorem backup_hosts_round_trip {Char : Type} `{EqDecision Char} (comma : Char)
    (isWhiteSpace : Char → bool) (primaryHost : option (list Char))
    (saved : list (list Char)) :
  (∀ h, h ∈ saved → wellFormed comma isWhiteSpace h ∧ Some h ≠ primaryHost) →
  _getBackupHostsFromSettings comma isWhiteSpace (Some (join comma saved)) primaryHost
  = saved.
Proof.
  intros Hok. destruct saved as [|h0 saved]; [done|].
  unfold _getBackupHostsFromSettings.
  assert (Hsplit : split comma (join comma (h0 :: saved)) = h0 :: saved).
  { apply split_join; [done|]. intros h Hh. by destruct (Hok h Hh) as [(_ & ? & _) _]. }
  destruct (join comma (h0 :: saved)) as [|c text] eqn:Hj.
  { exfalso. destruct (Hok h0) as [(Hne & _) _]; [apply elem_of_cons; by left|].
    destruct saved; cbn in Hj; [done|]. by destruct h0. }
  rewrite Hsplit. clear Hsplit Hj.
  induction (h0 :: saved) as [|h l IH]; [done|]. csimpl.
  destruct (Hok h) as [(Hne & _ & Hhd & Hla) Hp]; [apply elem_of_cons; by left|].
  rewrite (trim_id isWhiteSpace h Hhd Hla).
  rewrite (bool_decide_eq_false_2 (h = [])) by done.
  rewrite (bool_decide_eq_false_2 (Some h = primaryHost)) by done. cbn.
  f_equal. apply IH. intros x Hx. apply Hok, elem_of_cons. by right.
Qed.

End Health.

(** ** Managed timeouts *)

Module Timeouts.
Import ManagedTimeouts.

(** X22.  [activeTimeouts] tracks exactly the timeouts that can still fire.
    After any sequence of creations, firings and clearings, the set holds
    the identities of the managed timeouts that were scheduled and have
    neither fired nor been cleared, no more and no less; so a timeout that
    fired is forgotten, and after [_clearAllTimeouts] (as in [onDeleted])
    none is left that could fire. *)
Theorem active_timeouts_are_the_scheduled_ones (evs : list Event) :
  activeTimeouts (run evs new) = scheduled (run evs new)
  ∧ (∀ id, id ∈ scheduled (run evs new) → (id < nextId (run evs new))%nat)
  ∧ scheduled (_clearAllTimeouts (run evs new)) = ∅
  ∧ activeTimeouts (_clearAllTimeouts (run evs new)) = ∅.
Proof.
  assert (Hinv : activeTimeouts (run evs new) = scheduled (run evs new)
                 ∧ ∀ id, id ∈ scheduled (run evs new) → (id < nextId (run evs new))%nat).
  { unfold run.
    apply (fold_left_preserves
             (fun s => activeTimeouts s = scheduled s
                       ∧ ∀ id, id ∈ scheduled s → (id < nextId s)%nat)).
    - split; [done|]. by intros id ?%elem_of_empty.
    - intros s ev [Heq Hlt]. destruct ev as [|id|]; cbn [step].
      + cbn. split; [by rewrite Heq|].
        intros id [->%elem_of_singleton|Hid]%elem_of_union; [lia|].
        specialize (Hlt id Hid). lia.
      + unfold fire. case_bool_decide; [|done]. cbn. split; [by rewrite Heq|].
        intros id' [Hid' _]%elem_of_difference. by apply Hlt.
      + cbn. rewrite Heq, difference_diag_L. split; [done|].
        by intros id ?%elem_of_empty. }
  destruct Hinv as [Heq Hlt]. split_and!; [done|done| |done].
  cbn. rewrite Heq. apply difference_diag_L.
Qed.

End Timeouts.

(** ** The properties above, on concrete devices *)

Module LifecycleWitnesses.
Import RegistrySpec LifecycleSpec HostManager.

Lemma succeeded_host_is_offered_witness :
  truthy "10.0.0.3" = true
  ∧ 6000 - 5000 < 120000
  ∧ NoDup (hosts threeHosts).*1
  ∧ Forall (sparesHost "10.0.0.3" 5000 6000) busyInterval
  ∧ stateAt 5000 threeHosts "10.0.0.3" = Breaker.open
  ∧ "10.0.0.3"
    ∈ fst (getOrderedHostList 6000
             (run busyInterval (updateHostStatus 5000 "10.0.0.3" true 7 threeHosts))).
Proof.
  assert (Hnd : NoDup (hosts threeHosts).*1).
  { apply (bool_decide_unpack _). vm_compute. exact I. }
  assert (Hops : Forall (sparesHost "10.0.0.3" 5000 6000) busyInterval).
  { repeat constructor; cbn; try lia; discriminate. }
  split_and!; [reflexivity | lia | exact Hnd | exact Hops | vm_compute; reflexivity |].
  apply (Lifecycle.succeeded_host_is_offered 5000 6000 "10.0.0.3" 7 threeHosts
           busyInterval); [reflexivity | lia | exact Hnd | exact Hops].
Defined.

Lemma failure_reopens_breaker_witness :
  circuitBreakers (run probingOps new) !! "10.0.0.1"
  = Some (Breaker.mk 3 1000 Breaker.half_open)
  ∧ Breaker.state (Breaker.mk 3 1000 Breaker.half_open) ≠ Breaker.closed
  ∧ 70500 - 70001 ≤ 60000
  ∧ circuitBreakers
      (updateHostStatus 70001 "10.0.0.1" false 0 (run probingOps new)) !! "10.0.0.1"
    = Some (Breaker.mk 4 70001 Breaker.open)
  ∧ stateAt 70500 (updateHostStatus 70001 "10.0.0.1" false 0 (run probingOps new))
      "10.0.0.1" = Breaker.open.
Proof.
  assert (Hb : circuitBreakers (run probingOps new) !! "10.0.0.1"
               = Some (Breaker.mk 3 1000 Breaker.half_open)) by (vm_compute; reflexivity).
  assert (Hs : Breaker.state (Breaker.mk 3 1000 Breaker.half_open) ≠ Breaker.closed)
    by discriminate.
  assert (Ht : 70500 - 70001 ≤ 60000) by lia.
  split_and!; [exact Hb | exact Hs | exact Ht | |];
    apply (Lifecycle.failure_reopens_breaker probingOps 70001 70500 "10.0.0.1" 0
             (Breaker.mk 3 1000 Breaker.half_open) Hb Hs Ht).
Defined.

Lemma cleanup_sweeps_stale_witness :
  NoDup (hosts agedBackup).*1
  ∧ hosts (cleanup 310000 agedBackup)
    = List.filter (fun e => negb (stale 310000 e)) (hosts agedBackup)
  ∧ hosts (cleanup 310000 agedBackup)
    = [("10.0.0.1", Host.mk 200000 5 0 Host.healthy None)]
  ∧ circuitBreakers agedBackup !! "10.0.0.2" = Some (Breaker.mk 1 150000 Breaker.closed)
  ∧ circuitBreakers (cleanup 310000 agedBackup) !! "10.0.0.2" = None.
Proof.
  assert (Hnd : NoDup (hosts agedBackup).*1).
  { apply (bool_decide_unpack _). vm_compute. exact I. }
  destruct (Lifecycle.cleanup_sweeps_stale 310000 agedBackup Hnd) as (Hh & Hb & _).
  split_and!; [exact Hnd | exact Hh | | vm_compute; reflexivity |].
  - rewrite Hh. vm_compute. reflexivity.
  - rewrite Hb. vm_compute. reflexivity.
Defined.

Lemma breaker_has_host_record_witness :
  is_Some (circuitBreakers (run probingOps new) !! "10.0.0.1")
  ∧ "10.0.0.1" ∈ (hosts (run probingOps new)).*1.
Proof.
  assert (Hb : is_Some (circuitBreakers (run probingOps new) !! "10.0.0.1")).
  { exists (Breaker.mk 3 1000 Breaker.half_open). vm_compute. reflexivity. }
  split; [exact Hb|].
  exact (Lifecycle.breaker_has_host_record probingOps "10.0.0.1" Hb).
Defined.

Lemma unknown_new_primary_is_left_out_witness :
  ("10.0.0.9" ∉ (hosts twoHosts).*1)
  ∧ ("10.0.0.2", Host.mk 1000 10 0 Host.healthy None) ∈ hosts twoHosts
  ∧ eligible 1000 twoHosts ("10.0.0.2", Host.mk 1000 10 0 Host.healthy None)
  ∧ ("10.0.0.9" ∉ fst (getOrderedHostList 1000 (setPrimaryHost "10.0.0.9" twoHosts)))
  ∧ "10.0.0.2" ∈ fst (getOrderedHostList 1000 (setPrimaryHost "10.0.0.9" twoHosts)).
Proof.
  assert (Hu : "10.0.0.9" ∉ (hosts twoHosts).*1).
  { apply (bool_decide_unpack _). vm_compute. exact I. }
  assert (He : ("10.0.0.2", Host.mk 1000 10 0 Host.healthy None) ∈ hosts twoHosts).
  { apply elem_of_cons. right. apply elem_of_cons. by left. }
  assert (Hel : eligible 1000 twoHosts ("10.0.0.2", Host.mk 1000 10 0 Host.healthy None)).
  { split; [vm_compute; discriminate | cbn; unfold maxHostAge; lia]. }
  split_and!; [exact Hu | exact He | exact Hel | |];
    apply (Lifecycle.unknown_new_primary_is_left_out 1000 "10.0.0.9" twoHosts
             ("10.0.0.2", Host.mk 1000 10 0 Host.healthy None) Hu He Hel).
Defined.

Lemma known_new_primary_goes_first_witness :
  truthy "10.0.0.3" = true
  ∧ omap_get "10.0.0.3" (hosts threeHosts)
    = Some (Host.mk 1000 0 3 Host.unhealthy (Some 1000))
  ∧ stateAt 2000 threeHosts "10.0.0.3" = Breaker.open
  ∧ Forall (fun e => 0 ≤ Host.responseTime e.2) (hosts threeHosts)
  ∧ head (fst (getOrderedHostList 2000 (setPrimaryHost "10.0.0.3" threeHosts)))
    = Some "10.0.0.3"
  ∧ stateAt 2000 (setPrimaryHost "10.0.0.3" threeHosts) "10.0.0.3" = Breaker.closed.
Proof.
  assert (Hi : omap_get "10.0.0.3" (hosts threeHosts)
               = Some (Host.mk 1000 0 3 Host.unhealthy (Some 1000)))
    by (vm_compute; reflexivity).
  assert (Hrt : Forall (fun e => 0 ≤ Host.responseTime e.2) (hosts threeHosts)).
  { apply (bool_decide_unpack _). vm_compute. exact I. }
  split_and!; [reflexivity | exact Hi | vm_compute; reflexivity | exact Hrt | |];
    apply (Lifecycle.known_new_primary_goes_first 2000 "10.0.0.3" threeHosts _ eq_refl Hi);
    try (cbn; lia); intros e He; by apply (proj1 (Forall_forall _ _) Hrt).
Defined.

Lemma cold_start_order_witness :
  truthy "10.0.0.1" = true
  ∧ 2000 - 1000 < 120000
  ∧ Forall isRead [GetOrderedHostList 1500; GetCircuitBreakerState 1600 "10.0.0.2"]
  ∧ fst (getOrderedHostList 2000
           (run [GetOrderedHostList 1500; GetCircuitBreakerState 1600 "10.0.0.2"]
              (initialize 1000 "10.0.0.1" untidyBackups new)))
    = ["10.0.0.1"; "10.0.0.2"; "10.0.0.3"].
Proof.
  assert (Ht : truthy "10.0.0.1" = true) by reflexivity.
  assert (Ha : 2000 - 1000 < 120000) by lia.
  assert (Hr : Forall isRead
                 [GetOrderedHostList 1500; GetCircuitBreakerState 1600 "10.0.0.2"]).
  { repeat constructor. }
  split_and!; [exact Ht | exact Ha | exact Hr |].
  rewrite (proj1 (Lifecycle.cold_start_order 1000 2000 "10.0.0.1" untidyBackups _
                    Ht Ha Hr)).
  reflexivity.
Defined.

End LifecycleWitnesses.

Module RequestPathWitnesses.
Import RegistrySpec DeviceSpec RequestPathSpec LifecycleSpec HostManager
  ProxmoxClusterDevice.

Lemma hosts_are_tried_in_order_witness :
  shortcut 2000 resourcesCall cluster = None
  ∧ fst (getOrderedHostList 2000 (hostManager cluster))
    = "10.0.0.1" :: ["10.0.0.2"; "10.0.0.3"]
  ∧ ∃ before last after,
      "10.0.0.1" :: ["10.0.0.2"; "10.0.0.3"] = before ++ last :: after
      ∧ fst (_executeApiCallWithFallback primaryOverloaded 2000 2100 resourcesCall cluster)
        = Finished (ProxmoxClient.request (wire (primaryOverloaded last)))
            (before ++ [last])
      ∧ (∀ x, x ∈ before → retryable (wire (primaryOverloaded x)) = true)
      ∧ (after ≠ [] → retryable (wire (primaryOverloaded last)) = false).
Proof.
  assert (Hs : shortcut 2000 resourcesCall cluster = None) by (vm_compute; reflexivity).
  assert (Hl : fst (getOrderedHostList 2000 (hostManager cluster))
               = "10.0.0.1" :: ["10.0.0.2"; "10.0.0.3"]) by (vm_compute; reflexivity).
  split_and!; [exact Hs | exact Hl |].
  exact (RequestPath.hosts_are_tried_in_order primaryOverloaded 2000 2100 resourcesCall
           cluster "10.0.0.1" ["10.0.0.2"; "10.0.0.3"] Hs Hl).
Defined.


Lemma uncached_call_bypasses_cache_witness :
  storesResult (options stopCall) = false
  ∧ (∃ o tried,
       fst (_executeApiCallWithFallback allFine 2000 2100 stopCall cachedCluster)
       = Finished o tried)
  ∧ requestCache (snd (_executeApiCallWithFallback allFine 2000 2100 stopCall cachedCluster))
    = requestCache cachedCluster
  ∧ pendingRequests
      (snd (_executeApiCallWithFallback allFine 2000 2100 stopCall cachedCluster))
    = pendingRequests cachedCluster.
Proof.
  assert (Hst : storesResult (options stopCall) = false) by reflexivity.
  split; [exact Hst|].
  exact (RequestPath.uncached_call_bypasses_cache allFine 2000 2100 stopCall
           cachedCluster Hst).
Defined.

Lemma refreshed_entry_is_never_served_witness :
  flag (refreshCache (options statusCall)) = true
  ∧ shortcut 2000 statusCall cluster = None
  ∧ ∀ r' now',
      readsCache (options r') = true →
      shortcut now' r' (snd (_executeApiCallWithFallback allFine 2000 2100 statusCall cluster))
      = shortcut now' r' cluster.
Proof.
  assert (Hf : flag (refreshCache (options statusCall)) = true) by reflexivity.
  split; [exact Hf|].
  exact (RequestPath.refreshed_entry_is_never_served allFine 2000 2100 statusCall
           cluster Hf).
Defined.

Lemma no_hosts_error_witness :
  shortcut 2000 resourcesCall unconfigured = None
  ∧ fst (getOrderedHostList 2000 (hostManager unconfigured)) = []
  ∧ fst (_executeApiCallWithFallback allFine 2000 2100 resourcesCall unconfigured)
    = Finished (Rejected NoAvailableHosts) [].
Proof.
  assert (Hs : shortcut 2000 resourcesCall unconfigured = None) by reflexivity.
  assert (Hl : fst (getOrderedHostList 2000 (hostManager unconfigured)) = [])
    by reflexivity.
  split_and!; [exact Hs | exact Hl |].
  destruct (RequestPath.no_hosts_error allFine 2000 2100 resourcesCall unconfigured Hs)
    as (_ & _ & Hnone & _).
  exact (proj1 (Hnone Hl)).
Defined.

Lemma call_contacts_each_host_once_witness :
  fst (_executeApiCallWithFallback primaryOverloaded 2000 2100 resourcesCall
         (steps [] (init 1000 "10.0.0.1" ["10.0.0.2"; "10.0.0.3"] plainBridge)))
  = Finished (Resolved emptyData) ["10.0.0.1"; "10.0.0.2"]
  ∧ NoDup ["10.0.0.1"; "10.0.0.2"]
  ∧ ∀ h, h ∈ ["10.0.0.1"; "10.0.0.2"] →
      h ∈ (hosts (hostManager
                    (steps [] (init 1000 "10.0.0.1" ["10.0.0.2"; "10.0.0.3"] plainBridge)))).*1
      ∨ primaryHost (hostManager
                       (steps [] (init 1000 "10.0.0.1" ["10.0.0.2"; "10.0.0.3"] plainBridge)))
        = Some h.
Proof.
  assert (Hr : fst (_executeApiCallWithFallback primaryOverloaded 2000 2100 resourcesCall
                      (steps [] (init 1000 "10.0.0.1" ["10.0.0.2"; "10.0.0.3"] plainBridge)))
               = Finished (Resolved emptyData) ["10.0.0.1"; "10.0.0.2"])
    by (vm_compute; reflexivity).
  split; [exact Hr|].
  exact (RequestPath.call_contacts_each_host_once [] 1000 "10.0.0.1"
           ["10.0.0.2"; "10.0.0.3"] plainBridge primaryOverloaded 2000 2100 resourcesCall
           (Resolved emptyData) ["10.0.0.1"; "10.0.0.2"] Hr).
Defined.

Lemma in_flight_map_holds_live_requests_witness :
  pendingRequests
    (steps [Call 2000 resourcesCall]
       (init 1000 "10.0.0.1" ["10.0.0.2"; "10.0.0.3"] plainBridge)) !! resourcesCall
  = Some 0%nat
  ∧ storesResult (options resourcesCall) = true
  ∧ ∃ task,
      tasks (steps [Call 2000 resourcesCall]
               (init 1000 "10.0.0.1" ["10.0.0.2"; "10.0.0.3"] plainBridge)) !! 0%nat
      = Some task
      ∧ request task = resourcesCall.
Proof.
  assert (Hp : pendingRequests
                 (steps [Call 2000 resourcesCall]
                    (init 1000 "10.0.0.1" ["10.0.0.2"; "10.0.0.3"] plainBridge))
                 !! resourcesCall = Some 0%nat) by (vm_compute; reflexivity).
  split; [exact Hp|].
  exact (RequestPath.in_flight_map_holds_live_requests [Call 2000 resourcesCall] 1000
           "10.0.0.1" ["10.0.0.2"; "10.0.0.3"] plainBridge resourcesCall 0%nat Hp).
Defined.

Lemma cache_holds_stored_results_only_witness :
  requestCache
    (steps (answeredCall resourcesCall)
       (init 1000 "10.0.0.1" ["10.0.0.2"; "10.0.0.3"] plainBridge)) !! resourcesCall
  = Some {| data := emptyData; ts := 2100 |}
  ∧ storesResult (options resourcesCall) = true.
Proof.
  assert (Hc : requestCache
                 (steps (answeredCall resourcesCall)
                    (init 1000 "10.0.0.1" ["10.0.0.2"; "10.0.0.3"] plainBridge))
                 !! resourcesCall
               = Some {| data := emptyData; ts := 2100 |}) by (vm_compute; reflexivity).
  split; [exact Hc|].
  exact (RequestPath.cache_holds_stored_results_only (answeredCall resourcesCall) 1000
           "10.0.0.1" ["10.0.0.2"; "10.0.0.3"] plainBridge resourcesCall _ Hc).
Defined.

End RequestPathWitnesses.

Module HealthWitnesses.
Import HealthCheck BackupHostsSetting HealthSpec.

Lemma backup_hosts_are_clean_witness :
  hostA ∈ _getBackupHostsFromSettings 44%N asciiWhiteSpace (Some typedSetting) (Some hostP)
  ∧ wellFormed 44%N asciiWhiteSpace hostA
  ∧ Some hostA ≠ Some hostP
  ∧ ∃ text, Some typedSetting = Some text ∧ text ≠ [].
Proof.
  assert (Hin : hostA ∈ _getBackupHostsFromSettings 44%N asciiWhiteSpace
                          (Some typedSetting) (Some hostP)).
  { apply (bool_decide_unpack _). vm_compute. exact I. }
  split; [exact Hin|].
  exact (Health.backup_hosts_are_clean 44%N asciiWhiteSpace (Some typedSetting)
           (Some hostP) hostA Hin).
Defined.

Lemma backup_hosts_round_trip_witness :
  (∀ h, h ∈ [hostA; hostB] →
        wellFormed 44%N asciiWhiteSpace h ∧ Some h ≠ Some hostP)
  ∧ _getBackupHostsFromSettings 44%N asciiWhiteSpace
      (Some (join 44%N [hostA; hostB])) (Some hostP)
    = [hostA; hostB].
Proof.
  assert (Hok : ∀ h, h ∈ [hostA; hostB] →
                     wellFormed 44%N asciiWhiteSpace h ∧ Some h ≠ Some hostP).
  { intros h Hh. apply elem_of_cons in Hh as [->|Hh];
      [|apply list_elem_of_singleton in Hh as ->];
      (split; [split_and!|]);
      [discriminate | apply (bool_decide_unpack _); vm_compute; exact I
      | by intros c [= <-] | by intros c [= <-] | discriminate
      | discriminate | apply (bool_decide_unpack _); vm_compute; exact I
      | by intros c [= <-] | by intros c [= <-] | discriminate]. }
  split; [exact Hok|].
  exact (Health.backup_hosts_round_trip 44%N asciiWhiteSpace (Some hostP)
           [hostA; hostB] Hok).
Defined.

End HealthWitnesses.
